(** * Analytics engine of the trading platform (api/ai_services.py)

    A shallow embedding of the indicator calculators, the forecaster, the
    risk metrics, the allocation optimizer, the signal generator and the
    price history of the views, with properties of them.

    Numbers.  Two embeddings of Python's floats are used.

    The first takes them as exact rationals ([Q]): there is no rounding
    error, no overflow, and no nan/inf input.  Two things a float
    computation can do besides returning a number are kept:
    - a Python-level exception ([Raise]): a float or int division by zero
      raises ZeroDivisionError, an index out of range raises IndexError;
    - a numpy operation that yields nan or inf with a RuntimeWarning
      instead of raising ([NotFinite]): np.mean of an empty list, a
      division of numpy scalars by zero.  The rational model does not
      follow a computation past that point.
    It carries the properties that are about the structure of a
    computation (which window is averaged, which error is raised, which
    branch is taken) or that hold of floats as they hold of rationals.

    The second (module [IEEE]) has finite values, infinities and nan, and
    an abstract rounding.  It carries the properties that overflow or
    rounding breaks in the first: there a result is nan, or an index is
    another one, where the first embedding shows a number.

    Randomness.  The global generator of the [random] module is an explicit
    state threaded through the functions that draw from it. *)

From Stdlib Require Import ZArith QArith Qround Qabs Lqa Lia List Sorted.
From stdpp Require Import gmap strings.
Import ListNotations.

Local Open Scope Q_scope.

(** ** Outcomes of a call *)

Inductive exn : Type :=
  | ZeroDivisionError
  | IndexError
  | ValueError
  | OverflowError.

Inductive res (A : Type) : Type :=
  | Ret (a : A)
  | Raise (e : exn)
  | NotFinite.

Arguments Ret {A} a.
Arguments Raise {A} e.
Arguments NotFinite {A}.

#[global] Instance res_ret : MRet res := fun A a => Ret a.

#[global] Instance res_bind : MBind res := fun A B k c =>
  match c with
  | Ret a => k a
  | Raise e => Raise e
  | NotFinite => NotFinite
  end.

Definition has_result {A : Type} (c : res A) : Prop := exists a, c = Ret a.

Fixpoint rmap {A B : Type} (f : A -> res B) (l : list A) : res (list B) :=
  match l with
  | [] => Ret []
  | x :: t => y ← f x; ys ← rmap f t; Ret (y :: ys)
  end.

(** ** Python numbers *)

Definition float : Type := Q.

(** [x / y] on Python floats and ints. *)
Definition py_div (x y : float) : res float :=
  if Qeq_bool y 0 then Raise ZeroDivisionError else Ret (x / y).

(** [x / y] when an operand is a numpy scalar. *)
Definition np_div (x y : float) : res float :=
  if Qeq_bool y 0 then NotFinite else Ret (x / y).

Definition gtb (x y : float) : bool := negb (Qle_bool x y).
Definition ltb (x y : float) : bool := negb (Qle_bool y x).

(** The builtins [max(a, b)] and [min(a, b)]: the first argument unless
    the second is strictly larger (smaller). *)
Definition py_max (a b : float) : float := if gtb b a then b else a.
Definition py_min (a b : float) : float := if ltb b a then b else a.

(** [round(x)] to the nearest integer, ties to the even one. *)
Definition round_half_even (x : Q) : Z :=
  let f := Qfloor x in
  match Qcompare (x - inject_Z f) (1 # 2) with
  | Lt => f
  | Gt => (f + 1)%Z
  | Eq => if Z.even f then f else (f + 1)%Z
  end.

(** [round(x, ndigits)]. *)
Definition py_round (x : float) (ndigits : nat) : float :=
  Qmake (round_half_even (x * inject_Z (10 ^ Z.of_nat ndigits)))
        (Z.to_pos (10 ^ Z.of_nat ndigits)).

(** [int(x)]: truncation towards zero. *)
Definition py_int (x : float) : Z :=
  if Qle_bool 0 x then Qfloor x else Qceiling x.

(** ** Python lists *)

Definition len {A : Type} (l : list A) : Z := Z.of_nat (length l).

(** A slice bound brought into [0, len]: negative bounds count from the
    end. *)
Definition clamp_index (n i : Z) : Z :=
  if (i <? 0)%Z then Z.max 0 (n + i) else Z.min i n.

(** [l[start:stop]] *)
Definition slice {A : Type} (l : list A) (start stop : Z) : list A :=
  let a := clamp_index (len l) start in
  let b := clamp_index (len l) stop in
  firstn (Z.to_nat (b - a)) (skipn (Z.to_nat a) l).

(** [l[start:]] *)
Definition slice_from {A : Type} (l : list A) (start : Z) : list A :=
  skipn (Z.to_nat (clamp_index (len l) start)) l.

(** [l[:stop]] *)
Definition slice_to {A : Type} (l : list A) (stop : Z) : list A :=
  firstn (Z.to_nat (clamp_index (len l) stop)) l.

(** [l[i]] *)
Definition index {A : Type} (l : list A) (i : Z) : res A :=
  let n := len l in
  let j := if (i <? 0)%Z then (n + i)%Z else i in
  if ((0 <=? j) && (j <? n))%Z
  then match nth_error l (Z.to_nat j) with
       | Some x => Ret x
       | None => Raise IndexError
       end
  else Raise IndexError.

(** [range(a, b)] *)
Definition range (a b : Z) : list Z :=
  map (fun k => (a + Z.of_nat k)%Z) (seq 0 (Z.to_nat (b - a))).

Definition Qsum (l : list Q) : Q := fold_right Qplus 0 l.

(** [np.mean]: nan on an empty list. *)
Definition np_mean (l : list float) : res float :=
  match l with
  | [] => NotFinite
  | _ => Ret (Qsum l / inject_Z (len l))
  end.

(** [math.sqrt] and the square root inside [np.std] are kept abstract: a
    function on the rationals that never returns a negative number. *)
Class FloatSqrt : Type := {
  fsqrt : float -> float;
  fsqrt_nonneg : forall x, 0 <= fsqrt x
}.

(** An instance to run the model with: the square root rounded down to six
    decimals. *)
Definition sqrt_floor6 (x : float) : float :=
  Qmake (Z.sqrt (Qfloor (x * 1000000000000))) 1000000.

Lemma sqrt_floor6_nonneg (x : float) : 0 <= sqrt_floor6 x.
Proof.
  unfold sqrt_floor6, Qle; simpl. rewrite Z.mul_1_r. apply Z.sqrt_nonneg.
Qed.

Definition sqrt6 : FloatSqrt :=
  {| fsqrt := sqrt_floor6; fsqrt_nonneg := sqrt_floor6_nonneg |}.

Section Indicators.
Context {FS : FloatSqrt}.

(** [math.sqrt(x)] *)
Definition math_sqrt (x : float) : res float :=
  if ltb x 0 then Raise ValueError else Ret (fsqrt x).

(** [np.std]: the population standard deviation; nan on an empty list. *)
Definition np_std (l : list float) : res float :=
  m ← np_mean l;
  v ← np_mean (map (fun x => (x - m) * (x - m)) l);
  Ret (fsqrt v).

(** The builtins [min(l)] and [max(l)] on a list. *)
Definition list_min (l : list float) : res float :=
  match l with
  | [] => Raise ValueError
  | x :: t => Ret (fold_left py_min t x)
  end.

Definition list_max (l : list float) : res float :=
  match l with
  | [] => Raise ValueError
  | x :: t => Ret (fold_left py_max t x)
  end.

(** ** TechnicalIndicators *)

Definition calculate_sma (prices : list float) (period : Z)
  : res (list float) :=
  if (len prices <? period)%Z then
    match prices with
    | [] => Ret []  (* the nan of np.mean([]) is repeated zero times *)
    | _ => m ← np_mean prices; Ret (replicate (length prices) m)
    end
  else
    rmap (fun i : Z =>
            if (i <? period - 1)%Z
            then np_mean (slice_to prices (i + 1))
            else np_mean (slice prices (i - period + 1) (i + 1)))
         (range 0 (len prices)).

(** The loop of [calculate_ema]: [prev] is [ema[-1]]. *)
Fixpoint ema_loop (multiplier prev : float) (rest : list float)
  : list float :=
  match rest with
  | [] => []
  | p :: t =>
      let e := p * multiplier + prev * (1 - multiplier) in
      e :: ema_loop multiplier e t
  end.

Definition calculate_ema (prices : list float) (period : Z)
  : res (list float) :=
  match prices with
  | [] => Ret []
  | p0 :: rest =>
      multiplier ← py_div 2 (inject_Z (period + 1));
      Ret (p0 :: ema_loop multiplier p0 rest)
  end.

(** [[prices[i] - prices[i-1] for i in range(1, len(prices))]] *)
Fixpoint deltas (prices : list float) : list float :=
  match prices with
  | a :: (b :: _) as t => (b - a) :: deltas t
  | _ => []
  end.

Definition gain (d : float) : float := if gtb d 0 then d else 0.
Definition loss (d : float) : float := if ltb d 0 then - d else 0.

(** [np.mean(l) if l else 0] *)
Definition mean_or_zero (l : list float) : res float :=
  match l with
  | [] => Ret 0
  | _ => np_mean l
  end.

Definition calculate_rsi (prices : list float) (period : Z) : res float :=
  if (len prices <? period + 1)%Z then Ret 50
  else
    let ds := slice_from (deltas prices) (- period) in
    let gains := map gain ds in
    let losses := map loss ds in
    avg_gain ← mean_or_zero gains;
    avg_loss ← mean_or_zero losses;
    if Qeq_bool avg_loss 0 then Ret 100
    else
      rs ← np_div avg_gain avg_loss;
      q ← np_div 100 (1 + rs);
      Ret (py_round (100 - q) 2).

Record macd_result : Type := {
  macd : float;
  signal : float;
  histogram : float
}.

(** [[a[i] - b[i] for i in range(n)]] *)
Definition diff_line (a b : list float) (n : Z) : res (list float) :=
  rmap (fun i : Z => x ← index a i; y ← index b i; Ret (x - y)) (range 0 n).

Definition calculate_macd (prices : list float) : res macd_result :=
  if (len prices <? 26)%Z
  then Ret {| macd := 0; signal := 0; histogram := 0 |}
  else
    ema12 ← calculate_ema prices 12;
    ema26 ← calculate_ema prices 26;
    macd_line ← diff_line ema12 ema26 (len prices);
    signal_line ← calculate_ema macd_line 9;
    m ← index macd_line (-1);
    s ← index signal_line (-1);
    Ret {| macd := py_round m 4;
           signal := py_round s 4;
           histogram := py_round (m - s) 4 |}.

Record bands : Type := {
  upper : float;
  middle : float;
  lower : float
}.

Definition calculate_bollinger_bands (prices : list float) (period : Z)
  : res bands :=
  if (len prices <? period)%Z then
    current_price ← match prices with
                    | [] => Ret 0
                    | _ => index prices (-1)
                    end;
    Ret {| upper := current_price * 1.02;
           middle := current_price;
           lower := current_price * 0.98 |}
  else
    sma ← np_mean (slice_from prices (- period));
    std ← np_std (slice_from prices (- period));
    Ret {| upper := py_round (sma + 2 * std) 2;
           middle := py_round sma 2;
           lower := py_round (sma - 2 * std) 2 |}.

Definition true_range (high low close : list float) (i : Z) : res float :=
  hi ← index high i;
  lo ← index low i;
  c1 ← index close (i - 1);
  c2 ← index close (i - 1);
  Ret (py_max (py_max (hi - lo) (Qabs (hi - c1))) (Qabs (lo - c2))).

Definition calculate_atr (high low close : list float) (period : Z)
  : res float :=
  if (len high <? 2)%Z then Ret 0
  else
    tr_list ← rmap (true_range high low close) (range 1 (len high));
    match tr_list with
    | [] => Ret 0
    | _ => m ← np_mean (slice_from tr_list (- period)); Ret (py_round m 4)
    end.

Record stochastic : Type := {
  pct_k : float;
  pct_d : float
}.

Definition calculate_stochastic (high low close : list float) (period : Z)
  : res stochastic :=
  if (len close <? period)%Z then Ret {| pct_k := 50; pct_d := 50 |}
  else
    lowest_low ← list_min (slice_from low (- period));
    highest_high ← list_max (slice_from high (- period));
    kv ← (if Qeq_bool highest_high lowest_low then Ret 50
          else
            c ← index close (-1);
            q ← py_div (c - lowest_low) (highest_high - lowest_low);
            Ret (q * 100));
    Ret {| pct_k := py_round kv 2; pct_d := py_round kv 2 |}.

End Indicators.

(** ** The random module

    The generator is a pair of draw sequences with a cursor each: the
    values [random.random()] returns, and the standard normal variates
    behind [random.gauss]. *)

Record rng : Type := {
  uniforms : nat -> float;
  normals : nat -> float;
  upos : nat;
  npos : nat
}.

(** [random.random()] lies in [0, 1). *)
Definition rng_ok (g : rng) : Prop :=
  forall n, 0 <= uniforms g n /\ uniforms g n < 1.

Definition M (A : Type) : Type := rng -> res (A * rng).

#[global] Instance M_ret : MRet M := fun A a g => Ret (a, g).

#[global] Instance M_bind : MBind M := fun A B k c g =>
  match c g with
  | Ret (a, g') => k a g'
  | Raise e => Raise e
  | NotFinite => NotFinite
  end.

(** A computation that does not touch the generator. *)
Definition lift {A : Type} (c : res A) : M A :=
  fun g => a ← c; Ret (a, g).

Definition random_random : M float :=
  fun g => Ret (uniforms g (upos g),
                {| uniforms := uniforms g; normals := normals g;
                   upos := S (upos g); npos := npos g |}).

(** [random.uniform(a, b)] *)
Definition random_uniform (a b : float) : M float :=
  u ← random_random; mret (a + (b - a) * u).

(** [random.gauss(mu, sigma)] *)
Definition random_gauss (mu sigma : float) : M float :=
  fun g => Ret (mu + normals g (npos g) * sigma,
                {| uniforms := uniforms g; normals := normals g;
                   upos := upos g; npos := S (npos g) |}).

(** [random.choice(l)]: the element at a uniformly drawn index. *)
Definition random_choice {A : Type} (l : list A) : M A :=
  u ← random_random;
  lift (index l (Qfloor (u * inject_Z (len l)))).

Fixpoint mapM {A B : Type} (f : A -> M B) (l : list A) : M (list B) :=
  match l with
  | [] => mret []
  | x :: t => y ← f x; ys ← mapM f t; mret (y :: ys)
  end.

(** [sum(l)]: from 0, left to right. *)
Definition py_sum (l : list float) : float := fold_left Qplus l 0.

Section Services.
Context {FS : FloatSqrt}.

(** ** LSTMPredictor *)

Record LSTMPredictor : Type := {
  symbol : string;
  model_confidence : float;
  last_trained : string
}.

(** [__init__]; [now] is what [datetime.now()] reads. *)
Definition LSTMPredictor_init (sym now : string) : M LSTMPredictor :=
  c ← random_uniform 0.65 0.85;
  mret {| symbol := sym; model_confidence := c; last_trained := now |}.

Record forecast_point : Type := {
  period : Z;
  predicted_price : float;
  lower_bound : float;
  upper_bound : float
}.

Inductive direction : Type := bullish | bearish.

Record forecast : Type := {
  fc_symbol : string;
  fc_current_price : float;
  predictions : list forecast_point;
  fc_direction : direction;
  predicted_change_percent : float;
  confidence : float;
  model_accuracy : float;
  fc_last_trained : string;
  fc_periods_ahead : Z
}.

(** The dict [predict_price] returns: either [{'error': msg}] or the
    forecast. *)
Inductive prediction : Type :=
  | PredictionError (msg : string)
  | Prediction (f : forecast).

(** [(prices[-1] - prices[-n]) / prices[-n] if len(prices) >= n else 0] *)
Definition trend (prices : list float) (n : Z) : res float :=
  if (n <=? len prices)%Z then
    a ← index prices (-1);
    b ← index prices (- n);
    c ← index prices (- n);
    py_div (a - b) c
  else Ret 0.

(** One round of the forecast loop. *)
Definition forecast_step (current_price short_trend medium_trend
                          volatility : float) (periods_ahead i : Z)
  : M forecast_point :=
  trend_factor ← lift (py_div (short_trend * 0.6 + medium_trend * 0.4)
                              (inject_Z periods_ahead));
  noise ← random_gauss 0 (volatility * 0.3);
  let predicted_change := trend_factor + noise in
  let predicted := current_price * (1 + predicted_change * inject_Z i * 0.1) in
  s ← lift (math_sqrt (inject_Z i));
  let ci_width := volatility * s * current_price in
  mret {| period := i;
          predicted_price := py_round predicted 2;
          lower_bound := py_round (predicted - ci_width) 2;
          upper_bound := py_round (predicted + ci_width) 2 |}.

Definition predict_price (self : LSTMPredictor)
    (historical_prices : list float) (periods_ahead : Z) : M prediction :=
  if (len historical_prices <? 10)%Z
  then mret (PredictionError "Insufficient data for prediction")
  else
    current_price ← lift (index historical_prices (-1));
    short_trend ← lift (trend historical_prices 5);
    medium_trend ← lift (trend historical_prices 10);
    (* with 20 points or more the volatility is a numpy scalar, and so is
       everything computed from it *)
    let numpy := (20 <=? len historical_prices)%Z in
    volatility ← lift (if numpy
                       then s ← np_std (slice_from historical_prices (-20));
                            m ← np_mean (slice_from historical_prices (-20));
                            np_div s m
                       else Ret 0.02);
    preds ← mapM (forecast_step current_price short_trend medium_trend
                                volatility periods_ahead)
                 (range 1 (periods_ahead + 1));
    final ← lift (index preds (-1));
    let final_prediction := predicted_price final in
    let dir := if gtb final_prediction current_price
               then bullish else bearish in
    ratio ← lift ((if numpy then np_div else py_div)
                    (final_prediction - current_price) current_price);
    let price_change_pct := ratio * 100 in
    accuracy ← random_uniform 72 89;
    mret (Prediction
            {| fc_symbol := symbol self;
               fc_current_price := current_price;
               predictions := preds;
               fc_direction := dir;
               predicted_change_percent := py_round price_change_pct 2;
               confidence := py_round (model_confidence self * 100) 1;
               model_accuracy := py_round accuracy 1;
               fc_last_trained := last_trained self;
               fc_periods_ahead := periods_ahead |}).

(** ** RiskAssessment *)

(** [sorted(l)]: a stable insertion sort, ascending. *)
Fixpoint insert_sorted (x : float) (l : list float) : list float :=
  match l with
  | [] => [x]
  | y :: t => if ltb x y then x :: l else y :: insert_sorted x t
  end.

Definition sorted (l : list float) : list float :=
  fold_left (fun acc x => insert_sorted x acc) l [].

Definition calculate_var (returns : list float) (confidence : float)
  : res float :=
  if (len returns <? 10)%Z then Ret 0.05
  else
    let sorted_returns := sorted returns in
    let i := py_int ((1 - confidence) * inject_Z (len sorted_returns)) in
    r ← index sorted_returns i;
    Ret (py_round (Qabs r * 100) 2).

Definition calculate_sharpe_ratio (returns : list float)
    (risk_free_rate : float) : res float :=
  if (len returns <? 2)%Z then Ret 0
  else
    mean_return ← np_mean returns;
    std_return ← np_std returns;
    if Qeq_bool std_return 0 then Ret 0
    else
      q ← np_div (mean_return - risk_free_rate / 252) std_return;
      s ← math_sqrt 252;
      Ret (py_round (q * s) 2).

(** The loop of [calculate_max_drawdown], from the state (peak, max_dd). *)
Fixpoint drawdown_loop (values : list float) (peak max_dd : float)
  : res float :=
  match values with
  | [] => Ret max_dd
  | value :: t =>
      let peak' := if gtb value peak then value else peak in
      dd ← py_div (peak' - value) peak';
      drawdown_loop t peak' (if gtb dd max_dd then dd else max_dd)
  end.

Definition calculate_max_drawdown (equity_curve : list float) : res float :=
  if (len equity_curve <? 2)%Z then Ret 0
  else
    peak ← index equity_curve 0;
    max_dd ← drawdown_loop equity_curve peak 0;
    Ret (py_round (max_dd * 100) 2).

Inductive level : Type := low | medium | high.

Record trade_risk : Type := {
  risk_score : float;
  risk_level : level;
  position_percentage : float;
  max_loss_1std : float;
  max_loss_2std : float;
  recommended_stop_loss : float;
  recommended_take_profit : float;
  recommendation : string
}.

Definition assess_trade_risk (entry_price position_size portfolio_value
                              volatility : float) : res trade_risk :=
  let position_value := entry_price * position_size in
  q ← py_div position_value portfolio_value;
  let position_pct := q * 100 in
  let loss_1std := position_value * volatility in
  let loss_2std := position_value * volatility * 2 in
  let score := py_min 10 (py_max 1 (position_pct / 5 + volatility * 20)) in
  let stop_loss := entry_price * (1 - volatility * 1.5) in
  let take_profit := entry_price * (1 + volatility * 2) in
  let lvl := if ltb score 4 then low
             else if ltb score 7 then medium else high in
  Ret {| risk_score := py_round score 1;
         risk_level := lvl;
         position_percentage := py_round position_pct 2;
         max_loss_1std := py_round loss_1std 2;
         max_loss_2std := py_round loss_2std 2;
         recommended_stop_loss := py_round stop_loss 2;
         recommended_take_profit := py_round take_profit 2;
         recommendation := if gtb score 6 then "Proceed with caution"
                           else "Trade appears reasonable" |}.

(** A position dict; only its ['value'] key is read, and it may be
    missing. *)
Record position : Type := {
  pos_symbol : string;
  pos_value : option float
}.

Inductive concentration : Type :=
  | conc_na | conc_low | conc_medium | conc_high.

(** The dict [portfolio_risk_metrics] returns; the last three keys are
    absent from the result for an empty portfolio. *)
Record portfolio_risk : Type := {
  total_risk_score : float;
  diversification_score : Z;
  concentration_risk : concentration;
  var_95 : float;
  expected_volatility : float;
  max_position_percentage : option float;
  beta : option float;
  correlation_to_market : option float
}.

(** [p.get('value', 0)] *)
Definition value_of (p : position) : float := default 0 (pos_value p).

Definition portfolio_risk_metrics (positions : list position)
    (historical_data : gmap string (list float)) : M portfolio_risk :=
  match positions with
  | [] =>
      mret {| total_risk_score := 0; diversification_score := 0;
              concentration_risk := conc_na; var_95 := 0;
              expected_volatility := 0; max_position_percentage := None;
              beta := None; correlation_to_market := None |}
  | _ =>
      let total_value := py_sum (map value_of positions) in
      max_position_pct ←
        lift (if gtb total_value 0 then
                shares ← rmap (fun p => q ← py_div (value_of p) total_value;
                                        Ret (q * 100)) positions;
                list_max shares
              else Ret 0);
      let diversification := Z.min 10 (len positions * 2) in
      portfolio_volatility ← random_uniform 0.15 0.35;
      let concentration_level :=
        if gtb max_position_pct 50 then conc_high
        else if gtb max_position_pct 25 then conc_medium else conc_low in
      score ← random_uniform 4 7;
      b ← random_uniform 0.8 1.3;
      c ← random_uniform 0.6 0.9;
      mret {| total_risk_score := py_round score 1;
              diversification_score := diversification;
              concentration_risk := concentration_level;
              var_95 := py_round (portfolio_volatility * 1.65 * 100) 2;
              expected_volatility := py_round (portfolio_volatility * 100) 2;
              max_position_percentage := Some (py_round max_position_pct 2);
              beta := Some (py_round b 2);
              correlation_to_market := Some (py_round c 2) |}
  end.

(** ** PortfolioOptimizer *)

(** An asset dict: each key may be missing. *)
Record asset : Type := {
  asset_symbol : option string;
  asset_volatility : option float;
  asset_expected_return : option float
}.

Record allocation_entry : Type := {
  entry_symbol : option string;
  entry_weight : float;
  entry_expected_return : float;
  entry_volatility : float
}.

Record optimization : Type := {
  optimal_allocation : list allocation_entry;
  expected_portfolio_return : float;
  expected_portfolio_volatility : float;
  sharpe_ratio : float;
  opt_risk_tolerance : string;
  rebalancing_needed : bool;
  opt_recommendation : string
}.

(** The dict [optimize_allocation] returns: [{'error': msg}] or the
    optimization. *)
Inductive optimized : Type :=
  | OptimizeError (msg : string)
  | Optimized (o : optimization).

(** [risk_multipliers.get(risk_tolerance, 0.6)] *)
Definition risk_multiplier (risk_tolerance : string) : float :=
  if String.eqb risk_tolerance "conservative" then 0.3
  else if String.eqb risk_tolerance "medium" then 0.6
  else if String.eqb risk_tolerance "aggressive" then 0.9
  else 0.6.

(** [max(0.05, min(0.4, (adjusted_score + 1) / 4))] *)
Definition raw_weight (risk_mult expected_return volatility : float)
  : res float :=
  score ← py_div expected_return (volatility + 0.01);
  let adjusted_score := if gtb score 0 then score * risk_mult
                        else score * (1 - risk_mult) in
  Ret (py_max 0.05 (py_min 0.4 ((adjusted_score + 1) / 4))).

(** One round of the weighting loop.  The default of [dict.get] is an
    argument, so both draws are made whether or not the key is there. *)
Definition weigh (risk_mult : float) (a : asset) : M allocation_entry :=
  dv ← random_uniform 0.2 0.5;
  let volatility := default dv (asset_volatility a) in
  dr ← random_uniform (-0.1) 0.3;
  let expected_return := default dr (asset_expected_return a) in
  weight ← lift (raw_weight risk_mult expected_return volatility);
  mret {| entry_symbol := asset_symbol a;
          entry_weight := weight;
          entry_expected_return := py_round (expected_return * 100) 2;
          entry_volatility := py_round (volatility * 100) 2 |}.

(** [w['weight'] = round(w['weight'] / total_weight, 4)] *)
Definition set_weight (w : allocation_entry) (x : float)
  : allocation_entry :=
  {| entry_symbol := entry_symbol w;
     entry_weight := x;
     entry_expected_return := entry_expected_return w;
     entry_volatility := entry_volatility w |}.

Definition normalize (total_weight : float) (w : allocation_entry)
  : res allocation_entry :=
  q ← py_div (entry_weight w) total_weight;
  Ret (set_weight w (py_round q 4)).

(** The third parameter of the source, [target_return], is never read and
    is left out. *)
Definition optimize_allocation (assets : list asset)
    (risk_tolerance : string) : M optimized :=
  match assets with
  | [] => mret (OptimizeError "No assets provided")
  | _ =>
      let risk_mult := risk_multiplier risk_tolerance in
      raw ← mapM (weigh risk_mult) assets;
      let total_weight := py_sum (map entry_weight raw) in
      optimal_weights ← lift (rmap (normalize total_weight) raw);
      let portfolio_return :=
        py_sum (map (fun w => entry_weight w * entry_expected_return w)
                    optimal_weights) in
      let portfolio_volatility :=
        py_sum (map (fun w => entry_weight w * entry_volatility w)
                    optimal_weights) * 0.7 in
      sharpe ← lift (py_div portfolio_return (portfolio_volatility + 0.01));
      rebalance ← random_choice [true; false];
      mret (Optimized
              {| optimal_allocation := optimal_weights;
                 expected_portfolio_return := py_round portfolio_return 2;
                 expected_portfolio_volatility :=
                   py_round portfolio_volatility 2;
                 sharpe_ratio := py_round sharpe 2;
                 opt_risk_tolerance := risk_tolerance;
                 rebalancing_needed := rebalance;
                 opt_recommendation :=
                   "Portfolio optimized for " ++ risk_tolerance
                   ++ " risk tolerance" |})
  end.

(** An entry of an allocation passed to [suggest_rebalancing]. *)
Record holding : Type := {
  holding_symbol : string;
  holding_weight : float
}.

Inductive action : Type := buy | sell.

Record suggestion : Type := {
  sg_symbol : string;
  sg_action : action;
  current_weight : float;
  target_weight : float;
  change_percentage : float
}.

(** [{a['symbol']: a['weight'] for a in allocation}]: a later entry for a
    symbol replaces an earlier one. *)
Definition weights_dict (allocation : list holding) : gmap string float :=
  fold_left (fun m a => <[holding_symbol a := holding_weight a]> m)
            allocation ∅.

(** The body of the loop over [all_symbols]. *)
Definition suggest (current_dict target_dict : gmap string float)
    (sym : string) : option suggestion :=
  let cw := default 0 (current_dict !! sym) in
  let tw := default 0 (target_dict !! sym) in
  let diff := tw - cw in
  if gtb (Qabs diff) 0.01 then
    Some {| sg_symbol := sym;
            sg_action := if gtb diff 0 then buy else sell;
            current_weight := py_round (cw * 100) 2;
            target_weight := py_round (tw * 100) 2;
            change_percentage := py_round (diff * 100) 2 |}
  else None.

(** Python iterates over the set [all_symbols] in an order of its own;
    the model takes the order [elements] gives. *)
Definition suggest_rebalancing (current_allocation target_allocation
                                : list holding) : list suggestion :=
  let current_dict := weights_dict current_allocation in
  let target_dict := weights_dict target_allocation in
  let all_symbols : gset string := dom current_dict ∪ dom target_dict in
  omap (suggest current_dict target_dict) (elements all_symbols).

(** ** LSTMPredictor.get_trading_signal *)

Inductive signal_class : Type :=
  | sig_strong_buy | sig_buy | sig_hold | sig_sell | sig_strong_sell.

(** The ['reason'] text: the error message of the prediction, or one of the
    five templates, two of which print the predicted change. *)
Inductive reason : Type :=
  | reason_error (msg : string)
  | reason_strong_bullish (change_pct : float)
  | reason_moderate_bullish (change_pct : float)
  | reason_strong_bearish (change_pct : float)
  | reason_moderate_bearish (change_pct : float)
  | reason_stable.

(** The dict [get_trading_signal] returns; the last two keys are absent
    when the prediction failed. *)
Record trading_signal : Type := {
  ts_signal : signal_class;
  ts_reason : reason;
  ts_confidence : float;
  ts_predicted_change : option float;
  ts_analysis : option forecast
}.

Definition classify_forecast (change_pct conf : float)
  : signal_class * reason :=
  if gtb change_pct 2 && gtb conf 70
  then (sig_strong_buy, reason_strong_bullish change_pct)
  else if gtb change_pct 0.5
  then (sig_buy, reason_moderate_bullish change_pct)
  else if ltb change_pct (-2) && gtb conf 70
  then (sig_strong_sell, reason_strong_bearish change_pct)
  else if ltb change_pct (-0.5)
  then (sig_sell, reason_moderate_bearish change_pct)
  else (sig_hold, reason_stable).

Definition get_trading_signal (self : LSTMPredictor)
    (historical_prices : list float) : M trading_signal :=
  p ← predict_price self historical_prices 6;
  match p with
  | PredictionError msg =>
      mret {| ts_signal := sig_hold; ts_reason := reason_error msg;
              ts_confidence := 0; ts_predicted_change := None;
              ts_analysis := None |}
  | Prediction f =>
      let change_pct := predicted_change_percent f in
      let conf := confidence f in
      let sr := classify_forecast change_pct conf in
      mret {| ts_signal := fst sr; ts_reason := snd sr;
              ts_confidence := conf;
              ts_predicted_change := Some change_pct;
              ts_analysis := Some f |}
  end.

(** ** TradingSignalGenerator *)

Definition _score_rsi (rsi : float) : float :=
  if ltb rsi 30 then 0.8
  else if ltb rsi 40 then 0.4
  else if gtb rsi 70 then -0.8
  else if gtb rsi 60 then -0.4
  else 0.

Definition _score_macd (m : macd_result) : float :=
  let h := histogram m in
  if gtb h 0.5 then 0.8
  else if gtb h 0 then 0.3
  else if ltb h (-0.5) then -0.8
  else if ltb h 0 then -0.3
  else 0.

(** The division is only made when the band has a width. *)
Definition _score_bollinger (price : float) (bb : bands) : float :=
  let range_pct :=
    if negb (Qeq_bool (upper bb) (lower bb))
    then (price - lower bb) / (upper bb - lower bb)
    else 0.5 in
  if ltb range_pct 0.2 then 0.7
  else if gtb range_pct 0.8 then -0.7
  else 0.

Definition _score_stochastic (stoch : stochastic) : float :=
  if ltb (pct_k stoch) 20 then 0.7
  else if gtb (pct_k stoch) 80 then -0.7
  else 0.

Definition _score_ma (price sma20 sma50 ema12 : float) : float :=
  let s0 := 0 in
  let s1 := if gtb price sma20 then s0 + 0.3 else s0 - 0.3 in
  let s2 := if gtb price sma50 then s1 + 0.3 else s1 - 0.3 in
  let s3 := if gtb sma20 sma50 then s2 + 0.4 else s2 - 0.4 in
  py_max (-1) (py_min 1 s3).

Definition _score_lstm_signal (sig : signal_class) : float :=
  match sig with
  | sig_strong_buy => 1.0
  | sig_buy => 0.5
  | sig_hold => 0
  | sig_sell => -0.5
  | sig_strong_sell => -1.0
  end.

(** The [scores] dict, in insertion order. *)
Record scores : Type := {
  sc_rsi : float;
  sc_macd : float;
  sc_bollinger : float;
  sc_stochastic : float;
  sc_moving_averages : float;
  sc_lstm_prediction : float
}.

(** [sum(scores[k] * weights[k] for k in scores)] *)
Definition weighted_total (s : scores) : float :=
  py_sum [sc_rsi s * 0.15; sc_macd s * 0.2; sc_bollinger s * 0.1;
          sc_stochastic s * 0.1; sc_moving_averages s * 0.2;
          sc_lstm_prediction s * 0.25].

(** The signal and the confidence the total score is mapped to. *)
Definition grade (total_score : float) : signal_class * float :=
  if gtb total_score 0.5
  then (sig_strong_buy, py_min 95 (70 + total_score * 25))
  else if gtb total_score 0.2
  then (sig_buy, py_min 85 (60 + total_score * 30))
  else if ltb total_score (-0.5)
  then (sig_strong_sell, py_min 95 (70 + Qabs total_score * 25))
  else if ltb total_score (-0.2)
  then (sig_sell, py_min 85 (60 + Qabs total_score * 30))
  else (sig_hold, 50 + Qabs total_score * 20).

Inductive rsi_label : Type := oversold | overbought | neutral.

Record indicators : Type := {
  ind_rsi_value : float;
  ind_rsi_signal : rsi_label;
  ind_macd : macd_result;
  ind_bollinger_bands : bands;
  ind_stochastic : stochastic;
  ind_sma_20 : float;
  ind_sma_50 : float;
  ind_ema_12 : float
}.

Record comprehensive : Type := {
  cs_symbol : string;
  cs_signal : signal_class;
  cs_confidence : float;
  cs_overall_score : float;
  cs_indicators : indicators;
  cs_indicator_scores : scores;
  cs_current_price : float;
  cs_lstm_analysis : trading_signal;
  cs_timestamp : string
}.

(** The dict [generate_comprehensive_signal] returns:
    [{'error': msg, 'signal': 'hold'}] or the full signal. *)
Inductive comprehensive_signal : Type :=
  | SignalError (msg : string) (sig : signal_class)
  | Signal (s : comprehensive).

(** The [price_data] dict: the keys that are read, each possibly
    missing. *)
Record price_data : Type := {
  pd_close : option (list float);
  pd_high : option (list float);
  pd_low : option (list float)
}.

(** [f(prices, n)[-1]] *)
Definition last_of (c : res (list float)) : res float :=
  l ← c; index l (-1).

(** [trained_at] and [timestamp] are what the two calls of
    [datetime.now()] read. *)
Definition generate_comprehensive_signal (sym : string)
    (data : price_data) (trained_at timestamp : string)
  : M comprehensive_signal :=
  let prices := default [] (pd_close data) in
  let high := default prices (pd_high data) in
  let low := default prices (pd_low data) in
  if (len prices <? 20)%Z
  then mret (SignalError "Insufficient price data" sig_hold)
  else
    rsi ← lift (calculate_rsi prices 14);
    macd_v ← lift (calculate_macd prices);
    bollinger ← lift (calculate_bollinger_bands prices 20);
    stoch ← lift (calculate_stochastic high low prices 14);
    sma_20 ← lift (last_of (calculate_sma prices 20));
    sma_50 ← lift (if (50 <=? len prices)%Z
                   then last_of (calculate_sma prices 50)
                   else Ret sma_20);
    ema_12 ← lift (last_of (calculate_ema prices 12));
    current_price ← lift (index prices (-1));
    let s_rsi := _score_rsi rsi in
    let s_macd := _score_macd macd_v in
    let s_bollinger := _score_bollinger current_price bollinger in
    let s_stochastic := _score_stochastic stoch in
    let s_ma := _score_ma current_price sma_20 sma_50 ema_12 in
    lstm ← LSTMPredictor_init sym trained_at;
    lstm_signal ← get_trading_signal lstm prices;
    let sc := {| sc_rsi := s_rsi; sc_macd := s_macd;
                 sc_bollinger := s_bollinger;
                 sc_stochastic := s_stochastic;
                 sc_moving_averages := s_ma;
                 sc_lstm_prediction :=
                   _score_lstm_signal (ts_signal lstm_signal) |} in
    let total_score := weighted_total sc in
    let sg := grade total_score in
    mret (Signal
            {| cs_symbol := sym;
               cs_signal := fst sg;
               cs_confidence := py_round (snd sg) 1;
               cs_overall_score := py_round total_score 3;
               cs_indicators :=
                 {| ind_rsi_value := rsi;
                    ind_rsi_signal := if ltb rsi 30 then oversold
                                      else if gtb rsi 70 then overbought
                                      else neutral;
                    ind_macd := macd_v;
                    ind_bollinger_bands := bollinger;
                    ind_stochastic := stoch;
                    ind_sma_20 := py_round sma_20 2;
                    ind_sma_50 := py_round sma_50 2;
                    ind_ema_12 := py_round ema_12 2 |};
               cs_indicator_scores :=
                 {| sc_rsi := py_round (sc_rsi sc) 2;
                    sc_macd := py_round (sc_macd sc) 2;
                    sc_bollinger := py_round (sc_bollinger sc) 2;
                    sc_stochastic := py_round (sc_stochastic sc) 2;
                    sc_moving_averages := py_round (sc_moving_averages sc) 2;
                    sc_lstm_prediction :=
                      py_round (sc_lstm_prediction sc) 2 |};
               cs_current_price := current_price;
               cs_lstm_analysis := lstm_signal;
               cs_timestamp := timestamp |}).

(** ** SentimentAnalyzer *)

(** [random.randint(a, b)]: an integer drawn uniformly from [a, b]. *)
Definition random_randint (a b : Z) : M Z :=
  u ← random_random;
  mret (a + Qfloor (u * inject_Z (b - a + 1)))%Z.

Inductive mood : Type := mood_bullish | mood_bearish | mood_neutral.

Inductive impact : Type := impact_positive | impact_negative | impact_neutral.

Record sentiment : Type := {
  st_symbol : string;
  overall_sentiment : float;
  st_mood : mood;
  market_sentiment : float;
  news_sentiment : float;
  social_sentiment : float;
  volume_sentiment : float;
  fear_greed_index : Z;
  trending_topics : list string;
  news_impact : impact;
  st_timestamp : string
}.

Definition get_market_sentiment (sym timestamp : string) : M sentiment :=
  sentiment_score ← random_uniform (-1) 1;
  news ← random_uniform (-1) 1;
  social ← random_uniform (-1) 1;
  volume ← random_uniform (-0.5) 0.5;
  let overall := sentiment_score * 0.3 + news * 0.3
                 + social * 0.25 + volume * 0.15 in
  let m := if gtb overall 0.3 then mood_bullish
           else if ltb overall (-0.3) then mood_bearish
           else mood_neutral in
  fg ← random_randint 20 80;
  ni ← random_choice [impact_positive; impact_negative; impact_neutral];
  mret {| st_symbol := sym;
          overall_sentiment := py_round overall 2;
          st_mood := m;
          market_sentiment := py_round sentiment_score 2;
          news_sentiment := py_round news 2;
          social_sentiment := py_round social 2;
          volume_sentiment := py_round volume 2;
          fear_greed_index := fg;
          trending_topics := [String.append sym " price prediction";
                              String.append sym " technical analysis";
                              "crypto market outlook"];
          news_impact := ni;
          st_timestamp := timestamp |}.

(** ** generate_price_history (api/views.py) *)

Record bar : Type := {
  bar_open : float;
  bar_high : float;
  bar_low : float;
  bar_close : float;
  bar_volume : float
}.

(** One round of the loop, from the running price [current]. *)
Definition next_bar (current : float) : M bar :=
  volatility ← random_uniform 0.01 0.04;
  change ← random_gauss 0 volatility;
  let open_price := current in
  let close_price := current * (1 + change) in
  u1 ← random_uniform 0 0.02;
  let high_price := py_max open_price close_price * (1 + u1) in
  u2 ← random_uniform 0 0.02;
  let low_price := py_min open_price close_price * (1 - u2) in
  volume ← random_uniform 1000000 50000000;
  mret {| bar_open := open_price; bar_high := high_price;
          bar_low := low_price; bar_close := close_price;
          bar_volume := volume |}.

Fixpoint price_bars (days : nat) (current : float) : M (list bar) :=
  match days with
  | O => mret []
  | S n =>
      b ← next_bar current;
      rest ← price_bars n (bar_close b);
      mret (b :: rest)
  end.

(** The dict of five lists the function returns. *)
Record price_history : Type := {
  ph_open : list float;
  ph_high : list float;
  ph_low : list float;
  ph_close : list float;
  ph_volume : list float
}.

Definition generate_price_history (base_price : float) (days : Z)
  : M price_history :=
  bars ← price_bars (Z.to_nat days) base_price;
  mret {| ph_open := map bar_open bars;
          ph_high := map bar_high bars;
          ph_low := map bar_low bars;
          ph_close := map bar_close bars;
          ph_volume := map bar_volume bars |}.

(** The price dict as a caller hands it to the signal generator. *)
Definition as_price_data (h : price_history) : price_data :=
  {| pd_close := Some (ph_close h);
     pd_high := Some (ph_high h);
     pd_low := Some (ph_low h) |}.

End Services.

(** * Binary floating point

    The functions whose claims turn on what floating point does at the
    edge of its range are embedded a second time, over floats as IEEE 754
    has them: a finite value, an infinity or nan.  An operation on finite
    values is the exact result rounded by [rnd], which is kept abstract:
    any monotone rounding that leaves representable numbers alone and
    sends what is out of range to an infinity.  What is proved here holds
    for every such rounding, binary64's among them.  Zeros carry no sign;
    no division below divides by a zero that could be negative. *)

Module IEEE.

Inductive xfloat : Type :=
  | Fin (q : Q)
  | PInf
  | NInf
  | NaN.

Definition is_nan (x : xfloat) : bool :=
  match x with NaN => true | _ => false end.

Definition is_zero (x : xfloat) : bool :=
  match x with Fin q => Qeq_bool q 0 | _ => false end.

(** [x <= y]: false when an operand is nan. *)
Definition leb (x y : xfloat) : bool :=
  match x, y with
  | NaN, _ => false
  | _, NaN => false
  | NInf, _ => true
  | _, PInf => true
  | Fin a, Fin b => Qle_bool a b
  | _, _ => false
  end.

Definition ltb (x y : xfloat) : bool := leb x y && negb (leb y x).
Definition eqb (x y : xfloat) : bool := leb x y && leb y x.

Definition neg (x : xfloat) : xfloat :=
  match x with
  | Fin q => Fin (- q)
  | PInf => NInf
  | NInf => PInf
  | NaN => NaN
  end.

Definition signed_inf (positive : bool) : xfloat :=
  if positive then PInf else NInf.

(** The rounding of binary64. *)
Class Rounding : Type := {
  rnd : Q -> xfloat;
  rnd_mono : forall x y, x <= y -> leb (rnd x) (rnd y) = true;
  rnd_idem : forall x y, rnd x = Fin y -> eqb (rnd y) (Fin y) = true;
  rnd_int : forall n : Z,
      (Z.abs n <= 2 ^ 53)%Z -> eqb (rnd (inject_Z n)) (Fin (inject_Z n)) = true
}.

(** A float, as opposed to a rational that no float is equal to. *)
Definition is_float {R : Rounding} (x : xfloat) : bool :=
  match x with Fin q => eqb (rnd q) (Fin q) | _ => true end.

(** Two more facts of binary64: the halves of small integers are floats,
    and, underflow being gradual, the difference of two distinct floats is
    not zero. *)
Class Binary {R : Rounding} : Type := {
  rnd_half : forall n : Z,
      (Z.abs n <= 2 ^ 53)%Z ->
      eqb (rnd (inject_Z n / 2)) (Fin (inject_Z n / 2)) = true;
  sub_nonzero : forall a b : Q,
      eqb (rnd a) (Fin a) = true -> eqb (rnd b) (Fin b) = true ->
      eqb (rnd (a - b)) (Fin 0) = true -> a == b
}.

Section Arithmetic.
Context {R : Rounding}.

(** A decimal literal of the source. *)
Definition lit (q : Q) : xfloat := rnd q.

(** An int where a float is due: one too large for a float raises. *)
Definition of_int (n : Z) : res xfloat :=
  match rnd (inject_Z n) with
  | Fin q => Ret (Fin q)
  | _ => Raise OverflowError
  end.

Definition add (x y : xfloat) : xfloat :=
  match x, y with
  | NaN, _ => NaN
  | _, NaN => NaN
  | PInf, NInf => NaN
  | NInf, PInf => NaN
  | PInf, _ => PInf
  | _, PInf => PInf
  | NInf, _ => NInf
  | _, NInf => NInf
  | Fin a, Fin b => rnd (a + b)
  end.

Definition sub (x y : xfloat) : xfloat := add x (neg y).

(** A finite value times an infinity. *)
Definition scale_inf (q : Q) (positive : bool) : xfloat :=
  match Qcompare q 0 with
  | Eq => NaN
  | Gt => signed_inf positive
  | Lt => signed_inf (negb positive)
  end.

Definition mul (x y : xfloat) : xfloat :=
  match x, y with
  | NaN, _ => NaN
  | _, NaN => NaN
  | Fin a, Fin b => rnd (a * b)
  | Fin a, PInf => scale_inf a true
  | PInf, Fin a => scale_inf a true
  | Fin a, NInf => scale_inf a false
  | NInf, Fin a => scale_inf a false
  | PInf, PInf => PInf
  | NInf, NInf => PInf
  | PInf, NInf => NInf
  | NInf, PInf => NInf
  end.

(** [x / y] when an operand is a numpy scalar: a zero divisor gives an
    infinity or nan, with a warning. *)
Definition np_div (x y : xfloat) : xfloat :=
  match x, y with
  | NaN, _ => NaN
  | _, NaN => NaN
  | Fin a, Fin b => if Qeq_bool b 0 then scale_inf a true else rnd (a / b)
  | Fin _, _ => Fin 0
  | PInf, Fin b => signed_inf (Qle_bool 0 b)
  | NInf, Fin b => signed_inf (negb (Qle_bool 0 b))
  | _, _ => NaN
  end.

(** [x / y] on Python floats: a zero divisor raises. *)
Definition py_div (x y : xfloat) : res xfloat :=
  if is_zero y then Raise ZeroDivisionError else Ret (np_div x y).

End Arithmetic.

(** What is used of numpy and of the builtin [round], each with what holds
    of it whatever the order numpy adds in. *)
Class Numpy {R : Rounding} : Type := {
  np_mean : list xfloat -> xfloat;
  np_mean_empty : np_mean [] = NaN;
  np_mean_float : forall l, is_float (np_mean l) = true;
  np_mean_nonneg : forall l,
      l <> [] -> Forall (fun x => leb (Fin 0) x = true) l ->
      leb (Fin 0) (np_mean l) = true;
  np_mean_zero : forall l,
      l <> [] -> Forall (fun x => eqb x (Fin 0) = true) l ->
      eqb (np_mean l) (Fin 0) = true;
  np_std : list xfloat -> xfloat;
  np_std_empty : np_std [] = NaN;
  np_std_nonneg : forall l,
      is_nan (np_std l) = false -> leb (Fin 0) (np_std l) = true;
  round : xfloat -> nat -> xfloat;
  round_mono : forall x y n,
      leb x y = true -> leb (round x n) (round y n) = true;
  round_nan : forall x n, is_nan (round x n) = is_nan x;
  round_int : forall (k : Z) (n : nat),
      (Z.abs k <= 1000000)%Z -> (n <= 4)%nat ->
      eqb (round (Fin (inject_Z k)) n) (Fin (inject_Z k)) = true
}.

Section Indicators.
Context {R : Rounding} {N : Numpy}.

(** *** calculate_rsi *)

Fixpoint deltas (prices : list xfloat) : list xfloat :=
  match prices with
  | a :: (b :: _) as t => sub b a :: deltas t
  | _ => []
  end.

Definition gain (d : xfloat) : xfloat := if ltb (Fin 0) d then d else Fin 0.
Definition loss (d : xfloat) : xfloat :=
  if ltb d (Fin 0) then neg d else Fin 0.

(** [np.mean(l) if l else 0] *)
Definition mean_or_zero (l : list xfloat) : xfloat :=
  match l with
  | [] => Fin 0
  | _ => np_mean l
  end.

Definition avg_gain (prices : list xfloat) (period : Z) : xfloat :=
  mean_or_zero (map gain (slice_from (deltas prices) (- period))).

Definition avg_loss (prices : list xfloat) (period : Z) : xfloat :=
  mean_or_zero (map loss (slice_from (deltas prices) (- period))).

Definition calculate_rsi (prices : list xfloat) (period : Z) : xfloat :=
  if (len prices <? period + 1)%Z then Fin 50
  else
    if eqb (avg_loss prices period) (Fin 0) then Fin 100
    else
      let rs := np_div (avg_gain prices period) (avg_loss prices period) in
      let rsi := sub (Fin 100) (np_div (Fin 100) (add (Fin 1) rs)) in
      round rsi 2.

(** *** calculate_bollinger_bands *)

Record bands : Type := {
  upper : xfloat;
  middle : xfloat;
  lower : xfloat
}.

Definition calculate_bollinger_bands (prices : list xfloat) (period : Z)
  : res bands :=
  if (len prices <? period)%Z then
    current_price ← match prices with
                    | [] => Ret (Fin 0)
                    | _ => index prices (-1)
                    end;
    Ret {| upper := mul current_price (lit 1.02);
           middle := current_price;
           lower := mul current_price (lit 0.98) |}
  else
    let sma := np_mean (slice_from prices (- period)) in
    let std := np_std (slice_from prices (- period)) in
    Ret {| upper := round (add sma (mul (Fin 2) std)) 2;
           middle := round sma 2;
           lower := round (sub sma (mul (Fin 2) std)) 2 |}.

(** *** calculate_stochastic *)

(** The builtins [min] and [max] keep what they hold unless the next item
    is strictly smaller (larger); a comparison with nan is false. *)
Definition py_min (a b : xfloat) : xfloat := if ltb b a then b else a.
Definition py_max (a b : xfloat) : xfloat := if ltb a b then b else a.

Definition list_min (l : list xfloat) : res xfloat :=
  match l with
  | [] => Raise ValueError
  | x :: t => Ret (fold_left py_min t x)
  end.

Definition list_max (l : list xfloat) : res xfloat :=
  match l with
  | [] => Raise ValueError
  | x :: t => Ret (fold_left py_max t x)
  end.

Record stochastic : Type := {
  pct_k : xfloat;
  pct_d : xfloat
}.

Definition calculate_stochastic (high low close : list xfloat) (period : Z)
  : res stochastic :=
  if (len close <? period)%Z
  then Ret {| pct_k := Fin 50; pct_d := Fin 50 |}
  else
    lowest_low ← list_min (slice_from low (- period));
    highest_high ← list_max (slice_from high (- period));
    kv ← (if eqb highest_high lowest_low then Ret (Fin 50)
          else
            c ← index close (-1);
            q ← py_div (sub c lowest_low) (sub highest_high lowest_low);
            Ret (mul q (Fin 100)));
    Ret {| pct_k := round kv 2; pct_d := round kv 2 |}.

End Indicators.

Section Predictor.
Context {FS : FloatSqrt} {R : Rounding} {N : Numpy}.

(** [math.sqrt(x)] *)
Definition math_sqrt (x : xfloat) : res xfloat :=
  match x with
  | Fin q => if Qle_bool 0 q then Ret (rnd (fsqrt q)) else Raise ValueError
  | PInf => Ret PInf
  | NInf => Raise ValueError
  | NaN => Ret NaN
  end.

Definition random_random : M xfloat :=
  fun g => Ret (Fin (uniforms g (upos g)),
                {| uniforms := uniforms g; normals := normals g;
                   upos := S (upos g); npos := npos g |}).

(** [random.uniform(a, b)]: [a + (b - a) * random()] *)
Definition random_uniform (a b : xfloat) : M xfloat :=
  u ← random_random; mret (add a (mul (sub b a) u)).

(** [random.gauss(mu, sigma)]: [mu + z * sigma] for a standard normal
    variate [z]. *)
Definition random_gauss (mu sigma : xfloat) : M xfloat :=
  fun g => Ret (add mu (mul (Fin (normals g (npos g))) sigma),
                {| uniforms := uniforms g; normals := normals g;
                   upos := upos g; npos := S (npos g) |}).

Record LSTMPredictor : Type := {
  symbol : string;
  model_confidence : xfloat;
  last_trained : string
}.

Record forecast_point : Type := {
  period : Z;
  predicted_price : xfloat;
  lower_bound : xfloat;
  upper_bound : xfloat
}.

Record forecast : Type := {
  fc_symbol : string;
  fc_current_price : xfloat;
  predictions : list forecast_point;
  fc_direction : direction;
  predicted_change_percent : xfloat;
  confidence : xfloat;
  model_accuracy : xfloat;
  fc_last_trained : string;
  fc_periods_ahead : Z
}.

Inductive prediction : Type :=
  | PredictionError (msg : string)
  | Prediction (f : forecast).

(** [(prices[-1] - prices[-n]) / prices[-n] if len(prices) >= n else 0] *)
Definition trend (prices : list xfloat) (n : Z) : res xfloat :=
  if (n <=? len prices)%Z then
    a ← index prices (-1);
    b ← index prices (- n);
    c ← index prices (- n);
    py_div (sub a b) c
  else Ret (Fin 0).

(** One round of the forecast loop. *)
Definition forecast_step (current_price short_trend medium_trend
                          volatility : xfloat) (periods_ahead i : Z)
  : M forecast_point :=
  n ← lift (of_int periods_ahead);
  trend_factor ← lift (py_div (add (mul short_trend (lit 0.6))
                                   (mul medium_trend (lit 0.4))) n);
  noise ← random_gauss (Fin 0) (mul volatility (lit 0.3));
  let predicted_change := add trend_factor noise in
  fi ← lift (of_int i);
  let predicted :=
    mul current_price
        (add (Fin 1) (mul (mul predicted_change fi) (lit 0.1))) in
  si ← lift (of_int i);
  s ← lift (math_sqrt si);
  let ci_width := mul (mul volatility s) current_price in
  mret {| period := i;
          predicted_price := round predicted 2;
          lower_bound := round (sub predicted ci_width) 2;
          upper_bound := round (add predicted ci_width) 2 |}.

Definition predict_price (self : LSTMPredictor)
    (historical_prices : list xfloat) (periods_ahead : Z) : M prediction :=
  if (len historical_prices <? 10)%Z
  then mret (PredictionError "Insufficient data for prediction")
  else
    current_price ← lift (index historical_prices (-1));
    short_trend ← lift (trend historical_prices 5);
    medium_trend ← lift (trend historical_prices 10);
    (* with 20 points or more the volatility is a numpy scalar, and so is
       everything computed from it *)
    let numpy := (20 <=? len historical_prices)%Z in
    let volatility :=
      if numpy
      then np_div (np_std (slice_from historical_prices (-20)))
                  (np_mean (slice_from historical_prices (-20)))
      else lit 0.02 in
    preds ← mapM (forecast_step current_price short_trend medium_trend
                                volatility periods_ahead)
                 (range 1 (periods_ahead + 1));
    final ← lift (index preds (-1));
    let final_prediction := predicted_price final in
    let dir := if ltb current_price final_prediction
               then bullish else bearish in
    ratio ← lift (if numpy
                  then Ret (np_div (sub final_prediction current_price)
                                   current_price)
                  else py_div (sub final_prediction current_price)
                              current_price);
    let price_change_pct := mul ratio (Fin 100) in
    accuracy ← random_uniform (Fin 72) (Fin 89);
    mret (Prediction
            {| fc_symbol := symbol self;
               fc_current_price := current_price;
               predictions := preds;
               fc_direction := dir;
               predicted_change_percent := round price_change_pct 2;
               confidence := round (mul (model_confidence self) (Fin 100)) 1;
               model_accuracy := round accuracy 1;
               fc_last_trained := last_trained self;
               fc_periods_ahead := periods_ahead |}).

End Predictor.

Section Risk.
Context {R : Rounding} {N : Numpy}.

(** *** calculate_var *)

Definition abs (x : xfloat) : xfloat :=
  match x with
  | Fin q => Fin (Qabs q)
  | PInf | NInf => PInf
  | NaN => NaN
  end.

(** [int(x)]: truncation towards zero; an infinity raises OverflowError
    and nan ValueError. *)
Definition py_int (x : xfloat) : res Z :=
  match x with
  | Fin q => Ret (if Qle_bool 0 q then Qfloor q else Qceiling q)
  | NaN => Raise ValueError
  | _ => Raise OverflowError
  end.

(** [sorted(l)]: a stable insertion sort, ascending.  On a list without
    nan every stable sort gives this order. *)
Fixpoint insert_sorted (x : xfloat) (l : list xfloat) : list xfloat :=
  match l with
  | [] => [x]
  | y :: t => if ltb x y then x :: l else y :: insert_sorted x t
  end.

Definition sorted (l : list xfloat) : list xfloat :=
  fold_left (fun acc x => insert_sorted x acc) l [].

Definition calculate_var (returns : list xfloat) (confidence : xfloat)
  : res xfloat :=
  if (len returns <? 10)%Z then Ret (lit 0.05)
  else
    let sorted_returns := sorted returns in
    n ← of_int (len sorted_returns);
    i ← py_int (mul (sub (Fin 1) confidence) n);
    r ← index sorted_returns i;
    Ret (round (mul (abs r) (Fin 100)) 2).

End Risk.

(** ** A model to run the embedding on

    The range of binary64 without its rounding: a result within the range
    is kept exact, one beyond it is an infinity.  numpy's sums are taken
    from left to right. *)

Definition float_max : Q := inject_Z (2 ^ 1024 - 2 ^ 971).

Definition rnd_range (q : Q) : xfloat :=
  if Qle_bool q float_max
  then if Qle_bool (- float_max) q then Fin q else NInf
  else PInf.

Section Sequential.
Context {FS : FloatSqrt} {R : Rounding}.

Definition seq_sum (l : list xfloat) : xfloat := fold_left add l (Fin 0).

Definition seq_mean (l : list xfloat) : xfloat :=
  match l with
  | [] => NaN
  | _ => np_div (seq_sum l) (Fin (inject_Z (len l)))
  end.

Definition sqrt_x (x : xfloat) : xfloat :=
  match x with
  | Fin q => if Qle_bool 0 q then rnd (fsqrt q) else NaN
  | PInf => PInf
  | _ => NaN
  end.

(** [sqrt(mean(abs(x - mean(x)) ** 2))] *)
Definition seq_std (l : list xfloat) : xfloat :=
  match l with
  | [] => NaN
  | _ => sqrt_x (seq_mean (map (fun x => mul (sub x (seq_mean l))
                                             (sub x (seq_mean l))) l))
  end.

Definition round_dec (x : xfloat) (ndigits : nat) : xfloat :=
  match x with
  | Fin q => rnd (py_round q ndigits)
  | _ => x
  end.

End Sequential.

End IEEE.

(** ** Calls and the generator

    What a call returns when it starts from the generator state [g]. *)

Definition output {A : Type} (c : M A) (g : rng) : res A :=
  match c g with
  | Ret (a, _) => Ret a
  | Raise e => Raise e
  | NotFinite => NotFinite
  end.

(** A generator to run the model with: every uniform draw is 1/2 and the
    n-th normal variate is n/10. *)
Definition fixed_rng : rng :=
  {| uniforms := fun _ => 1 # 2;
     normals := fun n => Z.of_nat n # 10;
     upos := 0; npos := 0 |}.

(** ** Inputs to run the model on *)

Definition sample_predictor : LSTMPredictor :=
  {| symbol := "BTC"; model_confidence := 0.7;
     last_trained := "2024-01-01T00:00:00" |}.

(** The ten prices of the specification's scenario. *)
Definition ten_prices : list float :=
  [100; 102; 101; 105; 107; 106; 110; 108; 112; 115].

(** The same with a zero where [prices[-5]] is read. *)
Definition ten_prices_with_zero : list float :=
  [100; 102; 101; 105; 107; 0; 110; 108; 112; 115].

Definition sample_asset : asset :=
  {| asset_symbol := Some "BTC"; asset_volatility := Some 0.2;
     asset_expected_return := Some 0.1 |}.

(** An asset whose volatility cancels the 0.01 added to it. *)
Definition degenerate_asset : asset :=
  {| asset_symbol := Some "BTC"; asset_volatility := Some (-0.01);
     asset_expected_return := Some 0.1 |}.

(** The first item of a list is at most every item. *)
Definition least_first (l : list IEEE.xfloat) : Prop :=
  match l with
  | [] => True
  | y :: _ => Forall (fun z => IEEE.leb y z = true) l
  end.

(** Two bars of highs, lows and closes, and ten returns. *)
Definition two_highs : list IEEE.xfloat := map IEEE.Fin [12; 13].
Definition two_lows : list IEEE.xfloat := map IEEE.Fin [9; 10].
Definition two_closes : list IEEE.xfloat := map IEEE.Fin [11; 12].

Definition ten_returns : list IEEE.xfloat :=
  map IEEE.Fin [3; -2; 1; 0; -1; 2; -3; 4; -4; 5].

(** ** Conditions on assets *)

(** The divisor [volatility + 0.01] of the score is not zero. *)
Definition score_defined (a : asset) : Prop :=
  forall v, asset_volatility a = Some v -> ~ v == -0.01.

(** A number with at most [n] decimals. *)
Definition is_decimal (n : nat) (q : Q) : Prop :=
  exists z : Z, q == inject_Z z / inject_Z (10 ^ Z.of_nat n).

(** ** The moving average as the specification words it

    Used to compare [calculate_sma] with its description. *)

Definition mean (l : list float) : float := Qsum l / inject_Z (len l).

(** All points from the start up to index [i]. *)
Definition prefix_upto (prices : list float) (i : nat) : list float :=
  firstn (S i) prices.

(** The [period] points that end at index [i]. *)
Definition trailing (prices : list float) (period : Z) (i : nat)
  : list float :=
  firstn (Z.to_nat period) (skipn (S i - Z.to_nat period) prices).

(** Element [i] of the average: the mean from the start while fewer than
    [period] points precede [i], the mean of the trailing window after. *)
Definition sma_claimed (prices : list float) (period : Z) (i : nat)
  : float :=
  if (Z.of_nat i <? period)%Z then mean (prefix_upto prices i)
  else mean (trailing prices period i).

(** What holds of one generated bar. *)
Definition bar_ok (b : bar) : Prop :=
  0 < bar_low b /\ bar_low b <= bar_open b /\ bar_low b <= bar_close b /\
  bar_open b <= bar_high b /\ bar_close b <= bar_high b /\
  1000000 <= bar_volume b <= 50000000.

(** Each bar opens where the one before it closed. *)
Fixpoint chained (current : float) (bars : list bar) : Prop :=
  match bars with
  | [] => True
  | b :: rest => bar_open b = current /\ chained (bar_close b) rest
  end.

(** Twenty closing prices, and the price dict that holds only them. *)
Definition twenty_prices : list float :=
  [100; 102; 101; 105; 107; 106; 110; 108; 112; 115;
   113; 116; 118; 117; 120; 119; 123; 121; 125; 124].

Definition sample_price_data : price_data :=
  {| pd_close := Some twenty_prices; pd_high := None; pd_low := None |}.



Definition four_float_prices : list IEEE.xfloat :=
  map IEEE.Fin [1; 2; 3; 4].

Definition huge : IEEE.xfloat := IEEE.Fin (inject_Z (10 ^ 308)).

Definition alternating_prices : list IEEE.xfloat :=
  [IEEE.Fin 1; huge; IEEE.Fin 1; huge; IEEE.Fin 1; huge; IEEE.Fin 1; huge;
   IEEE.Fin 1; huge; IEEE.Fin 1; huge; IEEE.Fin 1; huge; IEEE.Fin 1].


(** * Properties *)

(** ** Concrete runs *)

Example round_half_to_even : py_round 0.125 2 = 0.12 /\ py_round 0.135 2 = 0.14.
Proof. split; reflexivity. Qed.

Example sma_of_four : calculate_sma [1; 3; 5; 7] 2 = Ret [1; 4 # 2; 8 # 2; 12 # 2].
Proof. reflexivity. Qed.

Example rsi_of_rising_prices :
  calculate_rsi [1; 2; 3; 2; 5; 6; 7; 6; 9; 10; 11; 12; 13; 12; 15; 14] 14
  = Ret 80.00.
Proof. vm_compute. reflexivity. Qed.

(** The drawdown scenario of the specification. *)
Example max_drawdown_scenario :
  calculate_max_drawdown [10000; 11000; 9000; 9500] = Ret 18.18.
Proof. vm_compute. reflexivity. Qed.

Example max_drawdown_zero_peak :
  calculate_max_drawdown [0; 0] = Raise ZeroDivisionError.
Proof. reflexivity. Qed.

Example trade_risk_of_default_request :
  assess_trade_risk 43000 0.1 10000 0.03
  = Ret {| risk_score := 9.2; risk_level := high;
           position_percentage := 43.00;
           max_loss_1std := 129.00; max_loss_2std := 258.00;
           recommended_stop_loss := 41065.00;
           recommended_take_profit := 45580.00;
           recommendation := "Proceed with caution" |}.
Proof. vm_compute. reflexivity. Qed.

Example nine_points_are_too_few :
  output (predict_price (FS := sqrt6) sample_predictor
                        [100; 102; 101; 105; 107; 106; 110; 108; 112] 24)
         fixed_rng
  = Ret (PredictionError "Insufficient data for prediction").
Proof. reflexivity. Qed.

(** ** Comparisons and rounding *)

Lemma gtb_true (x y : float) : gtb x y = true <-> y < x.
Proof.
  unfold gtb. rewrite negb_true_iff, <- not_true_iff_false, Qle_bool_iff.
  split; [apply Qnot_le_lt | apply Qlt_not_le].
Qed.

Lemma gtb_false (x y : float) : gtb x y = false <-> x <= y.
Proof. unfold gtb. rewrite negb_false_iff. apply Qle_bool_iff. Qed.

Lemma ltb_true (x y : float) : ltb x y = true <-> x < y.
Proof. apply (gtb_true y x). Qed.

Lemma ltb_false (x y : float) : ltb x y = false <-> y <= x.
Proof. apply (gtb_false y x). Qed.

Lemma Qeq_bool_false (x y : float) : Qeq_bool x y = false <-> ~ x == y.
Proof.
  rewrite <- not_true_iff_false, Qeq_bool_iff. reflexivity.
Qed.

Lemma np_div_nonzero (x y : float) : ~ y == 0 -> np_div x y = Ret (x / y).
Proof. intros H. unfold np_div. apply Qeq_bool_false in H. now rewrite H. Qed.

Lemma py_div_nonzero (x y : float) : ~ y == 0 -> py_div x y = Ret (x / y).
Proof. intros H. unfold py_div. apply Qeq_bool_false in H. now rewrite H. Qed.

Lemma py_div_zero (x y : float) :
  y == 0 -> py_div x y = Raise ZeroDivisionError.
Proof. intros H. unfold py_div. apply Qeq_bool_iff in H. now rewrite H. Qed.

Lemma py_max_ge_l (a b : float) : a <= py_max a b.
Proof.
  unfold py_max. destruct (gtb b a) eqn:E; [apply gtb_true in E | ]; lra.
Qed.

Lemma py_max_le (a b c : float) : a <= c -> b <= c -> py_max a b <= c.
Proof. unfold py_max. destruct (gtb b a); trivial. Qed.

Lemma py_min_le_l (a b : float) : py_min a b <= a.
Proof.
  unfold py_min. destruct (ltb b a) eqn:E; [apply ltb_true in E | ]; lra.
Qed.

Lemma round_half_even_cases (x : Q) :
  round_half_even x = Qfloor x \/ round_half_even x = (Qfloor x + 1)%Z.
Proof.
  unfold round_half_even.
  destruct (Qcompare _ _); [destruct (Z.even _) | | ]; auto.
Qed.

Lemma round_half_even_mono (x y : Q) :
  x <= y -> (round_half_even x <= round_half_even y)%Z.
Proof.
  intros Hxy. pose proof (Qfloor_resp_le _ _ Hxy) as Hf.
  destruct (Z.eq_dec (Qfloor x) (Qfloor y)) as [Heq | Hne].
  - unfold round_half_even. rewrite <- Heq.
    destruct (Qcompare_spec (x - inject_Z (Qfloor x)) (1 # 2));
      destruct (Qcompare_spec (y - inject_Z (Qfloor x)) (1 # 2));
      try (destruct (Z.even (Qfloor x))); try lia; exfalso; lra.
  - destruct (round_half_even_cases x) as [-> | ->],
             (round_half_even_cases y) as [-> | ->]; lia.
Qed.

Lemma ten_pow_pos (n : nat) : (0 < 10 ^ Z.of_nat n)%Z.
Proof. apply Z.pow_pos_nonneg; lia. Qed.

Lemma inject_ten_pow_pos (n : nat) : 0 < inject_Z (10 ^ Z.of_nat n).
Proof.
  replace 0 with (inject_Z 0) by reflexivity.
  rewrite <- Zlt_Qlt. apply ten_pow_pos.
Qed.

Lemma py_round_mono (x y : float) (n : nat) :
  x <= y -> py_round x n <= py_round y n.
Proof.
  intros Hxy. unfold py_round, Qle; simpl.
  apply Z.mul_le_mono_nonneg_r; [lia | ].
  apply round_half_even_mono.
  apply Qmult_le_compat_r; [exact Hxy | ].
  apply Qlt_le_weak, inject_ten_pow_pos.
Qed.

(** The value of [py_round x n] as a quotient. *)
Lemma py_round_value (x : float) (n : nat) :
  py_round x n ==
  inject_Z (round_half_even (x * inject_Z (10 ^ Z.of_nat n)))
  / inject_Z (10 ^ Z.of_nat n).
Proof.
  unfold py_round. rewrite Qmake_Qdiv.
  rewrite Z2Pos.id by apply ten_pow_pos. reflexivity.
Qed.



(** ** Sums and means *)

Lemma Qsum_nonneg (l : list Q) : Forall (fun x => 0 <= x) l -> 0 <= Qsum l.
Proof.
  induction 1 as [ | x l Hx _ IH]; simpl; lra.
Qed.

Lemma Qsum_zero (l : list Q) : Forall (fun x => x == 0) l -> Qsum l == 0.
Proof.
  induction 1 as [ | x l Hx _ IH]; simpl; lra.
Qed.

Lemma Qsum_pos (l : list Q) :
  l <> [] -> Forall (fun x => 0 < x) l -> 0 < Qsum l.
Proof.
  intros Hne H. destruct H as [ | x l Hx Hl]; [congruence | ]. simpl.
  assert (0 <= Qsum l)
    by (apply Qsum_nonneg; eapply Forall_impl; [exact Hl | ];
        intros; now apply Qlt_le_weak).
  lra.
Qed.

Lemma len_pos {A : Type} (x : A) (l : list A) : 0 < inject_Z (len (x :: l)).
Proof.
  unfold len. change 0 with (inject_Z 0). rewrite <- Zlt_Qlt. simpl. lia.
Qed.

Lemma np_mean_cons (x : float) (l : list float) :
  np_mean (x :: l) = Ret (Qsum (x :: l) / inject_Z (len (x :: l))).
Proof. reflexivity. Qed.

Lemma np_mean_nonneg (l : list float) :
  l <> [] -> Forall (fun x => 0 <= x) l ->
  exists m, np_mean l = Ret m /\ 0 <= m.
Proof.
  destruct l as [ | x l]; [congruence | ]. intros _ H.
  eexists; split; [apply np_mean_cons | ].
  apply Qle_shift_div_l; [apply len_pos | ].
  apply Qsum_nonneg in H. lra.
Qed.

Lemma np_mean_pos (l : list float) :
  l <> [] -> Forall (fun x => 0 < x) l ->
  exists m, np_mean l = Ret m /\ 0 < m.
Proof.
  intros Hne H. pose proof (Qsum_pos l Hne H) as Hs.
  destruct l as [ | x l]; [congruence | ].
  eexists; split; [apply np_mean_cons | ].
  apply Qlt_shift_div_l; [apply len_pos | ]. lra.
Qed.

Lemma mean_or_zero_nonneg (l : list float) :
  Forall (fun x => 0 <= x) l -> exists m, mean_or_zero l = Ret m /\ 0 <= m.
Proof.
  destruct l as [ | x l]; intros H.
  - exists 0. split; [reflexivity | lra].
  - apply (np_mean_nonneg (x :: l)); [discriminate | exact H].
Qed.

Lemma mean_or_zero_zero (l : list float) :
  Forall (fun x => x == 0) l -> exists m, mean_or_zero l = Ret m /\ m == 0.
Proof.
  destruct l as [ | x l]; intros H.
  - exists 0. split; reflexivity.
  - eexists; split; [apply np_mean_cons | ].
    rewrite (Qsum_zero _ H). unfold Qdiv. lra.
Qed.

(** ** RSI *)

Lemma gain_nonneg (x : float) : 0 <= gain x.
Proof.
  unfold gain. destruct (gtb x 0) eqn:E; [apply gtb_true in E | ]; lra.
Qed.

Lemma loss_nonneg (x : float) : 0 <= loss x.
Proof.
  unfold loss. destruct (ltb x 0) eqn:E; [apply ltb_true in E | ]; lra.
Qed.

Lemma Forall_slice_from {A : Type} (P : A -> Prop) (l : list A) (i : Z) :
  Forall P l -> Forall P (slice_from l i).
Proof. apply Forall_drop. Qed.

Lemma Forall_map_all {A B : Type} (P : B -> Prop) (f : A -> B) (l : list A) :
  (forall x, P (f x)) -> Forall P (map f l).
Proof. intros H. induction l; constructor; auto. Qed.

Lemma py_round_range (x lo hi : float) (n : nat) :
  py_round lo n == lo -> py_round hi n == hi ->
  lo <= x <= hi -> lo <= py_round x n <= hi.
Proof.
  intros Hlo Hhi [H1 H2].
  apply (py_round_mono _ _ n) in H1. apply (py_round_mono _ _ n) in H2.
  lra.
Qed.

Lemma calculate_rsi_range (prices : list float) (period : Z) :
  exists r, calculate_rsi prices period = Ret r /\ 0 <= r <= 100.
Proof.
  unfold calculate_rsi.
  destruct (len prices <? period + 1)%Z.
  { exists 50. split; [reflexivity | lra]. }
  set (ds := slice_from (deltas prices) (- period)).
  destruct (mean_or_zero_nonneg (map gain ds)) as (ag & -> & Hag);
    [apply Forall_map_all, gain_nonneg | ].
  destruct (mean_or_zero_nonneg (map loss ds)) as (al & -> & Hal);
    [apply Forall_map_all, loss_nonneg | ].
  cbn [mbind res_bind].
  destruct (Qeq_bool al 0) eqn:Eal.
  { exists 100. split; [reflexivity | lra]. }
  assert (Hpos : 0 < al) by (apply Qeq_bool_false in Eal; lra).
  rewrite np_div_nonzero by lra. cbn [mbind res_bind].
  assert (Hrs : 0 <= ag / al) by (apply Qle_shift_div_l; lra).
  rewrite np_div_nonzero by lra. cbn [mbind res_bind].
  eexists; split; [reflexivity | ].
  apply py_round_range; [reflexivity | reflexivity | ].
  assert (0 <= 100 / (1 + ag / al)) by (apply Qle_shift_div_l; lra).
  assert (100 / (1 + ag / al) <= 100) by (apply Qle_shift_div_r; lra).
  lra.
Qed.

(** ** SMA *)

Lemma np_mean_mean (l : list float) : l <> [] -> np_mean l = Ret (mean l).
Proof. destruct l; [congruence | reflexivity]. Qed.

Lemma rmap_ret {A B : Type} (f : A -> res B) (g : A -> B) (l : list A) :
  (forall x, In x l -> f x = Ret (g x)) -> rmap f l = Ret (map g l).
Proof.
  induction l as [ | x l IH]; intros H; [reflexivity | ].
  simpl. rewrite (H x) by now left. cbn [mbind res_bind].
  rewrite IH by (intros; apply H; now right). reflexivity.
Qed.

Lemma in_range (a b i : Z) : In i (range a b) <-> (a <= i < b)%Z.
Proof.
  unfold range. rewrite in_map_iff. split.
  - intros (n & <- & Hn). apply in_seq in Hn. lia.
  - intros H. exists (Z.to_nat (i - a)). split; [lia | ].
    apply in_seq. lia.
Qed.


Lemma range_length (a b : Z) : length (range a b) = Z.to_nat (b - a).
Proof. unfold range. now rewrite length_map, length_seq. Qed.

Lemma firstn_nonempty {A : Type} (n : nat) (l : list A) :
  (0 < n)%nat -> l <> [] -> firstn n l <> [].
Proof. destruct n, l; simpl; congruence || lia. Qed.

Lemma skipn_nonempty {A : Type} (n : nat) (l : list A) :
  (n < length l)%nat -> skipn n l <> [].
Proof.
  intros H E. apply (f_equal (@length A)) in E.
  rewrite length_skipn in E. simpl in E. lia.
Qed.

(** What [calculate_sma] computes at index [i] of a list that is at least
    [period] long. *)
Lemma sma_window (prices : list float) (period i : Z) :
  (1 <= period <= len prices)%Z -> (0 <= i < len prices)%Z ->
  (if (i <? period - 1)%Z
   then np_mean (slice_to prices (i + 1))
   else np_mean (slice prices (i - period + 1) (i + 1)))
  = Ret (sma_claimed prices period (Z.to_nat i)).
Proof.
  intros Hp Hi. unfold sma_claimed, len in *.
  assert (Hne : prices <> []) by (destruct prices; simpl in *; [lia | congruence]).
  destruct (i <? period - 1)%Z eqn:E1.
  - apply Z.ltb_lt in E1.
    replace (Z.of_nat (Z.to_nat i) <? period)%Z with true
      by (symmetry; apply Z.ltb_lt; lia).
    unfold slice_to, clamp_index, prefix_upto, len.
    replace (i + 1 <? 0)%Z with false by (symmetry; apply Z.ltb_ge; lia).
    replace (Z.to_nat (Z.min (i + 1) (Z.of_nat (length prices))))
      with (S (Z.to_nat i)) by lia.
    apply np_mean_mean, firstn_nonempty; [lia | exact Hne].
  - apply Z.ltb_ge in E1.
    unfold slice, clamp_index, len.
    replace (i - period + 1 <? 0)%Z with false
      by (symmetry; apply Z.ltb_ge; lia).
    replace (i + 1 <? 0)%Z with false by (symmetry; apply Z.ltb_ge; lia).
    replace (Z.to_nat (Z.min (i + 1) (Z.of_nat (length prices))
                       - Z.min (i - period + 1) (Z.of_nat (length prices))))
      with (Z.to_nat period) by lia.
    replace (Z.to_nat (Z.min (i - period + 1) (Z.of_nat (length prices))))
      with (S (Z.to_nat i) - Z.to_nat period)%nat by lia.
    rewrite np_mean_mean
      by (apply firstn_nonempty; [lia | apply skipn_nonempty; lia]).
    destruct (Z.of_nat (Z.to_nat i) <? period)%Z eqn:E2; [ | reflexivity].
    apply Z.ltb_lt in E2. unfold prefix_upto.
    replace (S (Z.to_nat i) - Z.to_nat period)%nat with 0%nat by lia.
    replace (Z.to_nat period) with (S (Z.to_nat i)) by lia.
    reflexivity.
Qed.




(** ** Risk functions on degenerate input *)

Lemma risk_functions_on_empty_input {FS : FloatSqrt} (conf rate : float)
    (historical_data : gmap string (list float)) (g : rng) :
  calculate_var [] conf = Ret 0.05 /\
  calculate_sharpe_ratio [] rate = Ret 0 /\
  calculate_max_drawdown [] = Ret 0 /\
  exists r, portfolio_risk_metrics [] historical_data g = Ret (r, g).
Proof.
  repeat split; try reflexivity. eexists; reflexivity.
Qed.

(** C3 is broken by the code: with a portfolio value of 0 the division
    [position_value / portfolio_value] raises ZeroDivisionError, whatever
    the other arguments are. *)
Theorem assess_trade_risk_zero_portfolio
    (entry_price position_size volatility : float) :
  assess_trade_risk entry_price position_size 0 volatility
  = Raise ZeroDivisionError.
Proof. reflexivity. Qed.

(** The same division is all that can go wrong: any other portfolio value
    gives a result record. *)
Lemma assess_trade_risk_returns
    (entry_price position_size portfolio_value volatility : float) :
  ~ portfolio_value == 0 ->
  has_result (assess_trade_risk entry_price position_size portfolio_value
                                volatility).
Proof.
  intros H. unfold assess_trade_risk. rewrite py_div_nonzero by exact H.
  eexists; reflexivity.
Qed.

(** ** Rebalancing *)

Lemma suggest_same (m : gmap string float) (sym : string) :
  suggest m m sym = None.
Proof.
  unfold suggest.
  replace (gtb (Qabs (default 0 (m !! sym) - default 0 (m !! sym))) 0.01)
    with false; [reflexivity | ].
  symmetry. apply gtb_false.
  setoid_replace (default 0 (m !! sym) - default 0 (m !! sym)) with 0
    using relation Qeq by ring.
  discriminate.
Qed.

Lemma omap_none {A B : Type} (f : A -> option B) (l : list A) :
  (forall x, f x = None) -> omap f l = [].
Proof.
  intros H. induction l as [ | x l IH]; [reflexivity | ].
  simpl. now rewrite H.
Qed.

(** C7: rebalancing an allocation towards itself suggests nothing. *)
Theorem suggest_rebalancing_same (A : list holding) :
  suggest_rebalancing A A = [].
Proof.
  unfold suggest_rebalancing. apply omap_none. intros sym.
  apply suggest_same.
Qed.

(** ** Windows and deviations *)

Lemma slice_from_last_nonempty {A : Type} (l : list A) (n : Z) :
  (1 <= n)%Z -> l <> [] -> slice_from l (- n) <> [].
Proof.
  intros Hn Hl. unfold slice_from, clamp_index.
  replace (- n <? 0)%Z with true by (symmetry; apply Z.ltb_lt; lia).
  apply skipn_nonempty. unfold len.
  destruct l; [congruence | simpl; lia].
Qed.

Lemma np_std_nonneg {FS : FloatSqrt} (l : list float) :
  l <> [] -> exists s, np_std l = Ret s /\ 0 <= s.
Proof.
  intros Hl. unfold np_std. rewrite np_mean_mean by exact Hl.
  cbn [mbind res_bind].
  rewrite np_mean_mean by (destruct l; [congruence | discriminate]).
  cbn [mbind res_bind]. eexists; split; [reflexivity | apply fsqrt_nonneg].
Qed.

(** ** Running computations that thread the generator *)

Lemma bind_ret_M {A B : Type} (c : M A) (f : A -> M B) (g g1 : rng) (a : A) :
  c g = Ret (a, g1) -> (c ≫= f) g = f a g1.
Proof. intros H. unfold mbind, M_bind. now rewrite H. Qed.

Lemma bind_inv_M {A B : Type} (c : M A) (f : A -> M B) (g g' : rng) (b : B) :
  (c ≫= f) g = Ret (b, g') ->
  exists a g1, c g = Ret (a, g1) /\ f a g1 = Ret (b, g').
Proof.
  unfold mbind, M_bind. destruct (c g) as [[a g1] | e | ]; try discriminate.
  intros H. now exists a, g1.
Qed.

Lemma lift_ret {A : Type} (c : res A) (a : A) (g : rng) :
  c = Ret a -> lift c g = Ret (a, g).
Proof. now intros ->. Qed.

Lemma bind_lift_M {A B : Type} (c : res A) (f : A -> M B) (g : rng) (a : A) :
  c = Ret a -> (lift c ≫= f) g = f a g.
Proof. intros H. apply bind_ret_M, lift_ret, H. Qed.


Lemma index_Forall {A : Type} (P : A -> Prop) (l : list A) (i : Z) :
  Forall P l -> (- len l <= i < len l)%Z ->
  exists x, index l i = Ret x /\ P x.
Proof.
  intros HP Hi. unfold index, len in *.
  set (j := if (i <? 0)%Z then (Z.of_nat (length l) + i)%Z else i).
  assert (Hj : (0 <= j < Z.of_nat (length l))%Z)
    by (subst j; destruct (i <? 0)%Z eqn:E;
        [apply Z.ltb_lt in E | apply Z.ltb_ge in E]; lia).
  replace ((0 <=? j)%Z && (j <? Z.of_nat (length l))%Z) with true
    by (symmetry; apply andb_true_iff; split;
        [apply Z.leb_le | apply Z.ltb_lt]; lia).
  destruct (nth_error l (Z.to_nat j)) as [x | ] eqn:E.
  - exists x. split; [reflexivity | ].
    apply nth_error_In in E. rewrite Forall_forall in HP.
    apply HP. now apply list_elem_of_In.
  - apply nth_error_None in E. lia.
Qed.

(** ** The forecaster *)

Lemma trend_returns (prices : list float) (n : Z) :
  Forall (fun p => 0 < p) prices -> (1 <= n)%Z -> has_result (trend prices n).
Proof.
  intros Hpos Hn. unfold trend.
  destruct (n <=? len prices)%Z eqn:E; [ | now exists 0].
  apply Z.leb_le in E.
  destruct (index_Forall _ prices (-1) Hpos) as (a & -> & _); [lia | ].
  destruct (index_Forall _ prices (- n) Hpos) as (b & -> & Hb); [lia | ].
  cbn [mbind res_bind]. rewrite py_div_nonzero by lra. now eexists.
Qed.

Lemma volatility_nonneg {FS : FloatSqrt} (prices : list float) :
  Forall (fun p => 0 < p) prices -> prices <> [] ->
  exists v,
    (if (20 <=? len prices)%Z
     then s ← np_std (slice_from prices (-20));
          m ← np_mean (slice_from prices (-20));
          np_div s m
     else Ret 0.02) = Ret v /\ 0 <= v.
Proof.
  intros Hpos Hne. destruct (20 <=? len prices)%Z.
  - assert (Hs : slice_from prices (-20) <> [])
      by (apply (slice_from_last_nonempty prices 20); [lia | exact Hne]).
    destruct (np_std_nonneg _ Hs) as (s & -> & Hs0).
    destruct (np_mean_pos _ Hs) as (m & -> & Hm);
      [now apply Forall_slice_from | ].
    cbn [mbind res_bind]. rewrite np_div_nonzero by lra.
    eexists; split; [reflexivity | ]. apply Qle_shift_div_l; lra.
  - exists 0.02. split; [reflexivity | lra].
Qed.

Lemma inject_Z_pos (z : Z) : (1 <= z)%Z -> 0 < inject_Z z.
Proof. intros H. change 0 with (inject_Z 0). rewrite <- Zlt_Qlt. lia. Qed.

(** A call on ten points or more never answers the error dict: it ends in
    the forecast or in an exception. *)
Lemma predict_price_long_no_error {FS : FloatSqrt} (self : LSTMPredictor)
    (prices : list float) (periods_ahead : Z) (g g' : rng) (msg : string) :
  (10 <= len prices)%Z ->
  predict_price self prices periods_ahead g <> Ret (PredictionError msg, g').
Proof.
  intros Hlen H. unfold predict_price in H.
  replace (len prices <? 10)%Z with false in H
    by (symmetry; apply Z.ltb_ge; lia).
  repeat (apply bind_inv_M in H; destruct H as (? & ? & _ & H); cbv zeta in H).
  discriminate H.
Qed.

Lemma predict_price_short {FS : FloatSqrt} (self : LSTMPredictor)
    (prices : list float) (periods_ahead : Z) (g : rng) :
  (len prices < 10)%Z ->
  predict_price self prices periods_ahead g
  = Ret (PredictionError "Insufficient data for prediction", g).
Proof.
  intros Hlen. unfold predict_price.
  replace (len prices <? 10)%Z with true by (symmetry; apply Z.ltb_lt; lia).
  reflexivity.
Qed.

(** ** The optimizer *)

Lemma fold_left_Qplus (l : list Q) (a : Q) :
  fold_left Qplus l a == a + Qsum l.
Proof.
  revert a. induction l as [ | x l IH]; intros a; simpl; [ring | ].
  rewrite IH. ring.
Qed.

Lemma py_sum_Qsum (l : list Q) : py_sum l == Qsum l.
Proof. unfold py_sum. rewrite fold_left_Qplus. ring. Qed.

Lemma is_decimal_round (x : float) (n : nat) : is_decimal n (py_round x n).
Proof. eexists. apply py_round_value. Qed.

Lemma is_decimal_mult (n m : nat) (a b : Q) :
  is_decimal n a -> is_decimal m b -> is_decimal (n + m) (a * b).
Proof.
  intros [x Hx] [y Hy]. exists (x * y)%Z.
  rewrite Hx, Hy, Nat2Z.inj_add, Z.pow_add_r by lia.
  rewrite !inject_Z_mult.
  pose proof (inject_ten_pow_pos n). pose proof (inject_ten_pow_pos m).
  field. split; lra.
Qed.

Lemma is_decimal_Qsum (n : nat) (l : list Q) :
  Forall (is_decimal n) l -> is_decimal n (Qsum l).
Proof.
  induction 1 as [ | a l [x Hx] _ [y Hy]]; simpl.
  - exists 0%Z. unfold Qdiv. ring.
  - exists (x + y)%Z. rewrite Hx, Hy, inject_Z_plus.
    pose proof (inject_ten_pow_pos n). field. lra.
Qed.

(** No six-decimal number [s] makes [s * 0.7 + 0.01] vanish. *)
Lemma discounted_volatility_divisor (s : Q) :
  is_decimal 6 s -> ~ s * 0.7 + 0.01 == 0.
Proof.
  intros [z Hz] H. rewrite Hz in H.
  change (inject_Z (10 ^ Z.of_nat 6)) with 1000000 in H.
  assert (E : inject_Z (7 * z) == inject_Z (-100000)).
  { rewrite inject_Z_mult. change (inject_Z 7) with 7.
    change (inject_Z (-100000)) with (-100000).
    set (q := inject_Z z) in *. clearbody q.
    assert (H1 : 7 * q + 100000
                 == (q / 1000000 * 0.7 + 0.01) * 10000000) by field.
    rewrite H in H1. clear H Hz. lra. }
  apply (proj1 (inject_Z_injective _ _)) in E. lia.
Qed.

Lemma random_uniform_run (a b : float) (g : rng) :
  rng_ok g ->
  exists u g',
    random_uniform a b g = Ret (a + (b - a) * u, g') /\
    0 <= u /\ u < 1 /\ rng_ok g'.
Proof.
  intros Hg. eexists _, _. split; [reflexivity | ].
  destruct (Hg (upos g)). auto.
Qed.

Lemma raw_weight_range (risk_mult expected_return volatility : float) :
  ~ volatility == -0.01 ->
  exists w,
    raw_weight risk_mult expected_return volatility = Ret w /\
    0.05 <= w /\ w <= 0.4.
Proof.
  intros Hv. unfold raw_weight. rewrite py_div_nonzero by lra.
  cbn [mbind res_bind]. eexists; split; [reflexivity | ]. split.
  - apply py_max_ge_l.
  - apply py_max_le; [lra | apply py_min_le_l].
Qed.


Lemma random_choice_bool (g : rng) :
  rng_ok g -> exists b g', random_choice [true; false] g = Ret (b, g').
Proof.
  intros Hg. unfold random_choice.
  erewrite bind_ret_M by reflexivity.
  destruct (Hg (upos g)) as [H0 H1].
  set (u := uniforms g (upos g)) in *.
  destruct (index_Forall (fun _ => True) [true; false]
              (Qfloor (u * inject_Z (len [true; false]))))
    as (b & Hb & _).
  - now apply Forall_forall.
  - change (len [true; false]) with 2%Z. change (inject_Z 2) with 2.
    split.
    + transitivity 0%Z; [lia | ].
      change 0%Z with (Qfloor 0). apply Qfloor_resp_le. lra.
    + apply Z.lt_le_trans with (Qfloor 2); [ | reflexivity].
      pose proof (Qfloor_le (u * 2)) as Hf.
      assert (Hlt : inject_Z (Qfloor (u * 2)) < inject_Z 2)
        by (change (inject_Z 2) with 2; lra).
      rewrite <- Zlt_Qlt in Hlt. exact Hlt.
  - eexists _, _. apply lift_ret. exact Hb.
Qed.

Lemma total_weight_pos (raw : list allocation_entry) :
  raw <> [] ->
  Forall (fun e => 0.05 <= entry_weight e /\ entry_weight e <= 0.4) raw ->
  0 < Qsum (map entry_weight raw).
Proof.
  intros Hne H. apply Qsum_pos.
  - destruct raw; [congruence | discriminate].
  - apply Forall_map. eapply Forall_impl; [exact H | ].
    intros e [? _]. simpl. lra.
Qed.


Lemma normalize_run (total : float) (raw : list allocation_entry) :
  ~ total == 0 ->
  rmap (normalize total) raw
  = Ret (map (fun w => set_weight w (py_round (entry_weight w / total) 4))
             raw).
Proof.
  intros H. apply rmap_ret. intros w _. unfold normalize.
  now rewrite py_div_nonzero by exact H.
Qed.

Lemma portfolio_volatility_decimal (total : float)
    (raw : list allocation_entry) :
  Forall (fun e => is_decimal 2 (entry_volatility e)) raw ->
  is_decimal 6
    (py_sum (map (fun w => entry_weight w * entry_volatility w)
                 (map (fun w => set_weight w
                                  (py_round (entry_weight w / total) 4))
                      raw))).
Proof.
  intros H. destruct (is_decimal_Qsum 6
    (map (fun w => entry_weight w * entry_volatility w)
         (map (fun w => set_weight w (py_round (entry_weight w / total) 4))
              raw))) as [z Hz].
  - rewrite map_map. apply Forall_map.
    eapply Forall_impl; [exact H | ]. intros e He. simpl.
    apply (is_decimal_mult 4 2); [apply is_decimal_round | exact He].
  - exists z. now rewrite py_sum_Qsum.
Qed.



Lemma fixed_rng_ok : rng_ok fixed_rng.
Proof. intros n. simpl. split; [discriminate | reflexivity]. Qed.

Lemma sample_asset_score_defined : score_defined sample_asset.
Proof. intros v H. injection H as <-. discriminate. Qed.



(** * Further properties of the code *)

(** ** Indexing *)

Lemma nth_error_lookup {A : Type} (l : list A) (i : nat) :
  nth_error l i = l !! i.
Proof. revert i. induction l; intros [ | i]; simpl; auto. Qed.

Lemma index_last {A : Type} (l : list A) (x : A) :
  last l = Some x -> index l (-1) = Ret x.
Proof.
  intros H. rewrite last_lookup in H.
  pose proof (lookup_lt_Some _ _ _ H) as Hlt.
  unfold index, len. change (-1 <? 0)%Z with true. cbv iota.
  replace ((0 <=? Z.of_nat (length l) + -1)%Z
           && (Z.of_nat (length l) + -1 <? Z.of_nat (length l))%Z) with true
    by (symmetry; apply andb_true_iff; split;
        [apply Z.leb_le | apply Z.ltb_lt]; lia).
  replace (Z.to_nat (Z.of_nat (length l) + -1)) with (pred (length l)) by lia.
  now rewrite nth_error_lookup, H.
Qed.

Lemma index_out_of_range {A : Type} (l : list A) (i : Z) :
  (len l <= i)%Z -> index l i = Raise IndexError.
Proof.
  intros H. unfold index, len in *.
  replace (i <? 0)%Z with false by (symmetry; apply Z.ltb_ge; lia).
  replace (i <? Z.of_nat (length l))%Z with false
    by (symmetry; apply Z.ltb_ge; lia).
  now rewrite andb_false_r.
Qed.

(** [index] fails in one way only. *)
Lemma index_outcome {A : Type} (l : list A) (i : Z) :
  (exists x, index l i = Ret x) \/ index l i = Raise IndexError.
Proof.
  unfold index. destruct (_ && _); [ | now right].
  destruct (nth_error _ _); [left; eauto | now right].
Qed.

(** ** Maps and rounding *)

Lemma rmap_Forall {A B : Type} (f : A -> res B) (P : B -> Prop) (l : list A) :
  (forall x, In x l -> exists y, f x = Ret y /\ P y) ->
  exists ys, rmap f l = Ret ys /\ length ys = length l /\ Forall P ys.
Proof.
  induction l as [ | x l IH]; intros H.
  - exists []. repeat split. constructor.
  - destruct (H x) as (y & Hy & Py); [now left | ].
    destruct IH as (ys & Hys & Hlen & HP); [intros; apply H; now right | ].
    exists (y :: ys). simpl. rewrite Hy. cbn [mbind res_bind].
    rewrite Hys. cbn [mbind res_bind].
    repeat split; [simpl; now rewrite Hlen | now constructor].
Qed.

Lemma py_round_comp (x y : float) (n : nat) :
  x == y -> py_round x n = py_round y n.
Proof.
  intros H. unfold py_round. f_equal. unfold round_half_even.
  assert (E : x * inject_Z (10 ^ Z.of_nat n) == y * inject_Z (10 ^ Z.of_nat n))
    by now rewrite H.
  rewrite (Qfloor_comp _ _ E).
  now rewrite E.
Qed.

(** ** EMA *)

Lemma ema_loop_length (m prev : float) (rest : list float) :
  length (ema_loop m prev rest) = length rest.
Proof.
  revert prev. induction rest as [ | p t IH]; intros prev; simpl; auto.
Qed.

(** X2: on a non-empty list [calculate_ema] raises ZeroDivisionError exactly at
    period -1; for any other period it returns a list as long as the input
    that starts with the first price. *)
Theorem calculate_ema_outcome (prices : list float) (period : Z) :
  prices <> [] ->
  (period = (-1)%Z ->
     calculate_ema prices period = Raise ZeroDivisionError) /\
  (period <> (-1)%Z ->
     exists ema,
       calculate_ema prices period = Ret ema /\
       length ema = length prices /\ head ema = head prices).
Proof.
  intros Hne. destruct prices as [ | p0 rest]; [congruence | ]. split.
  - now intros ->.
  - intros Hp. unfold calculate_ema.
    assert (Hq : ~ inject_Z (period + 1) == 0).
    { change 0 with (inject_Z 0). rewrite inject_Z_injective. lia. }
    rewrite py_div_nonzero by exact Hq. cbn [mbind res_bind].
    eexists; split; [reflexivity | ]. split; [ | reflexivity].
    simpl. now rewrite ema_loop_length.
Qed.

Lemma calculate_ema_outcome_witness :
  [1; 3; 5] <> [] /\ (-1)%Z = (-1)%Z /\ 12%Z <> (-1)%Z /\
  calculate_ema [1; 3; 5] (-1) = Raise ZeroDivisionError /\
  exists ema,
    calculate_ema [1; 3; 5] 12 = Ret ema /\
    length ema = length [1; 3; 5] /\ head ema = head [1; 3; 5].
Proof.
  assert (H : [1; 3; 5] <> []) by discriminate.
  split; [exact H | ]. split; [reflexivity | ]. split; [discriminate | ].
  split.
  - exact (proj1 (calculate_ema_outcome [1; 3; 5] (-1) H) eq_refl).
  - apply (proj2 (calculate_ema_outcome [1; 3; 5] 12 H)). discriminate.
Defined.

(** ** RSI at its two ends *)

Lemma deltas_never_falling (prices : list float) :
  Sorted Qle prices -> Forall (fun d => 0 <= d) (deltas prices).
Proof.
  induction prices as [ | a t IH]; intros H; [constructor | ].
  destruct t as [ | b t]; [constructor | ].
  inversion H as [ | ? ? Ht Hd]; subst. inversion Hd; subst.
  change (Forall (fun d => 0 <= d) ((b - a) :: deltas (b :: t))).
  constructor; [lra | now apply IH].
Qed.

Lemma deltas_falling (prices : list float) :
  Sorted (fun a b => b < a) prices -> Forall (fun d => d < 0) (deltas prices).
Proof.
  induction prices as [ | a t IH]; intros H; [constructor | ].
  destruct t as [ | b t]; [constructor | ].
  inversion H as [ | ? ? Ht Hd]; subst. inversion Hd; subst.
  change (Forall (fun d => d < 0) ((b - a) :: deltas (b :: t))).
  constructor; [lra | now apply IH].
Qed.

Lemma deltas_length (prices : list float) :
  length (deltas prices) = pred (length prices).
Proof.
  induction prices as [ | a t IH]; [reflexivity | ].
  destruct t as [ | b t]; [reflexivity | ].
  change (S (length (deltas (b :: t))) = S (length t)).
  now rewrite IH.
Qed.

(** X4: prices that never fall have no losses: with at least [period + 1] of
    them the RSI is 100. *)
Theorem calculate_rsi_never_falling (prices : list float) (period : Z) :
  Sorted Qle prices -> (period + 1 <= len prices)%Z ->
  calculate_rsi prices period = Ret 100.
Proof.
  intros Hs Hlen. unfold calculate_rsi.
  replace (len prices <? period + 1)%Z with false
    by (symmetry; apply Z.ltb_ge; lia).
  set (ds := slice_from (deltas prices) (- period)).
  assert (Hds : Forall (fun d => 0 <= d) ds)
    by apply Forall_slice_from, deltas_never_falling, Hs.
  destruct (mean_or_zero_nonneg (map gain ds)) as (ag & -> & _);
    [apply Forall_map_all, gain_nonneg | ].
  destruct (mean_or_zero_zero (map loss ds)) as (al & -> & Hal).
  { apply Forall_map. eapply Forall_impl; [exact Hds | ].
    intros x Hx. simpl in *. unfold loss.
    destruct (ltb x 0) eqn:E; [apply ltb_true in E; lra | reflexivity]. }
  cbn [mbind res_bind]. apply Qeq_bool_iff in Hal. now rewrite Hal.
Qed.

Lemma calculate_rsi_never_falling_witness :
  Sorted Qle [1; 2; 2; 5] /\ (2 + 1 <= len [1; 2; 2; 5]%Q)%Z /\
  calculate_rsi [1; 2; 2; 5] 2 = Ret 100.
Proof.
  assert (H : Sorted Qle [1; 2; 2; 5])
    by (repeat constructor; discriminate).
  split; [exact H | ]. split; [vm_compute; discriminate | ].
  apply (calculate_rsi_never_falling [1; 2; 2; 5] 2 H).
  vm_compute; discriminate.
Defined.

(** X5: prices that fall at every step have no gains: with a period of at
    least 1 and at least [period + 1] of them the RSI is 0. *)
Theorem calculate_rsi_always_falling (prices : list float) (period : Z) :
  Sorted (fun a b => b < a) prices ->
  (1 <= period)%Z -> (period + 1 <= len prices)%Z ->
  exists r, calculate_rsi prices period = Ret r /\ r == 0.
Proof.
  intros Hs Hp Hlen. unfold calculate_rsi.
  replace (len prices <? period + 1)%Z with false
    by (symmetry; apply Z.ltb_ge; lia).
  set (ds := slice_from (deltas prices) (- period)).
  assert (Hds : Forall (fun d => d < 0) ds)
    by apply Forall_slice_from, deltas_falling, Hs.
  assert (Hne : ds <> []).
  { apply slice_from_last_nonempty; [exact Hp | ].
    intros E. apply (f_equal (@length Q)) in E.
    rewrite deltas_length in E. unfold len in Hlen. simpl in E.
    cbv delta [float] in *. lia. }
  destruct (mean_or_zero_zero (map gain ds)) as (ag & -> & Hag).
  { apply Forall_map. eapply Forall_impl; [exact Hds | ].
    intros x Hx. simpl in *. unfold gain.
    destruct (gtb x 0) eqn:E; [apply gtb_true in E; lra | reflexivity]. }
  assert (Hloss : exists al, mean_or_zero (map loss ds) = Ret al /\ 0 < al).
  { destruct (np_mean_pos (map loss ds)) as (al & Hal & Hpos).
    - destruct ds; [congruence | discriminate].
    - apply Forall_map. eapply Forall_impl; [exact Hds | ].
      intros x Hx. simpl in *. unfold loss.
      destruct (ltb x 0) eqn:E; [lra | apply ltb_false in E; lra].
    - exists al. split; [ | exact Hpos].
      destruct ds; [congruence | exact Hal]. }
  destruct Hloss as (al & -> & Hal). cbn [mbind res_bind].
  replace (Qeq_bool al 0) with false
    by (symmetry; apply Qeq_bool_false; lra).
  rewrite np_div_nonzero by lra. cbn [mbind res_bind].
  assert (Hrs : ag / al == 0) by (rewrite Hag; unfold Qdiv; ring).
  rewrite np_div_nonzero by (rewrite Hrs; discriminate).
  cbn [mbind res_bind]. eexists; split; [reflexivity | ].
  assert (E : 100 - 100 / (1 + ag / al) == 0)
    by (rewrite Hrs; reflexivity).
  now rewrite (py_round_comp _ _ 2 E).
Qed.

Lemma calculate_rsi_always_falling_witness :
  Sorted (fun a b => b < a) [9; 7; 4; 1] /\ (1 <= 2)%Z /\
  (2 + 1 <= len [9; 7; 4; 1]%Q)%Z /\
  exists r, calculate_rsi [9; 7; 4; 1] 2 = Ret r /\ r == 0.
Proof.
  assert (H : Sorted (fun a b => b < a) [9; 7; 4; 1])
    by (repeat constructor).
  assert (H2 : (2 + 1 <= len [9; 7; 4; 1]%Q)%Z) by (vm_compute; discriminate).
  split; [exact H | ]. split; [lia | ]. split; [exact H2 | ].
  apply (calculate_rsi_always_falling [9; 7; 4; 1] 2 H); [lia | exact H2].
Defined.

(** ** MACD *)

Lemma calculate_ema_run (p0 : float) (rest : list float) (period : Z) :
  period <> (-1)%Z ->
  calculate_ema (p0 :: rest) period
  = Ret (p0 :: ema_loop (2 / inject_Z (period + 1)) p0 rest).
Proof.
  intros Hp. unfold calculate_ema.
  rewrite py_div_nonzero; [reflexivity | ].
  change 0 with (inject_Z 0). rewrite inject_Z_injective. lia.
Qed.

Lemma ema_loop_const (m prev c : Q) (rest : list float) :
  prev == c -> Forall (fun p => p == c) rest ->
  Forall (fun e => e == c) (ema_loop m prev rest).
Proof.
  revert prev. induction rest as [ | p t IH]; intros prev Hprev H;
    [constructor | ].
  inversion H as [ | ? ? Hp Ht]; subst. simpl.
  assert (E : p * m + prev * (1 - m) == c) by (rewrite Hp, Hprev; ring).
  constructor; [exact E | now apply IH].
Qed.

(** The EMA of a list keeps its length, and keeps a list of equal values
    as it is. *)
Lemma calculate_ema_const (prices : list float) (period : Z) (c : Q)
    (P : Prop) :
  period <> (-1)%Z -> (P -> Forall (fun p => p == c) prices) ->
  exists ema,
    calculate_ema prices period = Ret ema /\
    length ema = length prices /\
    (P -> Forall (fun e => e == c) ema).
Proof.
  intros Hp H. destruct prices as [ | p0 rest].
  { exists []. repeat split. constructor. }
  rewrite calculate_ema_run by exact Hp.
  eexists; split; [reflexivity | ]. split.
  - simpl. now rewrite ema_loop_length.
  - intros HP. specialize (H HP).
    inversion H as [ | ? ? H0 Hrest]; subst.
    constructor; [exact H0 | now apply ema_loop_const].
Qed.

Lemma diff_line_run (a b : list float) (c : Q) (P : Prop) :
  length a = length b ->
  (P -> Forall (fun x => x == c) a) -> (P -> Forall (fun x => x == c) b) ->
  exists l,
    diff_line a b (len a) = Ret l /\ length l = length a /\
    (P -> Forall (fun x => x == 0) l).
Proof.
  intros Hlen Ha Hb. unfold diff_line.
  destruct (rmap_Forall
              (fun i : Z => x ← index a i; y ← index b i; Ret (x - y))
              (fun d : float => P -> d == 0) (range 0 (len a)))
    as (l & Hl & Hn & HP).
  { intros i Hi. apply in_range in Hi. cbv beta.
    destruct (index_Forall (fun x : float => P -> x == c) a i) as (x & -> & Hx);
      [apply Forall_forall; intros x Hx HP; specialize (Ha HP);
       rewrite Forall_forall in Ha; now apply Ha | lia | ].
    destruct (index_Forall (fun x : float => P -> x == c) b i) as (y & -> & Hy);
      [apply Forall_forall; intros y Hy HP; specialize (Hb HP);
       rewrite Forall_forall in Hb; now apply Hb
      | unfold len in *; cbv delta [float] in *; lia | ].
    cbn [mbind res_bind]. eexists; split; [reflexivity | ].
    intros HP. rewrite (Hx HP), (Hy HP). ring. }
  exists l. split; [exact Hl | ]. split.
  - rewrite Hn, range_length. unfold len. lia.
  - intros HP'. eapply Forall_impl; [exact HP | ]. intros x Hx. now apply Hx.
Qed.

(** The steps of [calculate_macd] on 26 prices or more; under [P] the
    prices are all equal, and so is everything computed from them. *)
Lemma calculate_macd_run (prices : list float) (c : Q) (P : Prop) :
  (26 <= len prices)%Z -> (P -> Forall (fun p => p == c) prices) ->
  exists m s,
    calculate_macd prices
    = Ret {| macd := py_round m 4; signal := py_round s 4;
             histogram := py_round (m - s) 4 |} /\
    (P -> m == 0 /\ s == 0).
Proof.
  intros Hlen H. unfold calculate_macd.
  replace (len prices <? 26)%Z with false by (symmetry; apply Z.ltb_ge; lia).
  destruct (calculate_ema_const prices 12 c P) as (e12 & -> & H12 & Hc12);
    [discriminate | exact H | ].
  destruct (calculate_ema_const prices 26 c P) as (e26 & -> & H26 & Hc26);
    [discriminate | exact H | ].
  cbn [mbind res_bind].
  destruct (diff_line_run e12 e26 c P) as (line & Hline & Hn & Hz);
    [congruence | exact Hc12 | exact Hc26 | ].
  replace (len prices) with (len e12) by (unfold len; now rewrite H12).
  rewrite Hline. cbn [mbind res_bind].
  destruct (calculate_ema_const line 9 0 P) as (sig & -> & Hs & Hcs);
    [discriminate | exact Hz | ].
  cbn [mbind res_bind].
  destruct (index_Forall (fun x : float => P -> x == 0) line (-1)) as (m & -> & Hm).
  { apply Forall_forall. intros x Hx HP. specialize (Hz HP).
    rewrite Forall_forall in Hz. now apply Hz. }
  { unfold len in *. cbv delta [float] in *. lia. }
  destruct (index_Forall (fun x : float => P -> x == 0) sig (-1)) as (s & -> & Hs0).
  { apply Forall_forall. intros x Hx HP. specialize (Hcs HP).
    rewrite Forall_forall in Hcs. now apply Hcs. }
  { unfold len in *. cbv delta [float] in *. lia. }
  cbn [mbind res_bind]. exists m, s. split; [reflexivity | ].
  intros HP. split; [now apply Hm | now apply Hs0].
Qed.

(** [calculate_macd] returns a record on every input: none of its
    divisions and none of its index reads can fail. *)
Lemma calculate_macd_returns (prices : list float) :
  has_result (calculate_macd prices).
Proof.
  destruct (Z.lt_ge_cases (len prices) 26) as [Hlt | Hge].
  - unfold calculate_macd.
    replace (len prices <? 26)%Z with true by (symmetry; apply Z.ltb_lt; lia).
    eexists; reflexivity.
  - destruct (calculate_macd_run prices 0 False Hge) as (m & s & H & _);
      [tauto | ].
    eexists; exact H.
Qed.

(** ** ATR *)

Lemma py_round_nonneg (x : float) (n : nat) : 0 <= x -> 0 <= py_round x n.
Proof.
  intros H. unfold py_round, Qle. cbn [Qnum Qden].
  rewrite Z.mul_0_l, Z.mul_1_r.
  change 0%Z with (round_half_even 0). apply round_half_even_mono.
  apply Qmult_le_0_compat; [exact H | ].
  apply Qlt_le_weak, inject_ten_pow_pos.
Qed.

Lemma py_max_ge_r (a b : float) : b <= py_max a b.
Proof.
  unfold py_max. destruct (gtb b a) eqn:E; [lra | apply gtb_false in E; lra].
Qed.

Lemma py_min_le_r (a b : float) : py_min a b <= b.
Proof.
  unfold py_min. destruct (ltb b a) eqn:E; [lra | apply ltb_false in E; lra].
Qed.

Lemma true_range_nonneg (high low close : list float) (i : Z) :
  (1 <= i < len high)%Z -> (len high <= len low)%Z ->
  (len high - 1 <= len close)%Z ->
  exists tr, true_range high low close i = Ret tr /\ 0 <= tr.
Proof.
  intros Hi Hl Hc. unfold true_range.
  destruct (index_Forall (fun _ : float => True) high i) as (hi & -> & _);
    [now apply Forall_forall | lia | ].
  destruct (index_Forall (fun _ : float => True) low i) as (lo & -> & _);
    [now apply Forall_forall | lia | ].
  destruct (index_Forall (fun _ : float => True) close (i - 1))
    as (c & -> & _); [now apply Forall_forall | lia | ].
  cbn [mbind res_bind]. eexists; split; [reflexivity | ].
  apply Qle_trans with (Qabs (lo - c)); [apply Qabs_nonneg | apply py_max_ge_r].
Qed.

(** X7: when the three lists cover the same bars and the period is at least 1,
    the ATR is a non-negative number. *)
Theorem calculate_atr_nonneg (high low close : list float) (period : Z) :
  (2 <= len high)%Z -> (len high <= len low)%Z ->
  (len high - 1 <= len close)%Z -> (1 <= period)%Z ->
  exists r, calculate_atr high low close period = Ret r /\ 0 <= r.
Proof.
  intros Hh Hl Hc Hp. unfold calculate_atr.
  replace (len high <? 2)%Z with false by (symmetry; apply Z.ltb_ge; lia).
  destruct (rmap_Forall (true_range high low close)
              (fun tr : float => 0 <= tr) (range 1 (len high)))
    as (trs & -> & Hn & Hpos).
  { intros i Hi. apply in_range in Hi. now apply true_range_nonneg. }
  cbn [mbind res_bind]. rewrite range_length in Hn.
  destruct trs as [ | t trs]; [simpl in Hn; lia | ].
  destruct (np_mean_nonneg (slice_from (t :: trs) (- period)))
    as (m & -> & Hm).
  - apply slice_from_last_nonempty; [exact Hp | discriminate].
  - now apply Forall_slice_from.
  - cbn [mbind res_bind]. eexists; split; [reflexivity | ].
    now apply py_round_nonneg.
Qed.

Lemma calculate_atr_nonneg_witness :
  (2 <= len [3; 4; 6]%Q)%Z /\ (len [3; 4; 6]%Q <= len [1; 2; 3]%Q)%Z /\
  (len [3; 4; 6]%Q - 1 <= len [2; 3; 5]%Q)%Z /\ (1 <= 14)%Z /\
  exists r, calculate_atr [3; 4; 6] [1; 2; 3] [2; 3; 5] 14 = Ret r /\ 0 <= r.
Proof.
  assert (H1 : (2 <= len [3; 4; 6]%Q)%Z) by (vm_compute; discriminate).
  assert (H2 : (len [3; 4; 6]%Q <= len [1; 2; 3]%Q)%Z)
    by (vm_compute; discriminate).
  assert (H3 : (len [3; 4; 6]%Q - 1 <= len [2; 3; 5]%Q)%Z)
    by (vm_compute; discriminate).
  split; [exact H1 | ]. split; [exact H2 | ]. split; [exact H3 | ].
  split; [lia | ].
  apply (calculate_atr_nonneg [3; 4; 6] [1; 2; 3] [2; 3; 5] 14 H1 H2 H3).
  lia.
Defined.

Lemma rmap_raise {A B : Type} (f : A -> res B) (e : exn) (l : list A) :
  (forall x, In x l -> (exists y, f x = Ret y) \/ f x = Raise e) ->
  (exists x, In x l /\ f x = Raise e) ->
  rmap f l = Raise e.
Proof.
  induction l as [ | a l IH]; intros Hall (x & Hin & Hx); [destruct Hin | ].
  simpl. destruct (Hall a (or_introl eq_refl)) as [(y & Hy) | Hy];
    rewrite Hy; cbn [mbind res_bind]; [ | reflexivity].
  rewrite IH; [reflexivity | intros; apply Hall; now right | ].
  destruct Hin as [-> | Hin]; [congruence | eauto].
Qed.

Lemma true_range_outcome (high low close : list float) (i : Z) :
  (exists tr, true_range high low close i = Ret tr)
  \/ true_range high low close i = Raise IndexError.
Proof.
  unfold true_range.
  destruct (index_outcome high i) as [(x & ->) | ->]; [ | now right].
  destruct (index_outcome low i) as [(y & ->) | ->]; [ | now right].
  destruct (index_outcome close (i - 1)) as [(z & ->) | ->]; [ | now right].
  left. eexists. reflexivity.
Qed.

(** X8: with two or more highs, a [low] list shorter than [high], or a [close]
    list more than one shorter, makes the ATR raise IndexError. *)
Theorem calculate_atr_short_lists (high low close : list float)
    (period : Z) :
  (2 <= len high)%Z ->
  (len low < len high)%Z \/ (len close < len high - 1)%Z ->
  calculate_atr high low close period = Raise IndexError.
Proof.
  intros Hh Hshort. unfold calculate_atr.
  replace (len high <? 2)%Z with false by (symmetry; apply Z.ltb_ge; lia).
  rewrite (rmap_raise _ IndexError); [reflexivity | | ].
  { intros i _. apply true_range_outcome. }
  assert (Hlow0 : (0 <= len low)%Z) by (unfold len; lia).
  assert (Hclose0 : (0 <= len close)%Z) by (unfold len; lia).
  destruct Hshort as [Hlow | Hclose].
  - exists (Z.max 1 (len low)). split; [apply in_range; lia | ].
    unfold true_range. cbv delta [float] in *.
    destruct (index_Forall (fun _ : Q => True) high (Z.max 1 (len low)))
      as (hi & -> & _); [now apply Forall_forall | lia | ].
    cbn [mbind res_bind]. rewrite (index_out_of_range low) by lia. reflexivity.
  - exists (len close + 1)%Z. split; [apply in_range; lia | ].
    unfold true_range. cbv delta [float] in *.
    destruct (index_Forall (fun _ : Q => True) high (len close + 1))
      as (hi & -> & _); [now apply Forall_forall | lia | ].
    cbn [mbind res_bind].
    destruct (index_outcome low (len close + 1)) as [(lo & ->) | ->];
      [ | reflexivity].
    cbn [mbind res_bind]. rewrite (index_out_of_range close) by lia.
    reflexivity.
Qed.

Lemma calculate_atr_short_lists_witness :
  (2 <= len [3; 4; 6]%Q)%Z /\
  ((len [1; 2]%Q < len [3; 4; 6]%Q)%Z
   \/ (len [2; 3; 5]%Q < len [3; 4; 6]%Q - 1)%Z) /\
  calculate_atr [3; 4; 6] [1; 2] [2; 3; 5] 14 = Raise IndexError.
Proof.
  assert (H1 : (2 <= len [3; 4; 6]%Q)%Z) by (vm_compute; discriminate).
  assert (H2 : (len [1; 2]%Q < len [3; 4; 6]%Q)%Z
               \/ (len [2; 3; 5]%Q < len [3; 4; 6]%Q - 1)%Z)
    by (left; vm_compute; reflexivity).
  split; [exact H1 | ]. split; [exact H2 | ].
  exact (calculate_atr_short_lists [3; 4; 6] [1; 2] [2; 3; 5] 14 H1 H2).
Defined.

(** ** Maximum drawdown *)

Lemma drawdown_loop_bounds (values : list float) (peak max_dd : float) :
  0 < peak -> Forall (fun v => 0 < v) values ->
  0 <= max_dd -> max_dd <= 1 ->
  exists r, drawdown_loop values peak max_dd = Ret r /\ max_dd <= r /\ r <= 1.
Proof.
  revert peak max_dd.
  induction values as [ | v t IH]; intros peak max_dd Hp Hv H0 H1.
  - exists max_dd. repeat split; [lra | exact H1].
  - inversion Hv as [ | ? ? Hv0 Ht]; subst. simpl.
    set (peak' := if gtb v peak then v else peak).
    assert (Hp' : 0 < peak' /\ v <= peak').
    { subst peak'. destruct (gtb v peak) eqn:E;
        [split; lra | apply gtb_false in E; split; lra]. }
    destruct Hp' as [Hp0 Hpv].
    rewrite py_div_nonzero by lra. cbn [mbind res_bind].
    assert (Hd0 : 0 <= (peak' - v) / peak') by (apply Qle_shift_div_l; lra).
    assert (Hd1 : (peak' - v) / peak' <= 1) by (apply Qle_shift_div_r; lra).
    set (dd := (peak' - v) / peak') in *.
    destruct (IH peak' (if gtb dd max_dd then dd else max_dd))
      as (r & Hr & Hr0 & Hr1); try assumption.
    + destruct (gtb dd max_dd); assumption.
    + destruct (gtb dd max_dd); assumption.
    + exists r. split; [exact Hr | ]. split; [ | exact Hr1].
      destruct (gtb dd max_dd) eqn:E; [apply gtb_true in E; lra | exact Hr0].
Qed.

(** X13: on a positive equity curve the maximum drawdown is a percentage
    between 0 and 100. *)
Theorem calculate_max_drawdown_range (equity_curve : list float) :
  Forall (fun v => 0 < v) equity_curve ->
  exists r, calculate_max_drawdown equity_curve = Ret r /\ 0 <= r /\ r <= 100.
Proof.
  intros Hpos. unfold calculate_max_drawdown.
  destruct (len equity_curve <? 2)%Z eqn:E.
  { exists 0. split; [reflexivity | split; lra]. }
  apply Z.ltb_ge in E.
  destruct (index_Forall (fun v : float => 0 < v) equity_curve 0 Hpos)
    as (peak & -> & Hpeak); [lia | ].
  cbn [mbind res_bind].
  destruct (drawdown_loop_bounds equity_curve peak 0 Hpeak Hpos)
    as (r & -> & Hr0 & Hr1); [lra | lra | ].
  cbn [mbind res_bind]. eexists; split; [reflexivity | ].
  apply (py_round_range (r * 100) 0 100 2); [reflexivity | reflexivity | ].
  split; lra.
Qed.

Lemma calculate_max_drawdown_range_witness :
  Forall (fun v => 0 < v) [10000; 11000; 9000; 9500] /\
  exists r,
    calculate_max_drawdown [10000; 11000; 9000; 9500] = Ret r /\
    0 <= r /\ r <= 100.
Proof.
  assert (H : Forall (fun v => 0 < v) [10000; 11000; 9000; 9500])
    by (repeat constructor).
  split; [exact H | ].
  exact (calculate_max_drawdown_range [10000; 11000; 9000; 9500] H).
Defined.

Lemma drawdown_loop_never_falling (values : list float) (peak : float) :
  0 < peak -> HdRel Qle peak values -> Sorted Qle values ->
  drawdown_loop values peak 0 = Ret 0.
Proof.
  revert peak. induction values as [ | v t IH]; intros peak Hp Hd Hs;
    [reflexivity | ].
  inversion Hd as [ | ? ? Hpv]; subst. inversion Hs as [ | ? ? Hst Hdt]; subst.
  simpl. set (peak' := if gtb v peak then v else peak).
  assert (Hp' : peak' == v).
  { subst peak'. destruct (gtb v peak) eqn:E;
      [reflexivity | apply gtb_false in E; lra]. }
  rewrite py_div_nonzero by lra. cbn [mbind res_bind].
  assert (Hdd : (peak' - v) / peak' == 0)
    by (rewrite Hp'; unfold Qdiv; ring).
  replace (gtb ((peak' - v) / peak') 0) with false
    by (symmetry; apply gtb_false; lra).
  apply IH; [lra | | exact Hst].
  destruct Hdt as [ | w t' Hvw]; constructor. lra.
Qed.

(** X14: a positive equity curve that never falls has no drawdown. *)
Theorem calculate_max_drawdown_never_falling (equity_curve : list float) :
  Forall (fun v => 0 < v) equity_curve -> Sorted Qle equity_curve ->
  exists r, calculate_max_drawdown equity_curve = Ret r /\ r == 0.
Proof.
  intros Hpos Hs. unfold calculate_max_drawdown.
  destruct (len equity_curve <? 2)%Z eqn:E.
  { exists 0. split; reflexivity. }
  destruct equity_curve as [ | v t]; [discriminate E | ].
  inversion Hpos as [ | ? ? Hv _]; subst.
  change (index (v :: t) 0) with (Ret v). cbn [mbind res_bind].
  rewrite drawdown_loop_never_falling;
    [ | exact Hv | constructor; lra | exact Hs].
  cbn [mbind res_bind]. eexists; split; reflexivity.
Qed.

Lemma calculate_max_drawdown_never_falling_witness :
  Forall (fun v => 0 < v) [100; 100; 120; 150] /\
  Sorted Qle [100; 100; 120; 150] /\
  exists r, calculate_max_drawdown [100; 100; 120; 150] = Ret r /\ r == 0.
Proof.
  assert (H1 : Forall (fun v => 0 < v) [100; 100; 120; 150])
    by (repeat constructor).
  assert (H2 : Sorted Qle [100; 100; 120; 150])
    by (repeat constructor; discriminate).
  split; [exact H1 | ]. split; [exact H2 | ].
  exact (calculate_max_drawdown_never_falling [100; 100; 120; 150] H1 H2).
Defined.

(** X15: a curve of two points or more that starts at zero has a zero peak at
    its first point, and the drawdown division raises ZeroDivisionError. *)
Theorem calculate_max_drawdown_zero_start (v : float)
    (rest : list float) :
  v == 0 -> rest <> [] ->
  calculate_max_drawdown (v :: rest) = Raise ZeroDivisionError.
Proof.
  intros Hv Hne. unfold calculate_max_drawdown.
  replace (len (v :: rest) <? 2)%Z with false.
  2:{ symmetry. apply Z.ltb_ge. unfold len.
      destruct rest; [congruence | simpl length; lia]. }
  change (index (v :: rest) 0) with (Ret v). cbn [mbind res_bind].
  simpl drawdown_loop.
  replace (gtb v v) with false by (symmetry; apply gtb_false; lra).
  now rewrite py_div_zero by exact Hv.
Qed.

Lemma calculate_max_drawdown_zero_start_witness :
  0 == 0 /\ [100; 90] <> [] /\
  calculate_max_drawdown (0 :: [100; 90]) = Raise ZeroDivisionError.
Proof.
  split; [reflexivity | ]. split; [discriminate | ].
  apply (calculate_max_drawdown_zero_start 0 [100; 90]);
    [reflexivity | discriminate].
Defined.

(** ** Trade risk *)

Lemma py_min_ge (a b c : float) : c <= a -> c <= b -> c <= py_min a b.
Proof. unfold py_min. destruct (ltb b a); trivial. Qed.

(** X16: for a non-zero portfolio value the risk score lies in [1, 10], a high
    risk level always comes with the cautious recommendation, and a low one
    with the reassuring recommendation. *)
Theorem assess_trade_risk_score
    (entry_price position_size portfolio_value volatility : float) :
  ~ portfolio_value == 0 ->
  exists r,
    assess_trade_risk entry_price position_size portfolio_value volatility
    = Ret r /\
    1 <= risk_score r /\ risk_score r <= 10 /\
    (risk_level r = high -> recommendation r = "Proceed with caution") /\
    (risk_level r = low -> recommendation r = "Trade appears reasonable").
Proof.
  intros Hpv. unfold assess_trade_risk.
  rewrite py_div_nonzero by exact Hpv. cbn [mbind res_bind]. cbv zeta.
  set (x := entry_price * position_size / portfolio_value * 100 / 5
            + volatility * 20).
  set (score := py_min 10 (py_max 1 x)).
  assert (Hs : 1 <= score /\ score <= 10).
  { subst score. split; [ | apply py_min_le_l].
    apply py_min_ge; [lra | apply py_max_ge_l]. }
  eexists; split; [reflexivity | ]. simpl.
  destruct (py_round_range score 1 10 1) as [H1 H2];
    [reflexivity | reflexivity | exact Hs | ].
  split; [exact H1 | ]. split; [exact H2 | ]. split.
  - destruct (ltb score 4) eqn:E4; [discriminate | ].
    destruct (ltb score 7) eqn:E7; [discriminate | ]. intros _.
    apply ltb_false in E7.
    replace (gtb score 6) with true by (symmetry; apply gtb_true; lra).
    reflexivity.
  - destruct (ltb score 4) eqn:E4.
    + intros _. apply ltb_true in E4.
      replace (gtb score 6) with false by (symmetry; apply gtb_false; lra).
      reflexivity.
    + destruct (ltb score 7); discriminate.
Qed.

Lemma assess_trade_risk_score_witness :
  ~ 10000 == 0 /\
  exists r,
    assess_trade_risk 43000 0.1 10000 0.03 = Ret r /\
    1 <= risk_score r /\ risk_score r <= 10 /\
    (risk_level r = high -> recommendation r = "Proceed with caution") /\
    (risk_level r = low -> recommendation r = "Trade appears reasonable").
Proof.
  split; [discriminate | ].
  apply (assess_trade_risk_score 43000 0.1 10000 0.03). discriminate.
Defined.

(** ** Portfolio risk *)

Lemma Qsum_ge_elem (l : list Q) (x : Q) :
  Forall (fun y => 0 <= y) l -> In x l -> x <= Qsum l.
Proof.
  induction 1 as [ | y l Hy Hl IH]; intros Hin; [destruct Hin | ].
  simpl. destruct Hin as [-> | Hin].
  - pose proof (Qsum_nonneg l Hl). lra.
  - specialize (IH Hin). lra.
Qed.

Lemma fold_max_bounds (t : list float) (x lo hi : float) :
  Forall (fun y => lo <= y /\ y <= hi) (x :: t) ->
  lo <= fold_left py_max t x /\ fold_left py_max t x <= hi.
Proof.
  revert x. induction t as [ | a t IH]; intros x H.
  - inversion H; subst. simpl. assumption.
  - inversion H as [ | ? ? [Hx1 Hx2] Ht]; subst.
    inversion Ht as [ | ? ? [Ha1 Ha2] Ht']; subst. simpl. apply IH.
    constructor; [ | exact Ht'].
    unfold py_max. destruct (gtb a x); split; assumption.
Qed.

Lemma random_uniform_range (a b : float) (g : rng) :
  rng_ok g -> a <= b ->
  exists x g',
    random_uniform a b g = Ret (x, g') /\ a <= x /\ x <= b /\ rng_ok g'.
Proof.
  intros Hg Hab.
  destruct (random_uniform_run a b g Hg) as (u & g' & H & Hu0 & Hu1 & Hg').
  exists (a + (b - a) * u), g'. split; [exact H | ].
  assert (0 <= (b - a) * u) by (apply Qmult_le_0_compat; lra).
  assert (0 <= (b - a) * (1 - u)) by (apply Qmult_le_0_compat; lra).
  split; [lra | ]. split; [ | exact Hg'].
  setoid_replace (a + (b - a) * u) with (b - (b - a) * (1 - u))
    using relation Qeq by ring.
  lra.
Qed.

(** The largest share of a non-empty portfolio is always computed; when
    no position value is negative (the condition [P] stands for) it lies in
    [0, 100]. *)
Lemma max_position_pct_run (positions : list position) (P : Prop) :
  positions <> [] -> (P -> Forall (fun p => 0 <= value_of p) positions) ->
  exists mp,
    (if gtb (py_sum (map value_of positions)) 0
     then shares ← rmap (fun p => q ← py_div (value_of p)
                                         (py_sum (map value_of positions));
                                  Ret (q * 100)) positions;
          list_max shares
     else Ret 0) = Ret mp /\
    (P -> 0 <= mp /\ mp <= 100).
Proof.
  intros Hne Hpos.
  set (total := py_sum (map value_of positions)).
  assert (Htot : total == Qsum (map value_of positions))
    by apply py_sum_Qsum.
  destruct (gtb total 0) eqn:E;
    [ | exists 0; split; [reflexivity | intros _; lra]].
  apply gtb_true in E.
  destruct (rmap_Forall
              (fun p => q ← py_div (value_of p) total; Ret (q * 100))
              (fun s : float => P -> 0 <= s /\ s <= 100) positions)
    as (shares & -> & Hlen & Hsh).
  { intros p Hp. rewrite py_div_nonzero by lra. cbn [mbind res_bind].
    eexists; split; [reflexivity | ]. intros HP. specialize (Hpos HP).
    assert (Hp0 : 0 <= value_of p).
    { rewrite Forall_forall in Hpos. apply Hpos. now apply list_elem_of_In. }
    assert (Hp1 : value_of p <= total).
    { rewrite Htot. apply Qsum_ge_elem.
      - apply Forall_map. exact Hpos.
      - apply in_map. exact Hp. }
    assert (0 <= value_of p / total) by (apply Qle_shift_div_l; lra).
    assert (value_of p / total <= 1) by (apply Qle_shift_div_r; lra).
    lra. }
  cbn [mbind res_bind].
  destruct shares as [ | s0 ss];
    [destruct positions; [congruence | discriminate Hlen] | ].
  eexists; split; [reflexivity | ]. intros HP. apply fold_max_bounds.
  eapply Forall_impl; [exact Hsh | ]. intros s Hs. now apply Hs.
Qed.

(** X17: the shares of a portfolio of non-negative position values: the largest
    one is a percentage in [0, 100], and the diversification score is twice
    the number of positions, capped at 10. *)
Theorem portfolio_risk_metrics_concentration
    (positions : list position)
    (historical_data : gmap string (list float)) (g : rng) :
  positions <> [] -> Forall (fun p => 0 <= value_of p) positions ->
  exists r g' m,
    portfolio_risk_metrics positions historical_data g = Ret (r, g') /\
    max_position_percentage r = Some m /\ 0 <= m /\ m <= 100 /\
    diversification_score r = Z.min 10 (len positions * 2).
Proof.
  intros Hne Hpos.
  destruct (max_position_pct_run positions True Hne (fun _ => Hpos))
    as (mp & Hmp & Hb). destruct (Hb I) as [Hmp0 Hmp1].
  unfold portfolio_risk_metrics.
  destruct positions as [ | p0 ps]; [congruence | ]. cbv zeta.
  erewrite bind_lift_M by exact Hmp.
  do 4 (erewrite bind_ret_M by reflexivity).
  eexists _, _, _. split; [reflexivity | ]. simpl.
  split; [reflexivity | ].
  destruct (py_round_range mp 0 100 2) as [H0 H1];
    [reflexivity | reflexivity | now split | ].
  repeat split; assumption.
Qed.

Lemma portfolio_risk_metrics_concentration_witness :
  [{| pos_symbol := "BTC"; pos_value := Some 5000 |};
   {| pos_symbol := "ETH"; pos_value := None |}] <> [] /\
  Forall (fun p => 0 <= value_of p)
    [{| pos_symbol := "BTC"; pos_value := Some 5000 |};
     {| pos_symbol := "ETH"; pos_value := None |}] /\
  exists r g' m,
    portfolio_risk_metrics
      [{| pos_symbol := "BTC"; pos_value := Some 5000 |};
       {| pos_symbol := "ETH"; pos_value := None |}] ∅ fixed_rng
    = Ret (r, g') /\
    max_position_percentage r = Some m /\ 0 <= m /\ m <= 100 /\
    diversification_score r
    = Z.min 10 (len [{| pos_symbol := "BTC"; pos_value := Some 5000 |};
                     {| pos_symbol := "ETH"; pos_value := None |}] * 2).
Proof.
  assert (H : Forall (fun p => 0 <= value_of p)
                [{| pos_symbol := "BTC"; pos_value := Some 5000 |};
                 {| pos_symbol := "ETH"; pos_value := None |}])
    by (repeat constructor; discriminate).
  split; [discriminate | ]. split; [exact H | ].
  apply (portfolio_risk_metrics_concentration
           [{| pos_symbol := "BTC"; pos_value := Some 5000 |};
            {| pos_symbol := "ETH"; pos_value := None |}] ∅ fixed_rng);
    [discriminate | exact H].
Defined.

(** ** Rebalancing *)

(** X19: a suggestion is never for less than one percentage point: a buy has a
    change of at least 1, a sell of at most -1. *)
Theorem suggest_rebalancing_dead_band
    (current_allocation target_allocation : list holding) :
  Forall (fun s => (sg_action s = buy /\ 1 <= change_percentage s)
                   \/ (sg_action s = sell /\ change_percentage s <= -1))
         (suggest_rebalancing current_allocation target_allocation).
Proof.
  apply Forall_forall. intros s Hs. unfold suggest_rebalancing in Hs.
  apply list_elem_of_omap in Hs. destruct Hs as (sym & _ & Hs).
  unfold suggest in Hs. cbv zeta in Hs.
  set (diff := default 0 (weights_dict target_allocation !! sym)
               - default 0 (weights_dict current_allocation !! sym)) in *.
  destruct (gtb (Qabs diff) 0.01) eqn:E; [ | discriminate].
  injection Hs as <-. simpl. apply gtb_true in E.
  destruct (gtb diff 0) eqn:Ed.
  - left. split; [reflexivity | ]. apply gtb_true in Ed.
    rewrite Qabs_pos in E by lra.
    apply Qle_trans with (py_round 1 2); [discriminate | ].
    apply py_round_mono. lra.
  - right. split; [reflexivity | ]. apply gtb_false in Ed.
    rewrite Qabs_neg in E by exact Ed.
    apply Qle_trans with (py_round (-1) 2); [ | discriminate].
    apply py_round_mono. lra.
Qed.

Lemma omap_Forall2 {A B : Type} (R : B -> B -> Prop)
    (f g : A -> option B) (l : list A) :
  (forall x, match f x, g x with
             | Some y, Some z => R y z
             | None, None => True
             | _, _ => False
             end) ->
  Forall2 R (omap f l) (omap g l).
Proof.
  intros H. induction l as [ | x l IH]; simpl; [constructor | ].
  specialize (H x). destruct (f x), (g x); try contradiction;
    [now constructor | exact IH].
Qed.

(** X20: swapping the two allocations turns every suggestion into one for
    the same symbol with the opposite action and the two weights
    exchanged, in whatever order the suggestions come. *)
Theorem suggest_rebalancing_swap (a b : list holding) :
  Forall (fun s => exists t,
            t ∈ suggest_rebalancing b a /\
            sg_symbol t = sg_symbol s /\
            sg_action t <> sg_action s /\
            current_weight t = target_weight s /\
            target_weight t = current_weight s)
         (suggest_rebalancing a b).
Proof.
  assert (H : Forall2 (fun s t => sg_symbol s = sg_symbol t /\
                                  sg_action s <> sg_action t /\
                                  current_weight s = target_weight t /\
                                  target_weight s = current_weight t)
                      (suggest_rebalancing a b) (suggest_rebalancing b a)).
  { unfold suggest_rebalancing. cbv zeta.
    rewrite (union_comm_L (dom (weights_dict b)) (dom (weights_dict a))).
    apply omap_Forall2. intros sym. unfold suggest. cbv zeta.
    set (x := default 0 (weights_dict a !! sym)).
    set (y := default 0 (weights_dict b !! sym)).
    assert (E : Qabs (x - y) == Qabs (y - x)).
    { setoid_replace (x - y) with (- (y - x)) using relation Qeq by ring.
      apply Qabs_opp. }
    destruct (gtb (Qabs (y - x)) 0.01) eqn:E1;
      destruct (gtb (Qabs (x - y)) 0.01) eqn:E2.
    - apply gtb_true in E1. simpl. repeat split.
      destruct (gtb (y - x) 0) eqn:D1; destruct (gtb (x - y) 0) eqn:D2;
        try discriminate.
      + apply gtb_true in D1. apply gtb_true in D2. lra.
      + apply gtb_false in D1. apply gtb_false in D2.
        assert (Hz : y - x == 0) by lra. rewrite Hz in E1.
        exfalso. apply (Qle_not_lt (Qabs 0) 0.01); [discriminate | exact E1].
    - apply gtb_true in E1. apply gtb_false in E2. lra.
    - apply gtb_false in E1. apply gtb_true in E2. lra.
    - exact I. }
  induction H as [ | s t l1 l2 (H1 & H2 & H3 & H4) _ IH]; constructor.
  - exists t. split; [apply list_elem_of_here | ].
    repeat split; [now symmetry | congruence | now symmetry | now symmetry].
  - eapply Forall_impl; [exact IH | ].
    intros s' (t' & Hin & Hrest). exists t'.
    split; [now apply list_elem_of_further | exact Hrest].
Qed.

(** ** The optimizer: entries and weights *)

Lemma mapM_Forall2 {A B : Type} (f : A -> M B) (R : A -> B -> Prop)
    (I : rng -> Prop) (l : list A) :
  (forall x g, In x l -> I g ->
     exists y g', f x g = Ret (y, g') /\ R x y /\ I g') ->
  forall g, I g ->
    exists ys g', mapM f l g = Ret (ys, g') /\ Forall2 R l ys /\ I g'.
Proof.
  induction l as [ | x l IH]; intros Hf g Hg.
  - exists [], g. repeat split; [constructor | exact Hg].
  - destruct (Hf x g) as (y & g1 & Hy & HR & Hg1); [now left | exact Hg | ].
    destruct (IH (fun x' g' Hin => Hf x' g' (or_intror Hin)) g1 Hg1)
      as (ys & g2 & Hys & HRs & Hg2).
    exists (y :: ys), g2. simpl mapM.
    rewrite (bind_ret_M _ _ _ _ _ Hy), (bind_ret_M _ _ _ _ _ Hys).
    repeat split; [now constructor | exact Hg2].
Qed.

Lemma Forall2_right {A B : Type} (R : A -> B -> Prop) (P : B -> Prop)
    (l : list A) (k : list B) :
  Forall2 R l k -> (forall x y, R x y -> P y) -> Forall P k.
Proof.
  intros H HP. induction H as [ | x y l k Hxy _ IH]; constructor; eauto.
Qed.

Lemma Forall2_map_eq {A B C : Type} (R : A -> B -> Prop) (f : B -> C)
    (h : A -> C) (l : list A) (k : list B) :
  Forall2 R l k -> (forall x y, R x y -> f y = h x) -> map f k = map h l.
Proof.
  intros H HR. induction H as [ | x y l k Hxy _ IH]; [reflexivity | ].
  simpl. now rewrite (HR x y Hxy), IH.
Qed.

Lemma weigh_entry (risk_mult : float) (a : asset) (g : rng) :
  rng_ok g -> score_defined a ->
  exists e g',
    weigh risk_mult a g = Ret (e, g') /\
    (entry_symbol e = asset_symbol a /\
     0.05 <= entry_weight e /\ entry_weight e <= 0.4 /\
     is_decimal 2 (entry_volatility e)) /\
    rng_ok g'.
Proof.
  intros Hg Ha. unfold weigh.
  destruct (random_uniform_run 0.2 0.5 g Hg) as (u & g1 & H1 & Hu & _ & Hg1).
  erewrite bind_ret_M by exact H1.
  destruct (random_uniform_run (-0.1) 0.3 g1 Hg1)
    as (u' & g2 & H2 & _ & _ & Hg2).
  erewrite bind_ret_M by exact H2.
  destruct (raw_weight_range risk_mult
              (default (-0.1 + (0.3 - -0.1) * u') (asset_expected_return a))
              (default (0.2 + (0.5 - 0.2) * u) (asset_volatility a)))
    as (w & Hw & Hlo & Hhi).
  { destruct (asset_volatility a) as [v | ] eqn:E; simpl.
    - now apply Ha.
    - lra. }
  erewrite bind_lift_M by exact Hw.
  eexists _, _. split; [reflexivity | ]. simpl.
  split; [ | exact Hg2].
  split; [reflexivity | ]. split; [exact Hlo | ].
  split; [exact Hhi | apply is_decimal_round].
Qed.

(** The whole run of the optimizer, with the list it returns spelled
    out: the raw entries with their weights divided by the total and
    rounded. *)
Lemma optimize_allocation_entries_run (assets : list asset)
    (risk_tolerance : string) (g : rng) :
  assets <> [] -> rng_ok g -> Forall score_defined assets ->
  exists raw o g',
    Forall2 (fun a e => entry_symbol e = asset_symbol a /\
                        0.05 <= entry_weight e /\ entry_weight e <= 0.4)
            assets raw /\
    optimize_allocation assets risk_tolerance g = Ret (Optimized o, g') /\
    optimal_allocation o
    = map (fun w => set_weight w
                      (py_round (entry_weight w
                                 / py_sum (map entry_weight raw)) 4)) raw.
Proof.
  intros Hne Hg Hok.
  destruct (mapM_Forall2 (weigh (risk_multiplier risk_tolerance))
              (fun a e => entry_symbol e = asset_symbol a /\
                          0.05 <= entry_weight e /\ entry_weight e <= 0.4 /\
                          is_decimal 2 (entry_volatility e))
              rng_ok assets) with (g := g)
    as (raw & g1 & Hraw & HP & Hg1); [ | exact Hg | ].
  { intros a g0 Hin Hg0. apply weigh_entry; [exact Hg0 | ].
    rewrite Forall_forall in Hok. apply Hok. now apply list_elem_of_In. }
  assert (Hrange : Forall (fun e => 0.05 <= entry_weight e /\
                                     entry_weight e <= 0.4) raw).
  { eapply Forall2_right; [exact HP | ]. intros a e (_ & ? & ? & _).
    now split. }
  assert (Hdec : Forall (fun e => is_decimal 2 (entry_volatility e)) raw).
  { eapply Forall2_right; [exact HP | ]. now intros a e (_ & _ & _ & ?). }
  set (total := py_sum (map entry_weight raw)).
  assert (Htotal : 0 < total).
  { unfold total. rewrite py_sum_Qsum.
    apply total_weight_pos; [ | exact Hrange].
    intros ->. apply Forall2_length in HP.
    destruct assets; [congruence | discriminate]. }
  destruct (random_choice_bool g1 Hg1) as (b & g2 & Hb).
  exists raw. eexists _, g2. split.
  { eapply Forall2_impl; [exact HP | ]. intros a e (? & ? & ? & _).
    repeat split; assumption. }
  unfold optimize_allocation. destruct assets as [ | a0 assets0];
    [congruence | ].
  erewrite bind_ret_M by exact Hraw. cbv zeta. fold total.
  erewrite bind_lift_M by (apply normalize_run; lra).
  erewrite bind_lift_M
    by (apply py_div_nonzero, discounted_volatility_divisor,
              portfolio_volatility_decimal, Hdec).
  erewrite bind_ret_M by exact Hb.
  split; reflexivity.
Qed.

(** X21: the allocation lists the assets one entry each, in their order and
    under their symbols, and every weight in it lies in [0, 1]. *)
Theorem optimize_allocation_entries (assets : list asset)
    (risk_tolerance : string) (g : rng) :
  assets <> [] -> rng_ok g -> Forall score_defined assets ->
  exists o g',
    optimize_allocation assets risk_tolerance g = Ret (Optimized o, g') /\
    map entry_symbol (optimal_allocation o) = map asset_symbol assets /\
    Forall (fun e => 0 <= entry_weight e /\ entry_weight e <= 1)
           (optimal_allocation o).
Proof.
  intros Hne Hg Hok.
  destruct (optimize_allocation_entries_run assets risk_tolerance g Hne Hg Hok)
    as (raw & o & g' & HP & Hrun & Ho).
  exists o, g'. split; [exact Hrun | ]. rewrite Ho.
  set (total := py_sum (map entry_weight raw)).
  assert (Hrange : Forall (fun e => 0.05 <= entry_weight e /\
                                     entry_weight e <= 0.4) raw).
  { eapply Forall2_right; [exact HP | ]. intros a e (_ & ? & ?).
    now split. }
  split.
  - rewrite map_map. simpl.
    eapply Forall2_map_eq; [exact HP | ]. now intros a e (Hs & _).
  - apply Forall_map. apply Forall_forall. intros e He. simpl.
    assert (Hpos : Forall (fun x => 0 <= x) (map entry_weight raw)).
    { apply Forall_map. eapply Forall_impl; [exact Hrange | ].
      intros x [? _]. simpl. lra. }
    assert (He1 : entry_weight e <= total).
    { unfold total. rewrite py_sum_Qsum. apply Qsum_ge_elem; [exact Hpos | ].
      apply in_map. now apply list_elem_of_In. }
    assert (He0 : 0.05 <= entry_weight e).
    { rewrite Forall_forall in Hrange. now apply Hrange. }
    apply (py_round_range _ 0 1 4); [reflexivity | reflexivity | ].
    split; [apply Qle_shift_div_l | apply Qle_shift_div_r]; lra.
Qed.

Lemma optimize_allocation_entries_witness :
  [sample_asset; sample_asset] <> [] /\ rng_ok fixed_rng /\
  Forall score_defined [sample_asset; sample_asset] /\
  exists o g',
    optimize_allocation [sample_asset; sample_asset] "medium" fixed_rng
    = Ret (Optimized o, g') /\
    map entry_symbol (optimal_allocation o)
    = map asset_symbol [sample_asset; sample_asset] /\
    Forall (fun e => 0 <= entry_weight e /\ entry_weight e <= 1)
           (optimal_allocation o).
Proof.
  assert (H : Forall score_defined [sample_asset; sample_asset])
    by (repeat constructor; apply sample_asset_score_defined).
  split; [discriminate | ]. split; [exact fixed_rng_ok | ].
  split; [exact H | ].
  apply (optimize_allocation_entries [sample_asset; sample_asset] "medium"
           fixed_rng); [discriminate | exact fixed_rng_ok | exact H].
Defined.

(** X22: a portfolio of one asset puts everything in it: the single weight
    is 1. *)
Theorem optimize_allocation_single_asset (a : asset)
    (risk_tolerance : string) (g : rng) :
  rng_ok g -> score_defined a ->
  exists o g' e,
    optimize_allocation [a] risk_tolerance g = Ret (Optimized o, g') /\
    optimal_allocation o = [e] /\
    entry_symbol e = asset_symbol a /\ entry_weight e == 1.
Proof.
  intros Hg Ha.
  destruct (optimize_allocation_entries_run [a] risk_tolerance g)
    as (raw & o & g' & HP & Hrun & Ho);
    [discriminate | exact Hg | now repeat constructor | ].
  inversion HP as [ | ? r ? rest (Hs & Hw0 & Hw1) Hrest]; subst.
  inversion Hrest; subst.
  exists o, g'. eexists. split; [exact Hrun | ].
  split; [exact Ho | ]. simpl. split; [exact Hs | ].
  assert (E : entry_weight r / py_sum [entry_weight r] == 1)
    by (unfold py_sum; simpl; field; lra).
  now rewrite (py_round_comp _ _ 4 E).
Qed.

Lemma optimize_allocation_single_asset_witness :
  rng_ok fixed_rng /\ score_defined sample_asset /\
  exists o g' e,
    optimize_allocation [sample_asset] "medium" fixed_rng
    = Ret (Optimized o, g') /\
    optimal_allocation o = [e] /\
    entry_symbol e = asset_symbol sample_asset /\ entry_weight e == 1.
Proof.
  split; [exact fixed_rng_ok | ]. split; [exact sample_asset_score_defined | ].
  exact (optimize_allocation_single_asset sample_asset "medium" fixed_rng
           fixed_rng_ok sample_asset_score_defined).
Defined.

(** ** The forecast in detail *)

(** The run of [predict_price] on positive prices, with the fields of the
    forecast spelled out; [P] stands for a generator whose uniform draws
    lie in [0, 1). *)
Lemma predict_price_run {FS : FloatSqrt} (self : LSTMPredictor)
    (prices : list float) (periods_ahead : Z) (g : rng) (P : Prop) :
  Forall (fun p => 0 < p) prices ->
  (10 <= len prices)%Z -> (1 <= periods_ahead)%Z -> (P -> rng_ok g) ->
  exists f g' final,
    predict_price self prices periods_ahead g = Ret (Prediction f, g') /\
    fc_symbol f = symbol self /\
    0 < fc_current_price f /\
    last prices = Some (fc_current_price f) /\
    Forall2 (fun i pt => period pt = i)
            (range 1 (periods_ahead + 1)) (predictions f) /\
    fc_direction f
    = (if gtb final (fc_current_price f) then bullish else bearish) /\
    predicted_change_percent f
    = py_round ((final - fc_current_price f) / fc_current_price f * 100) 2 /\
    confidence f = py_round (model_confidence self * 100) 1 /\
    (P -> rng_ok g' /\ 72 <= model_accuracy f /\ model_accuracy f <= 89).
Proof.
  intros Hpos Hlen Hpa HP. unfold predict_price.
  replace (len prices <? 10)%Z with false by (symmetry; apply Z.ltb_ge; lia).
  assert (Hne : prices <> [])
    by (intros ->; unfold len in Hlen; simpl in Hlen; lia).
  destruct (last prices) as [cp | ] eqn:Elast;
    [ | apply last_None in Elast; congruence].
  assert (Hcp0 : 0 < cp).
  { rewrite Forall_forall in Hpos. apply Hpos.
    now apply last_Some_elem_of. }
  erewrite bind_lift_M by (apply index_last; exact Elast).
  destruct (trend_returns prices 5 Hpos) as (st & Hst); [lia | ].
  erewrite bind_lift_M by exact Hst.
  destruct (trend_returns prices 10 Hpos) as (mt & Hmt); [lia | ].
  erewrite bind_lift_M by exact Hmt. cbv zeta.
  destruct (volatility_nonneg prices Hpos Hne) as (v & Hv & Hv0).
  erewrite bind_lift_M by exact Hv.
  destruct (mapM_Forall2 (forecast_step cp st mt v periods_ahead)
              (fun i pt => period pt = i)
              (fun g0 => P -> rng_ok g0) (range 1 (periods_ahead + 1)))
    with (g := g) as (preds & g1 & Hm & HF & Hg1); [ | exact HP | ].
  { intros i g0 Hi Hg0. apply in_range in Hi.
    unfold forecast_step.
    pose proof (inject_Z_pos _ Hpa) as Hp'.
    assert (Hi' : 0 < inject_Z i) by (apply inject_Z_pos; lia).
    erewrite bind_lift_M by (apply py_div_nonzero; lra).
    erewrite bind_ret_M by reflexivity.
    assert (Hs : math_sqrt (inject_Z i) = Ret (fsqrt (inject_Z i))).
    { unfold math_sqrt.
      replace (ltb (inject_Z i) 0) with false; [reflexivity | ].
      symmetry. apply ltb_false. lra. }
    erewrite bind_lift_M by exact Hs.
    eexists _, _; split; [reflexivity | ]. split; [reflexivity | exact Hg0]. }
  pose proof (Forall2_length _ _ _ HF) as Hl. rewrite range_length in Hl.
  erewrite bind_ret_M by exact Hm.
  destruct (index_Forall (fun _ : forecast_point => True) preds (-1))
    as (final & Hf & _); [now apply Forall_forall | unfold len; lia | ].
  erewrite bind_lift_M by exact Hf.
  erewrite bind_lift_M
    by (destruct (20 <=? len prices)%Z;
        [apply np_div_nonzero | apply py_div_nonzero]; lra).
  erewrite bind_ret_M by reflexivity.
  eexists _, _, (predicted_price final). split; [reflexivity | ]. simpl.
  repeat (split; [first [reflexivity | assumption] | ]).
  intros Hp. specialize (Hg1 Hp). split; [exact Hg1 | ].
  destruct (Hg1 (upos g1)) as [Hu0 Hu1].
  set (u := uniforms g1 (upos g1)) in *. clearbody u.
  apply (py_round_range _ 72 89 1); [reflexivity | reflexivity | ].
  split; lra.
Qed.





(** ** The forecaster's trading signal *)

Lemma py_round_pos_inv (x c : float) (n : nat) :
  0 <= c -> c < py_round x n -> 0 < x.
Proof.
  intros Hc H. destruct (Qlt_le_dec 0 x) as [Hx | Hx]; [exact Hx | ].
  apply (py_round_mono x 0 n) in Hx.
  assert (E : py_round 0 n == 0).
  { reflexivity. }
  lra.
Qed.

Lemma py_round_neg_inv (x c : float) (n : nat) :
  c <= 0 -> py_round x n < c -> x < 0.
Proof.
  intros Hc H. destruct (Qlt_le_dec x 0) as [Hx | Hx]; [exact Hx | ].
  apply (py_round_mono 0 x n) in Hx.
  assert (E : py_round 0 n == 0) by reflexivity.
  lra.
Qed.

Lemma classify_forecast_buy (change_pct conf : float) :
  fst (classify_forecast change_pct conf) = sig_buy
  \/ fst (classify_forecast change_pct conf) = sig_strong_buy ->
  0.5 < change_pct.
Proof.
  unfold classify_forecast.
  destruct (gtb change_pct 2) eqn:E2; simpl.
  - apply gtb_true in E2. intros _. lra.
  - destruct (gtb change_pct 0.5) eqn:E1; simpl.
    + apply gtb_true in E1. now intros _.
    + destruct (ltb change_pct (-2) && gtb conf 70); simpl;
        [intros [H | H]; discriminate | ].
      destruct (ltb change_pct (-0.5)); simpl; intros [H | H]; discriminate.
Qed.

Lemma classify_forecast_sell (change_pct conf : float) :
  fst (classify_forecast change_pct conf) = sig_sell
  \/ fst (classify_forecast change_pct conf) = sig_strong_sell ->
  change_pct < -0.5.
Proof.
  unfold classify_forecast.
  destruct (gtb change_pct 2 && gtb conf 70); simpl;
    [intros [H | H]; discriminate | ].
  destruct (gtb change_pct 0.5); simpl; [intros [H | H]; discriminate | ].
  destruct (ltb change_pct (-2)) eqn:E2; simpl.
  - apply ltb_true in E2. destruct (gtb conf 70); simpl.
    + intros _. lra.
    + destruct (ltb change_pct (-0.5)) eqn:E1; simpl.
      * apply ltb_true in E1. now intros _.
      * intros [H | H]; discriminate.
  - destruct (ltb change_pct (-0.5)) eqn:E1; simpl.
    + apply ltb_true in E1. now intros _.
    + intros [H | H]; discriminate.
Qed.

(** X25: the trading signal of the forecaster.  On fewer than ten prices the
    error of the forecast does not escape: the signal is a hold with
    confidence 0 and the generator is untouched.  On ten positive prices or
    more the signal carries a six-point forecast and its confidence, and it
    agrees with the forecast's direction: a buy or strong buy is always
    bullish, a sell or strong sell always bearish. *)
Theorem get_trading_signal_consistent {FS : FloatSqrt}
    (self : LSTMPredictor) (prices : list float) (g : rng) :
  ((len prices < 10)%Z ->
     get_trading_signal self prices g
     = Ret ({| ts_signal := sig_hold;
               ts_reason := reason_error "Insufficient data for prediction";
               ts_confidence := 0; ts_predicted_change := None;
               ts_analysis := None |}, g)) /\
  ((10 <= len prices)%Z -> Forall (fun p => 0 < p) prices ->
     exists ts f g',
       get_trading_signal self prices g = Ret (ts, g') /\
       ts_analysis ts = Some f /\ length (predictions f) = 6%nat /\
       ts_confidence ts = confidence f /\
       ts_predicted_change ts = Some (predicted_change_percent f) /\
       (ts_signal ts = sig_buy \/ ts_signal ts = sig_strong_buy ->
          fc_direction f = bullish) /\
       (ts_signal ts = sig_sell \/ ts_signal ts = sig_strong_sell ->
          fc_direction f = bearish)).
Proof.
  split.
  - intros Hlen. unfold get_trading_signal.
    erewrite bind_ret_M by (apply predict_price_short; exact Hlen).
    reflexivity.
  - intros Hlen Hpos.
    destruct (predict_price_run self prices 6 g False Hpos Hlen)
      as (f & g' & final & H & _ & Hcp & _ & HF & Hdir & Hpct & _);
      [lia | tauto | ].
    unfold get_trading_signal. erewrite bind_ret_M by exact H.
    eexists _, f, g'. split; [reflexivity | ]. simpl.
    split; [reflexivity | ]. split.
    { apply Forall2_length in HF. rewrite range_length in HF. lia. }
    split; [reflexivity | ]. split; [reflexivity | ].
    set (cp := fc_current_price f) in *.
    set (ratio := (final - cp) / cp) in *.
    split; intros Hsig.
    + apply classify_forecast_buy in Hsig. rewrite Hpct in Hsig.
      apply py_round_pos_inv in Hsig; [ | discriminate].
      assert (Hgt : cp < final).
      { destruct (Qlt_le_dec cp final) as [Hlt | Hge]; [exact Hlt | ].
        assert (ratio <= 0) by (apply Qle_shift_div_r; lra). lra. }
      rewrite Hdir. apply gtb_true in Hgt. now rewrite Hgt.
    + apply classify_forecast_sell in Hsig. rewrite Hpct in Hsig.
      apply py_round_neg_inv in Hsig; [ | discriminate].
      assert (Hle : final <= cp).
      { destruct (Qlt_le_dec cp final) as [Hlt | Hge]; [ | exact Hge].
        assert (0 <= ratio) by (apply Qle_shift_div_l; lra). lra. }
      rewrite Hdir. apply gtb_false in Hle. now rewrite Hle.
Qed.

Lemma get_trading_signal_consistent_witness :
  (10 <= len ten_prices)%Z /\ Forall (fun p => 0 < p) ten_prices /\
  exists ts f g',
    get_trading_signal (FS := sqrt6) sample_predictor ten_prices fixed_rng
    = Ret (ts, g') /\
    ts_analysis ts = Some f /\ length (predictions f) = 6%nat /\
    ts_confidence ts = confidence f /\
    ts_predicted_change ts = Some (predicted_change_percent f) /\
    (ts_signal ts = sig_buy \/ ts_signal ts = sig_strong_buy ->
       fc_direction f = bullish) /\
    (ts_signal ts = sig_sell \/ ts_signal ts = sig_strong_sell ->
       fc_direction f = bearish).
Proof.
  assert (H1 : Forall (fun p => 0 < p) ten_prices) by (repeat constructor).
  assert (H2 : (10 <= len ten_prices)%Z) by (vm_compute; discriminate).
  split; [exact H2 | ]. split; [exact H1 | ].
  exact (proj2 (get_trading_signal_consistent (FS := sqrt6) sample_predictor
                  ten_prices fixed_rng) H2 H1).
Defined.

(** ** The signal generator *)

Lemma score_rsi_range (rsi : float) : -0.8 <= _score_rsi rsi <= 0.8.
Proof.
  unfold _score_rsi.
  destruct (ltb rsi 30), (ltb rsi 40), (gtb rsi 70), (gtb rsi 60); lra.
Qed.

Lemma score_macd_range (m : macd_result) : -0.8 <= _score_macd m <= 0.8.
Proof.
  unfold _score_macd. cbv zeta.
  destruct (gtb (histogram m) 0.5), (gtb (histogram m) 0),
    (ltb (histogram m) (-0.5)), (ltb (histogram m) 0); lra.
Qed.

Lemma score_bollinger_range (price : float) (bb : bands) :
  -0.7 <= _score_bollinger price bb <= 0.7.
Proof.
  unfold _score_bollinger. cbv zeta.
  destruct (ltb _ 0.2); [lra | ]. destruct (gtb _ 0.8); lra.
Qed.

Lemma score_stochastic_range (stoch : stochastic) :
  -0.7 <= _score_stochastic stoch <= 0.7.
Proof.
  unfold _score_stochastic.
  destruct (ltb (pct_k stoch) 20), (gtb (pct_k stoch) 80); lra.
Qed.

Lemma score_ma_range (price sma20 sma50 ema12 : float) :
  -1 <= _score_ma price sma20 sma50 ema12 <= 1.
Proof.
  unfold _score_ma. cbv zeta. split.
  - apply py_max_ge_l.
  - apply py_max_le; [lra | apply py_min_le_l].
Qed.

Lemma score_lstm_signal_range (sig : signal_class) :
  -1 <= _score_lstm_signal sig <= 1.
Proof. destruct sig; simpl; lra. Qed.

Lemma weighted_total_bounds (s : scores) :
  -0.8 <= sc_rsi s <= 0.8 -> -0.8 <= sc_macd s <= 0.8 ->
  -0.7 <= sc_bollinger s <= 0.7 -> -0.7 <= sc_stochastic s <= 0.7 ->
  -1 <= sc_moving_averages s <= 1 -> -1 <= sc_lstm_prediction s <= 1 ->
  -0.87 <= weighted_total s <= 0.87.
Proof.
  intros H1 H2 H3 H4 H5 H6. unfold weighted_total, py_sum. simpl. lra.
Qed.

Lemma grade_bounds (t : float) :
  -0.87 <= t <= 0.87 ->
  50 <= snd (grade t) <= 91.75 /\
  (fst (grade t) = sig_strong_buy \/ fst (grade t) = sig_strong_sell ->
     snd (grade t) == 70 + Qabs t * 25 /\ 0.5 < Qabs t) /\
  (fst (grade t) = sig_buy \/ fst (grade t) = sig_sell ->
     snd (grade t) == 60 + Qabs t * 30 /\ 0.2 < Qabs t <= 0.5) /\
  (fst (grade t) = sig_hold ->
     snd (grade t) == 50 + Qabs t * 20 /\ Qabs t <= 0.2) /\
  (fst (grade t) = sig_strong_buy \/ fst (grade t) = sig_buy -> 0.2 < t) /\
  (fst (grade t) = sig_strong_sell \/ fst (grade t) = sig_sell -> t < -0.2).
Proof.
  intros [Hlo Hhi]. unfold grade.
  destruct (gtb t 0.5) eqn:E1; [apply gtb_true in E1 | apply gtb_false in E1].
  { assert (Ea : Qabs t == t) by (apply Qabs_pos; lra).
    assert (Em : py_min 95 (70 + t * 25) == 70 + t * 25).
    { unfold py_min. destruct (ltb _ 95) eqn:E; [reflexivity | ].
      apply ltb_false in E. lra. }
    simpl. rewrite Em, Ea.
    repeat apply conj; try lra; try (intros [H | H]; discriminate);
      try discriminate; intros _; lra || (split; lra). }
  destruct (gtb t 0.2) eqn:E2; [apply gtb_true in E2 | apply gtb_false in E2].
  { assert (Ea : Qabs t == t) by (apply Qabs_pos; lra).
    assert (Em : py_min 85 (60 + t * 30) == 60 + t * 30).
    { unfold py_min. destruct (ltb _ 85) eqn:E; [reflexivity | ].
      apply ltb_false in E. lra. }
    simpl. rewrite Em, Ea.
    repeat apply conj; try lra; try (intros [H | H]; discriminate);
      try discriminate; intros _; lra || (split; lra). }
  destruct (ltb t (-0.5)) eqn:E3; [apply ltb_true in E3 | apply ltb_false in E3].
  { assert (Ea : Qabs t == - t) by (apply Qabs_neg; lra).
    assert (Em : py_min 95 (70 + Qabs t * 25) == 70 + Qabs t * 25).
    { unfold py_min. destruct (ltb _ 95) eqn:E; [reflexivity | ].
      apply ltb_false in E. lra. }
    simpl. rewrite Em, Ea.
    repeat apply conj; try lra; try (intros [H | H]; discriminate);
      try discriminate; intros _; lra || (split; lra). }
  destruct (ltb t (-0.2)) eqn:E4; [apply ltb_true in E4 | apply ltb_false in E4].
  { assert (Ea : Qabs t == - t) by (apply Qabs_neg; lra).
    assert (Em : py_min 85 (60 + Qabs t * 30) == 60 + Qabs t * 30).
    { unfold py_min. destruct (ltb _ 85) eqn:E; [reflexivity | ].
      apply ltb_false in E. lra. }
    simpl. rewrite Em, Ea.
    repeat apply conj; try lra; try (intros [H | H]; discriminate);
      try discriminate; intros _; lra || (split; lra). }
  assert (Ea : Qabs t <= 0.2) by (apply Qabs_Qle_condition; lra).
  pose proof (Qabs_nonneg t) as Ha.
  simpl.
  repeat apply conj; try lra; try (intros [H | H]; discriminate);
    try discriminate; intros _; lra || (split; lra).
Qed.


Lemma index_last_nonempty {A : Type} (l : list A) :
  l <> [] -> exists x, index l (-1) = Ret x /\ last l = Some x.
Proof.
  intros Hl. destruct (last l) as [x | ] eqn:E.
  - exists x. split; [now apply index_last | reflexivity].
  - apply last_None in E. congruence.
Qed.

Lemma calculate_bollinger_bands_ret {FS : FloatSqrt}
    (prices : list float) (period : Z) :
  (1 <= period)%Z -> (period <= len prices)%Z ->
  exists b, calculate_bollinger_bands prices period = Ret b.
Proof.
  intros Hp Hlen. unfold calculate_bollinger_bands.
  replace (len prices <? period)%Z with false
    by (symmetry; apply Z.ltb_ge; lia).
  assert (Hne : slice_from prices (- period) <> []).
  { apply slice_from_last_nonempty; [exact Hp | ].
    destruct prices; [unfold len in Hlen; simpl in Hlen; lia | discriminate]. }
  rewrite np_mean_mean by exact Hne. cbn [mbind res_bind].
  destruct (np_std_nonneg _ Hne) as (s & -> & _). cbn [mbind res_bind].
  eauto.
Qed.

Lemma calculate_stochastic_ret (high low close : list float) (period : Z) :
  (1 <= period)%Z -> high <> [] -> low <> [] -> close <> [] ->
  exists r, calculate_stochastic high low close period = Ret r.
Proof.
  intros Hp Hh Hl Hc. unfold calculate_stochastic.
  destruct (len close <? period)%Z; [eauto | ].
  pose proof (slice_from_last_nonempty low period Hp Hl) as Hl'.
  pose proof (slice_from_last_nonempty high period Hp Hh) as Hh'.
  destruct (slice_from low (- period)) as [ | l0 lt]; [congruence | ].
  destruct (slice_from high (- period)) as [ | h0 ht]; [congruence | ].
  cbn [list_min list_max mbind res_bind].
  destruct (Qeq_bool _ _) eqn:E; [cbn [mbind res_bind]; eauto | ].
  apply Qeq_bool_false in E.
  destruct (index_last_nonempty close Hc) as (c & -> & _).
  cbn [mbind res_bind].
  rewrite py_div_nonzero by (intros H; apply E; lra).
  cbn [mbind res_bind]. eauto.
Qed.

Lemma calculate_sma_last (prices : list float) (period : Z) :
  (1 <= period)%Z -> (period <= len prices)%Z ->
  exists x, last_of (calculate_sma prices period) = Ret x.
Proof.
  intros Hp Hlen. unfold last_of, calculate_sma.
  replace (len prices <? period)%Z with false
    by (symmetry; apply Z.ltb_ge; lia).
  erewrite rmap_ret
    with (g := fun i : Z => sma_claimed prices period (Z.to_nat i))
    by (intros i Hi; apply in_range in Hi; apply sma_window; lia).
  cbn [mbind res_bind].
  destruct (index_last_nonempty
              (map (fun i : Z => sma_claimed prices period (Z.to_nat i))
                   (range 0 (len prices)))) as (x & H & _).
  - intros E. apply (f_equal (@length _)) in E.
    rewrite length_map, range_length in E. simpl in E. lia.
  - eauto.
Qed.

Lemma calculate_ema_last (prices : list float) (period : Z) :
  period <> (-1)%Z -> prices <> [] ->
  exists x, last_of (calculate_ema prices period) = Ret x.
Proof.
  intros Hp Hne. destruct prices as [ | p0 rest]; [congruence | ].
  unfold last_of. rewrite calculate_ema_run by exact Hp.
  cbn [mbind res_bind].
  destruct (index_last_nonempty (p0 :: ema_loop (2 / inject_Z (period + 1))
                                                p0 rest)) as (x & H & _);
    [discriminate | eauto].
Qed.

Lemma get_trading_signal_run {FS : FloatSqrt} (self : LSTMPredictor)
    (prices : list float) (g : rng) :
  Forall (fun p => 0 < p) prices -> (10 <= len prices)%Z ->
  exists ts g', get_trading_signal self prices g = Ret (ts, g').
Proof.
  intros Hpos Hlen.
  destruct (predict_price_run self prices 6 g False Hpos Hlen)
    as (f & g' & final & H & _); [lia | tauto | ].
  unfold get_trading_signal. erewrite bind_ret_M by exact H.
  eexists _, _. reflexivity.
Qed.

Lemma generate_comprehensive_signal_run {FS : FloatSqrt}
    (sym trained_at timestamp : string) (data : price_data) (g : rng) :
  let prices := default [] (pd_close data) in
  (20 <= len prices)%Z -> Forall (fun p => 0 < p) prices ->
  pd_high data <> Some [] -> pd_low data <> Some [] ->
  exists s g',
    generate_comprehensive_signal sym data trained_at timestamp g
    = Ret (Signal s, g') /\
    cs_symbol s = sym /\
    last prices = Some (cs_current_price s) /\
    -0.87 <= cs_overall_score s <= 0.87 /\
    50 <= cs_confidence s <= 91.8 /\
    (cs_signal s = sig_strong_buy \/ cs_signal s = sig_buy ->
       0.2 <= cs_overall_score s) /\
    (cs_signal s = sig_strong_sell \/ cs_signal s = sig_sell ->
       cs_overall_score s <= -0.2).
Proof.
  intros prices Hlen Hpos Hhigh Hlow.
  assert (Hne : prices <> []).
  { intros E. rewrite E in Hlen. unfold len in Hlen. simpl in Hlen. lia. }
  assert (Hh : default prices (pd_high data) <> []).
  { destruct (pd_high data) as [h | ]; simpl; [congruence | exact Hne]. }
  assert (Hl : default prices (pd_low data) <> []).
  { destruct (pd_low data) as [l | ]; simpl; [congruence | exact Hne]. }
  unfold generate_comprehensive_signal. fold prices.
  replace (len prices <? 20)%Z with false by (symmetry; apply Z.ltb_ge; lia).
  destruct (calculate_rsi_range prices 14) as (rsi & Hrsi & Hr).
  erewrite bind_lift_M by exact Hrsi.
  destruct (calculate_macd_returns prices) as (mc & Hmc).
  erewrite bind_lift_M by exact Hmc.
  destruct (calculate_bollinger_bands_ret prices 20) as (bb & Hbb);
    [lia | lia | ].
  erewrite bind_lift_M by exact Hbb.
  destruct (calculate_stochastic_ret (default prices (pd_high data))
              (default prices (pd_low data)) prices 14) as (st & Hst);
    [lia | exact Hh | exact Hl | exact Hne | ].
  erewrite bind_lift_M by exact Hst.
  destruct (calculate_sma_last prices 20) as (s20 & Hs20); [lia | lia | ].
  erewrite bind_lift_M by exact Hs20.
  assert (Hs50 : exists s50,
             (if (50 <=? len prices)%Z
              then last_of (calculate_sma prices 50) else Ret s20)
             = Ret s50).
  { destruct (Z.leb_spec 50 (len prices)) as [H50 | H50]; [ | eauto].
    apply calculate_sma_last; lia. }
  destruct Hs50 as (s50 & Hs50).
  erewrite bind_lift_M by exact Hs50.
  destruct (calculate_ema_last prices 12) as (e12 & He12);
    [lia | exact Hne | ].
  erewrite bind_lift_M by exact He12.
  destruct (index_last_nonempty prices Hne) as (cp & Hcp & Hlast).
  erewrite bind_lift_M by exact Hcp.
  erewrite bind_ret_M by reflexivity.
  match goal with
  | |- context [get_trading_signal ?p prices ≫= _] => set (lstm := p)
  end.
  match goal with
  | |- context [(_ ≫= _) ?g0] => set (g1 := g0)
  end.
  destruct (get_trading_signal_run lstm prices g1 Hpos) as (ts & g' & Hts);
    [lia | ].
  erewrite bind_ret_M by exact Hts.
  set (total := weighted_total _).
  assert (Ht : -0.87 <= total <= 0.87).
  { apply weighted_total_bounds; simpl.
    - apply score_rsi_range.
    - apply score_macd_range.
    - apply score_bollinger_range.
    - apply score_stochastic_range.
    - apply score_ma_range.
    - apply score_lstm_signal_range. }
  destruct (grade_bounds total Ht) as (Hc & _ & _ & _ & Hbuy & Hsell).
  eexists _, g'. split; [reflexivity | ]. simpl.
  split; [reflexivity | ]. split; [exact Hlast | ].
  split; [apply py_round_range; [reflexivity | reflexivity | exact Ht] | ].
  split.
  { destruct Hc as [Hc1 Hc2].
    apply (py_round_mono _ _ 1) in Hc1. apply (py_round_mono _ _ 1) in Hc2.
    assert (E1 : py_round 50 1 == 50) by reflexivity.
    assert (E2 : py_round 91.75 1 == 91.8) by reflexivity.
    lra. }
  split; intros Hsig.
  + apply Hbuy in Hsig. apply Qlt_le_weak in Hsig.
    apply (py_round_mono _ _ 3) in Hsig.
    assert (E : py_round 0.2 3 == 0.2) by reflexivity. lra.
  + apply Hsell in Hsig. apply Qlt_le_weak in Hsig.
    apply (py_round_mono _ _ 3) in Hsig.
    assert (E : py_round (-0.2) 3 == -0.2) by reflexivity. lra.
Qed.

(** X27: the comprehensive signal.  On fewer than twenty closing prices (or
    none) the function answers the error dict with a hold and draws
    nothing.  On twenty positive closing prices or more, with the high and
    low lists absent or not empty, it always returns a signal: for the
    symbol asked, priced at the last close, its overall score in
    [-0.87, 0.87] and its confidence in [50, 91.8]; a buy or strong buy has
    a score of at least 0.2, a sell or strong sell one of at most -0.2. *)
Theorem generate_comprehensive_signal_outcome {FS : FloatSqrt}
    (sym trained_at timestamp : string) (data : price_data) (g : rng) :
  let prices := default [] (pd_close data) in
  ((len prices < 20)%Z ->
     generate_comprehensive_signal sym data trained_at timestamp g
     = Ret (SignalError "Insufficient price data" sig_hold, g)) /\
  ((20 <= len prices)%Z -> Forall (fun p => 0 < p) prices ->
   pd_high data <> Some [] -> pd_low data <> Some [] ->
     exists s g',
       generate_comprehensive_signal sym data trained_at timestamp g
       = Ret (Signal s, g') /\
       cs_symbol s = sym /\
       last prices = Some (cs_current_price s) /\
       -0.87 <= cs_overall_score s <= 0.87 /\
       50 <= cs_confidence s <= 91.8 /\
       (cs_signal s = sig_strong_buy \/ cs_signal s = sig_buy ->
          0.2 <= cs_overall_score s) /\
       (cs_signal s = sig_strong_sell \/ cs_signal s = sig_sell ->
          cs_overall_score s <= -0.2)).
Proof.
  intros prices. split.
  - intros Hlen. unfold generate_comprehensive_signal. fold prices.
    replace (len prices <? 20)%Z with true by (symmetry; apply Z.ltb_lt; lia).
    reflexivity.
  - apply generate_comprehensive_signal_run.
Qed.

Lemma generate_comprehensive_signal_outcome_witness :
  (20 <= len (default [] (pd_close sample_price_data)))%Z /\
  Forall (fun p => 0 < p) (default [] (pd_close sample_price_data)) /\
  pd_high sample_price_data <> Some [] /\
  pd_low sample_price_data <> Some [] /\
  exists s g',
    generate_comprehensive_signal (FS := sqrt6) "BTC" sample_price_data
      "2024-01-01T00:00:00" "2024-01-02T00:00:00" fixed_rng
    = Ret (Signal s, g') /\
    cs_symbol s = "BTC" /\
    last (default [] (pd_close sample_price_data))
    = Some (cs_current_price s) /\
    -0.87 <= cs_overall_score s <= 0.87 /\
    50 <= cs_confidence s <= 91.8 /\
    (cs_signal s = sig_strong_buy \/ cs_signal s = sig_buy ->
       0.2 <= cs_overall_score s) /\
    (cs_signal s = sig_strong_sell \/ cs_signal s = sig_sell ->
       cs_overall_score s <= -0.2).
Proof.
  assert (H1 : (20 <= len (default [] (pd_close sample_price_data)))%Z)
    by (vm_compute; discriminate).
  assert (H2 : Forall (fun p => 0 < p)
                 (default [] (pd_close sample_price_data)))
    by (repeat constructor).
  assert (H3 : pd_high sample_price_data <> Some []) by discriminate.
  assert (H4 : pd_low sample_price_data <> Some []) by discriminate.
  split; [exact H1 | ]. split; [exact H2 | ].
  split; [exact H3 | ]. split; [exact H4 | ].
  exact (proj2 (generate_comprehensive_signal_outcome (FS := sqrt6) "BTC"
                  "2024-01-01T00:00:00" "2024-01-02T00:00:00"
                  sample_price_data fixed_rng) H1 H2 H3 H4).
Defined.

(** ** The sentiment analyzer *)

Lemma floor_scaled_range (u : Q) (k : Z) :
  0 <= u -> u < 1 -> (0 < k)%Z ->
  (0 <= Qfloor (u * inject_Z k) < k)%Z.
Proof.
  intros H0 H1 Hk.
  assert (Hq : 0 < inject_Z k)
    by (change 0 with (inject_Z 0); now rewrite <- Zlt_Qlt).
  split.
  - change 0%Z with (Qfloor 0). apply Qfloor_resp_le.
    apply Qmult_le_0_compat; lra.
  - pose proof (Qfloor_le (u * inject_Z k)) as Hf.
    assert (Hlt : u * inject_Z k < inject_Z k).
    { setoid_replace (inject_Z k) with (1 * inject_Z k) using relation Qeq
        at 2 by ring.
      apply Qmult_lt_compat_r; assumption. }
    assert (H : inject_Z (Qfloor (u * inject_Z k)) < inject_Z k) by lra.
    now rewrite <- Zlt_Qlt in H.
Qed.

Lemma random_randint_run (a b : Z) (g : rng) :
  rng_ok g -> (a <= b)%Z ->
  exists n g',
    random_randint a b g = Ret (n, g') /\ (a <= n <= b)%Z /\ rng_ok g'.
Proof.
  intros Hg Hab. unfold random_randint.
  erewrite bind_ret_M by reflexivity.
  destruct (Hg (upos g)) as [H0 H1].
  eexists _, _. split; [reflexivity | ]. split; [ | exact Hg].
  pose proof (floor_scaled_range _ (b - a + 1) H0 H1) as H. lia.
Qed.

Lemma random_choice_run {A : Type} (l : list A) (g : rng) :
  rng_ok g -> l <> [] ->
  exists x g', random_choice l g = Ret (x, g') /\ In x l /\ rng_ok g'.
Proof.
  intros Hg Hl. unfold random_choice.
  erewrite bind_ret_M by reflexivity.
  destruct (Hg (upos g)) as [H0 H1].
  destruct (index_Forall (fun x => In x l) l
              (Qfloor (uniforms g (upos g) * inject_Z (len l))))
    as (x & Hx & Hin).
  - apply Forall_forall. intros y Hy. now apply list_elem_of_In.
  - assert (Hlen : (0 < len l)%Z)
      by (destruct l; [congruence | unfold len; simpl; lia]).
    pose proof (floor_scaled_range _ (len l) H0 H1 Hlen). lia.
  - eexists _, _. split; [apply lift_ret; exact Hx | ].
    split; [exact Hin | exact Hg].
Qed.

(** X28: with uniform draws in [0, 1) the sentiment report is always produced:
    the three sentiment components lie in [-1, 1], the volume component in
    [-0.5, 0.5], the overall sentiment in [-0.92, 0.92] (the weights sum to
    0.925 at most, which rounds down), the fear and greed index in
    [20, 80]; a bullish mood has an overall sentiment of at least 0.3, a
    bearish one of at most -0.3, a neutral one lies between the two. *)
Theorem get_market_sentiment_ranges (sym timestamp : string) (g : rng) :
  rng_ok g ->
  exists s g',
    get_market_sentiment sym timestamp g = Ret (s, g') /\ rng_ok g' /\
    st_symbol s = sym /\
    -1 <= market_sentiment s <= 1 /\ -1 <= news_sentiment s <= 1 /\
    -1 <= social_sentiment s <= 1 /\ -0.5 <= volume_sentiment s <= 0.5 /\
    -0.92 <= overall_sentiment s <= 0.92 /\
    (20 <= fear_greed_index s <= 80)%Z /\
    match st_mood s with
    | mood_bullish => 0.3 <= overall_sentiment s
    | mood_bearish => overall_sentiment s <= -0.3
    | mood_neutral => -0.3 <= overall_sentiment s <= 0.3
    end.
Proof.
  intros Hg. unfold get_market_sentiment.
  destruct (random_uniform_range (-1) 1 g Hg) as (x1 & g1 & E1 & L1 & U1 & Hg1);
    [lra | ].
  erewrite bind_ret_M by exact E1.
  destruct (random_uniform_range (-1) 1 g1 Hg1)
    as (x2 & g2 & E2 & L2 & U2 & Hg2); [lra | ].
  erewrite bind_ret_M by exact E2.
  destruct (random_uniform_range (-1) 1 g2 Hg2)
    as (x3 & g3 & E3 & L3 & U3 & Hg3); [lra | ].
  erewrite bind_ret_M by exact E3.
  destruct (random_uniform_range (-0.5) 0.5 g3 Hg3)
    as (x4 & g4 & E4 & L4 & U4 & Hg4); [lra | ].
  erewrite bind_ret_M by exact E4.
  destruct (random_randint_run 20 80 g4 Hg4) as (fg & g5 & E5 & Hfg & Hg5);
    [lia | ].
  erewrite bind_ret_M by exact E5.
  destruct (random_choice_run
              [impact_positive; impact_negative; impact_neutral] g5 Hg5)
    as (ni & g6 & E6 & _ & Hg6); [discriminate | ].
  erewrite bind_ret_M by exact E6.
  eexists _, g6. split; [reflexivity | ]. simpl.
  split; [exact Hg6 | ]. split; [reflexivity | ].
  set (overall := x1 * 0.3 + x2 * 0.3 + x3 * 0.25 + x4 * 0.15).
  assert (Ho : -0.925 <= overall <= 0.925) by (unfold overall; lra).
  repeat apply conj;
    try (apply py_round_mono with (n := 2%nat) in L1, U1, L2, U2, L3, U3,
           L4, U4;
         assert (py_round (-1) 2 == -1) by reflexivity;
         assert (py_round 1 2 == 1) by reflexivity;
         assert (py_round (-0.5) 2 == -0.5) by reflexivity;
         assert (py_round 0.5 2 == 0.5) by reflexivity; lra);
    try lia.
  - destruct Ho as [Ho _]. apply (py_round_mono _ _ 2) in Ho.
    assert (E : py_round (-0.925) 2 == -0.92) by reflexivity. lra.
  - destruct Ho as [_ Ho]. apply (py_round_mono _ _ 2) in Ho.
    assert (E : py_round 0.925 2 == 0.92) by reflexivity. lra.
  - destruct (gtb overall 0.3) eqn:B1.
    { apply gtb_true, Qlt_le_weak in B1. apply (py_round_mono _ _ 2) in B1.
      assert (E : py_round 0.3 2 == 0.3) by reflexivity. lra. }
    apply gtb_false in B1. apply (py_round_mono _ _ 2) in B1.
    assert (R3 : py_round 0.3 2 == 0.3) by reflexivity.
    destruct (ltb overall (-0.3)) eqn:B2.
    { apply ltb_true, Qlt_le_weak in B2. apply (py_round_mono _ _ 2) in B2.
      assert (E : py_round (-0.3) 2 == -0.3) by reflexivity. lra. }
    apply ltb_false in B2. apply (py_round_mono _ _ 2) in B2.
    assert (E : py_round (-0.3) 2 == -0.3) by reflexivity. lra.
Qed.

Lemma get_market_sentiment_ranges_witness :
  rng_ok fixed_rng /\
  exists s g',
    get_market_sentiment "BTC" "2024-01-01T00:00:00" fixed_rng
    = Ret (s, g') /\ rng_ok g' /\
    st_symbol s = "BTC" /\
    -1 <= market_sentiment s <= 1 /\ -1 <= news_sentiment s <= 1 /\
    -1 <= social_sentiment s <= 1 /\ -0.5 <= volume_sentiment s <= 0.5 /\
    -0.92 <= overall_sentiment s <= 0.92 /\
    (20 <= fear_greed_index s <= 80)%Z /\
    match st_mood s with
    | mood_bullish => 0.3 <= overall_sentiment s
    | mood_bearish => overall_sentiment s <= -0.3
    | mood_neutral => -0.3 <= overall_sentiment s <= 0.3
    end.
Proof.
  split; [exact fixed_rng_ok | ].
  exact (get_market_sentiment_ranges "BTC" "2024-01-01T00:00:00" fixed_rng
           fixed_rng_ok).
Defined.

(** ** The generated price history *)

Lemma random_uniform_eq (a b : float) (g : rng) :
  random_uniform a b g
  = Ret (a + (b - a) * uniforms g (upos g),
         {| uniforms := uniforms g; normals := normals g;
            upos := S (upos g); npos := npos g |}).
Proof. reflexivity. Qed.

Lemma random_gauss_eq (mu sigma : float) (g : rng) :
  random_gauss mu sigma g
  = Ret (mu + normals g (npos g) * sigma,
         {| uniforms := uniforms g; normals := normals g;
            upos := upos g; npos := S (npos g) |}).
Proof. reflexivity. Qed.

Lemma next_bar_run (current : float) (g : rng) :
  exists b g',
    next_bar current g = Ret (b, g') /\ bar_open b = current /\
    uniforms g' = uniforms g /\ normals g' = normals g /\
    (rng_ok g -> 0 < current -> -25 <= normals g (npos g) ->
       0 < bar_low b /\ bar_low b <= bar_open b /\ bar_low b <= bar_close b /\
       bar_open b <= bar_high b /\ bar_close b <= bar_high b /\
       1000000 <= bar_volume b <= 50000000).
Proof.
  unfold next_bar.
  erewrite bind_ret_M by apply random_uniform_eq.
  erewrite bind_ret_M by apply random_gauss_eq.
  erewrite bind_ret_M by apply random_uniform_eq.
  erewrite bind_ret_M by apply random_uniform_eq.
  erewrite bind_ret_M by apply random_uniform_eq.
  eexists _, _. split; [reflexivity | ].
  cbn [bar_open bar_high bar_low bar_close bar_volume
       uniforms normals upos npos].
  split; [reflexivity | ]. split; [reflexivity | ]. split; [reflexivity | ].
  intros Hg Hcur Hz.
  destruct (Hg (upos g)) as [A0 A1]. destruct (Hg (S (upos g))) as [B0 B1].
  destruct (Hg (S (S (upos g)))) as [C0 C1].
  destruct (Hg (S (S (S (upos g))))) as [D0 D1].
  set (u0 := uniforms g (upos g)) in *.
  set (u1 := uniforms g (S (upos g))) in *.
  set (u2 := uniforms g (S (S (upos g)))) in *.
  set (u3 := uniforms g (S (S (S (upos g))))) in *.
  set (z := normals g (npos g)) in *.
  set (vol := 0.01 + (0.04 - 0.01) * u0).
  assert (Hvol : 0.01 <= vol /\ vol < 0.04) by (unfold vol; lra).
  assert (Hch : -1 < 0 + z * vol).
  { assert (H : 0 <= (z + 25) * vol) by (apply Qmult_le_0_compat; lra).
    assert (E : (z + 25) * vol == z * vol + 25 * vol) by ring. lra. }
  set (close := current * (1 + (0 + z * vol))).
  assert (Hclose : 0 < close) by (apply Qmult_lt_0_compat; lra).
  set (hi := py_max current close). set (lo := py_min current close).
  assert (Hhi : current <= hi /\ close <= hi)
    by (split; [apply py_max_ge_l | apply py_max_ge_r]).
  assert (Hlo : lo <= current /\ lo <= close /\ 0 < lo).
  { split; [apply py_min_le_l | ]. split; [apply py_min_le_r | ].
    unfold lo, py_min. now destruct (ltb close current). }
  assert (H1 : 0 <= hi * ((0.02 - 0) * u1)) by (apply Qmult_le_0_compat; lra).
  assert (E1 : hi * (1 + (0 + (0.02 - 0) * u1))
               == hi + hi * ((0.02 - 0) * u1)) by ring.
  assert (H2 : 0 <= lo * ((0.02 - 0) * u2)) by (apply Qmult_le_0_compat; lra).
  assert (E2 : lo * (1 - (0 + (0.02 - 0) * u2))
               == lo - lo * ((0.02 - 0) * u2)) by ring.
  assert (H3 : 0 < lo * (1 - (0 + (0.02 - 0) * u2)))
    by (apply Qmult_lt_0_compat; lra).
  repeat apply conj; try lra.
Qed.

Lemma price_bars_run (days : nat) (current : float) (g : rng) (P : Prop) :
  (P -> rng_ok g /\ 0 < current /\ forall n, -25 <= normals g n) ->
  exists bars g',
    price_bars days current g = Ret (bars, g') /\
    length bars = days /\ chained current bars /\
    (P -> Forall bar_ok bars /\ rng_ok g').
Proof.
  revert current g. induction days as [ | n IH]; intros current g H.
  { exists [], g. split; [reflexivity | ]. split; [reflexivity | ].
    split; [exact I | ]. intros HP. split; [constructor | now apply H]. }
  destruct (next_bar_run current g) as (b & g1 & Hb & Ho & Hu & Hn & Hok).
  destruct (IH (bar_close b) g1) as (rest & g' & Hr & Hlen & Hch & Hrest).
  { intros HP. destruct (H HP) as (Hg & Hc & Hz).
    destruct (Hok Hg Hc (Hz _)) as (H1 & H2 & H3 & _).
    split; [ | split; [lra | now rewrite Hn]].
    intros k. rewrite Hu. apply Hg. }
  exists (b :: rest), g'. simpl.
  erewrite bind_ret_M by exact Hb. erewrite bind_ret_M by exact Hr.
  split; [reflexivity | ]. split; [now rewrite Hlen | ].
  split; [now split | ].
  intros HP. destruct (H HP) as (Hg & Hc & Hz).
  destruct (Hrest HP) as [HF Hg']. split; [ | exact Hg'].
  constructor; [ | exact HF]. apply Hok; [exact Hg | exact Hc | apply Hz].
Qed.

Lemma chained_lookup (current : float) (bars : list bar) (i : nat)
    (b b' : bar) :
  chained current bars ->
  bars !! i = Some b -> bars !! S i = Some b' -> bar_open b' = bar_close b.
Proof.
  revert current i. induction bars as [ | b0 rest IH]; intros current i Hc Hi Hi';
    [discriminate | ].
  destruct Hc as [_ Hc]. destruct i as [ | i].
  - injection Hi as <-. destruct rest as [ | b1 rest']; [discriminate | ].
    injection Hi' as <-. now destruct Hc.
  - exact (IH _ i Hc Hi Hi').
Qed.

Lemma generate_price_history_run (base_price : float) (days : Z) (g : rng)
    (P : Prop) :
  (P -> rng_ok g /\ 0 < base_price /\ forall n, -25 <= normals g n) ->
  exists bars g',
    generate_price_history base_price days g
    = Ret ({| ph_open := map bar_open bars; ph_high := map bar_high bars;
              ph_low := map bar_low bars; ph_close := map bar_close bars;
              ph_volume := map bar_volume bars |}, g') /\
    length bars = Z.to_nat days /\ chained base_price bars /\
    (P -> Forall bar_ok bars /\ rng_ok g').
Proof.
  intros H.
  destruct (price_bars_run (Z.to_nat days) base_price g P H)
    as (bars & g' & Hb & Hlen & Hch & HP).
  exists bars, g'. unfold generate_price_history.
  erewrite bind_ret_M by exact Hb. auto.
Qed.

(** X29: the generated history is five lists of [days] entries each (none for a
    negative [days]); the first bar opens at the base price and every later
    bar opens where the one before it closed.  With uniform draws in
    [0, 1), a positive base price and no normal variate below -25, every
    bar has a positive low that is not above its open and its close, a high
    that is not below them, and a volume between one and fifty million. *)
Theorem generate_price_history_bars (base_price : float) (days : Z)
    (g : rng) :
  exists h g',
    generate_price_history base_price days g = Ret (h, g') /\
    (length (ph_open h) = Z.to_nat days /\
     length (ph_high h) = Z.to_nat days /\
     length (ph_low h) = Z.to_nat days /\
     length (ph_close h) = Z.to_nat days /\
     length (ph_volume h) = Z.to_nat days) /\
    ((0 < days)%Z -> head (ph_open h) = Some base_price) /\
    (forall i c o,
       ph_close h !! i = Some c -> ph_open h !! S i = Some o -> o = c) /\
    (rng_ok g -> 0 < base_price -> (forall n, -25 <= normals g n) ->
     forall i o hi lo c v,
       ph_open h !! i = Some o -> ph_high h !! i = Some hi ->
       ph_low h !! i = Some lo -> ph_close h !! i = Some c ->
       ph_volume h !! i = Some v ->
       0 < lo /\ lo <= o /\ lo <= c /\ o <= hi /\ c <= hi /\
       1000000 <= v <= 50000000).
Proof.
  destruct (generate_price_history_run base_price days g
              (rng_ok g /\ 0 < base_price /\ forall n, -25 <= normals g n))
    as (bars & g' & H & Hlen & Hch & HP); [tauto | ].
  eexists _, g'. split; [exact H | ]. simpl.
  split; [now rewrite !length_map | ]. split.
  { intros Hd. destruct bars as [ | b rest]; [simpl in Hlen; lia | ].
    destruct Hch as [Hb0 _]. simpl. now rewrite Hb0. }
  split.
  { intros i c o Hc Ho. rewrite list_lookup_fmap in Hc, Ho.
    destruct (bars !! i) as [b | ] eqn:Eb; [ | discriminate].
    destruct (bars !! S i) as [b' | ] eqn:Eb'; [ | discriminate].
    injection Hc as <-. injection Ho as <-.
    exact (chained_lookup _ _ _ _ _ Hch Eb Eb'). }
  intros Hg Hb Hz i o hi lo c v Ho Hhi Hlo Hc Hv.
  destruct HP as [HF _]; [tauto | ].
  rewrite list_lookup_fmap in Ho, Hhi, Hlo, Hc, Hv.
  destruct (bars !! i) as [b | ] eqn:Eb; [ | discriminate].
  injection Ho as <-. injection Hhi as <-. injection Hlo as <-.
  injection Hc as <-. injection Hv as <-.
  rewrite Forall_forall in HF. apply HF.
  apply list_elem_of_lookup. now exists i.
Qed.

Lemma generate_price_history_bars_witness :
  rng_ok fixed_rng /\ 0 < 100 /\ (forall n, -25 <= normals fixed_rng n) /\
  exists h g',
    generate_price_history 100 3 fixed_rng = Ret (h, g') /\
    (length (ph_open h) = Z.to_nat 3 /\
     length (ph_high h) = Z.to_nat 3 /\
     length (ph_low h) = Z.to_nat 3 /\
     length (ph_close h) = Z.to_nat 3 /\
     length (ph_volume h) = Z.to_nat 3) /\
    ((0 < 3)%Z -> head (ph_open h) = Some 100) /\
    (forall i c o,
       ph_close h !! i = Some c -> ph_open h !! S i = Some o -> o = c) /\
    (forall i o hi lo c v,
       ph_open h !! i = Some o -> ph_high h !! i = Some hi ->
       ph_low h !! i = Some lo -> ph_close h !! i = Some c ->
       ph_volume h !! i = Some v ->
       0 < lo /\ lo <= o /\ lo <= c /\ o <= hi /\ c <= hi /\
       1000000 <= v <= 50000000).
Proof.
  assert (Hz : forall n, -25 <= normals fixed_rng n).
  { intros n. unfold Qle. simpl. lia. }
  split; [exact fixed_rng_ok | ]. split; [reflexivity | ].
  split; [exact Hz | ].
  destruct (generate_price_history_bars 100 3 fixed_rng)
    as (h & g' & H & Hlen & Hhd & Hch & Hbars).
  exists h, g'. split; [exact H | ]. split; [exact Hlen | ].
  split; [exact Hhd | ]. split; [exact Hch | ].
  exact (Hbars fixed_rng_ok eq_refl Hz).
Defined.

(** X30: the views chain the two: a generated history of twenty days or more,
    from a positive base price, with uniform draws in [0, 1) and no normal
    variate below -25, always yields a full signal, never the error dict
    and never an exception; it is priced at the last generated close. *)
Theorem price_history_signal_pipeline {FS : FloatSqrt}
    (sym trained_at timestamp : string) (base_price : float) (days : Z)
    (g : rng) :
  rng_ok g -> 0 < base_price -> (forall n, -25 <= normals g n) ->
  (20 <= days)%Z ->
  exists h g1 s g',
    generate_price_history base_price days g = Ret (h, g1) /\
    generate_comprehensive_signal sym (as_price_data h) trained_at
      timestamp g1
    = Ret (Signal s, g') /\
    cs_symbol s = sym /\
    last (ph_close h) = Some (cs_current_price s) /\
    0 < cs_current_price s /\
    50 <= cs_confidence s <= 91.8.
Proof.
  intros Hg Hb Hz Hd.
  destruct (generate_price_history_run base_price days g True)
    as (bars & g1 & H & Hlen & _ & HP); [auto | ].
  destruct HP as [HF _]; [exact I | ].
  set (h := {| ph_open := map bar_open bars |}) in H.
  assert (Hpos : Forall (fun p => 0 < p) (ph_close h)).
  { simpl. apply Forall_map. eapply Forall_impl; [exact HF | ].
    intros b (H1 & _ & H3 & _). simpl. lra. }
  destruct (generate_comprehensive_signal_run sym trained_at timestamp
              (as_price_data h) g1)
    as (s & g' & Hs & Hsym & Hlast & _ & Hconf & _).
  - simpl. unfold len. rewrite length_map. lia.
  - exact Hpos.
  - simpl. intros E. injection E as E. apply (f_equal (@length _)) in E.
    rewrite length_map in E. simpl in E. lia.
  - simpl. intros E. injection E as E. apply (f_equal (@length _)) in E.
    rewrite length_map in E. simpl in E. lia.
  - exists h, g1, s, g'. split; [exact H | ]. split; [exact Hs | ].
    split; [exact Hsym | ]. split; [exact Hlast | ].
    split; [ | exact Hconf].
    simpl in Hlast. apply last_Some_elem_of in Hlast.
    rewrite Forall_forall in Hpos. exact (Hpos _ Hlast).
Qed.

Lemma price_history_signal_pipeline_witness :
  rng_ok fixed_rng /\ 0 < 100 /\ (forall n, -25 <= normals fixed_rng n) /\
  (20 <= 20)%Z /\
  exists h g1 s g',
    generate_price_history 100 20 fixed_rng = Ret (h, g1) /\
    generate_comprehensive_signal (FS := sqrt6) "BTC" (as_price_data h)
      "2024-01-01T00:00:00" "2024-01-02T00:00:00" g1
    = Ret (Signal s, g') /\
    cs_symbol s = "BTC" /\
    last (ph_close h) = Some (cs_current_price s) /\
    0 < cs_current_price s /\
    50 <= cs_confidence s <= 91.8.
Proof.
  assert (Hz : forall n, -25 <= normals fixed_rng n).
  { intros n. unfold Qle. simpl. lia. }
  assert (Hd : (20 <= 20)%Z) by lia.
  split; [exact fixed_rng_ok | ]. split; [reflexivity | ].
  split; [exact Hz | ]. split; [exact Hd | ].
  exact (price_history_signal_pipeline (FS := sqrt6) "BTC"
           "2024-01-01T00:00:00" "2024-01-02T00:00:00" 100 20 fixed_rng
           fixed_rng_ok eq_refl Hz Hd).
Defined.

(** * Unguarded divisions *)

Lemma trend_zero_divisor (prices : list float) (n : Z) (z : float) :
  (1 <= n <= len prices)%Z -> index prices (- n) = Ret z -> z == 0 ->
  trend prices n = Raise ZeroDivisionError.
Proof.
  intros Hn Hz Hz0. unfold trend.
  replace (n <=? len prices)%Z with true by (symmetry; apply Z.leb_le; lia).
  destruct (index_Forall (fun _ => True) prices (-1)) as (a & -> & _);
    [now apply Forall_forall | lia | ].
  rewrite Hz. cbn [mbind res_bind]. now apply py_div_zero.
Qed.

Lemma bind_raise_M {A B : Type} (c : M A) (f : A -> M B) (g : rng)
    (e : exn) :
  c g = Raise e -> (c ≫= f) g = Raise e.
Proof. intros H. unfold mbind, M_bind. now rewrite H. Qed.

Lemma lift_raise {A : Type} (c : res A) (e : exn) (g : rng) :
  c = Raise e -> lift c g = Raise e.
Proof. now intros ->. Qed.

(** C5: the trend divisions are not guarded.  On ten prices or more whose
    fifth price from the end is zero the call raises ZeroDivisionError
    instead of returning a forecast; and on strictly positive prices a
    number of periods of 0 or less leaves the list of points empty, and
    reading its last element raises IndexError. *)
Theorem predict_price_unguarded {FS : FloatSqrt} (self : LSTMPredictor)
    (prices : list float) (periods_ahead : Z) (g : rng) :
  (10 <= len prices)%Z ->
  (forall z, index prices (-5) = Ret z -> z == 0 ->
     predict_price self prices periods_ahead g = Raise ZeroDivisionError) /\
  (Forall (fun p => 0 < p) prices -> (periods_ahead <= 0)%Z ->
     predict_price self prices periods_ahead g = Raise IndexError).
Proof.
  intros Hlen. unfold predict_price.
  replace (len prices <? 10)%Z with false by (symmetry; apply Z.ltb_ge; lia).
  destruct (index_Forall (fun _ => True) prices (-1)) as (cp & Hcp & _);
    [now apply Forall_forall | lia | ].
  erewrite bind_lift_M by exact Hcp. split.
  - intros z Hz Hz0. apply bind_raise_M, lift_raise.
    apply (trend_zero_divisor prices 5 z); [lia | exact Hz | exact Hz0].
  - intros Hpos Hpa.
    destruct (trend_returns prices 5 Hpos) as [st Hst]; [lia | ].
    erewrite bind_lift_M by exact Hst.
    destruct (trend_returns prices 10 Hpos) as [mt Hmt]; [lia | ].
    erewrite bind_lift_M by exact Hmt.
    destruct (volatility_nonneg prices Hpos) as (v & Hv & _).
    { intros E. rewrite E in Hlen. unfold len in Hlen. simpl in Hlen. lia. }
    erewrite bind_lift_M by exact Hv.
    replace (range 1 (periods_ahead + 1)) with (@nil Z)
      by (unfold range; now replace (Z.to_nat (periods_ahead + 1 - 1))
                              with 0%nat by lia).
    erewrite bind_ret_M by reflexivity. reflexivity.
Qed.

Lemma predict_price_unguarded_witness :
  (10 <= len ten_prices_with_zero)%Z /\
  predict_price (FS := sqrt6) sample_predictor ten_prices_with_zero 3
                fixed_rng = Raise ZeroDivisionError.
Proof.
  assert (H : (10 <= len ten_prices_with_zero)%Z)
    by (vm_compute; discriminate).
  split; [exact H | ].
  exact (proj1 (predict_price_unguarded (FS := sqrt6) sample_predictor
                  ten_prices_with_zero 3 fixed_rng H)
               0 eq_refl (Qeq_refl 0)).
Defined.

Lemma next_bar_of_zero (current : float) (g : rng) :
  current == 0 ->
  exists b g', next_bar current g = Ret (b, g') /\ bar_close b == 0.
Proof.
  intros Hc. unfold next_bar.
  erewrite bind_ret_M by apply random_uniform_eq.
  erewrite bind_ret_M by apply random_gauss_eq.
  erewrite bind_ret_M by apply random_uniform_eq.
  erewrite bind_ret_M by apply random_uniform_eq.
  erewrite bind_ret_M by apply random_uniform_eq.
  eexists _, _. split; [reflexivity | ]. cbn [bar_close]. rewrite Hc. ring.
Qed.

(** From a base price of zero every generated close is zero. *)
Lemma price_bars_of_zero (days : nat) (current : float) (g : rng) :
  current == 0 ->
  exists bars g',
    price_bars days current g = Ret (bars, g') /\
    length bars = days /\ Forall (fun b => bar_close b == 0) bars.
Proof.
  revert current g. induction days as [ | n IH]; intros current g Hc.
  { exists [], g. repeat split. constructor. }
  destruct (next_bar_of_zero current g Hc) as (b & g1 & Hb & Hb0).
  destruct (IH (bar_close b) g1 Hb0) as (rest & g' & Hr & Hlen & HF).
  exists (b :: rest), g'. simpl.
  erewrite bind_ret_M by exact Hb. erewrite bind_ret_M by exact Hr.
  split; [reflexivity | ]. split; [now rewrite Hlen | now constructor].
Qed.

(** The prediction view on an asset whose price is the model's default 0:
    the generated history is all zeros and the forecast raises. *)
Lemma zero_base_price_forecast_raises {FS : FloatSqrt}
    (self : LSTMPredictor) (base_price : float) (days periods_ahead : Z)
    (g : rng) :
  base_price == 0 -> (10 <= days)%Z ->
  exists h g1,
    generate_price_history base_price days g = Ret (h, g1) /\
    predict_price self (ph_close h) periods_ahead g1
    = Raise ZeroDivisionError.
Proof.
  intros Hb Hd. unfold generate_price_history.
  destruct (price_bars_of_zero (Z.to_nat days) base_price g Hb)
    as (bars & g1 & Hbars & Hlen & HF).
  erewrite bind_ret_M by exact Hbars.
  eexists _, g1. split; [reflexivity | ]. cbn [ph_close].
  assert (Hl : (10 <= len (map bar_close bars))%Z)
    by (unfold len; rewrite length_map; lia).
  assert (HF' : Forall (fun c => c == 0) (map bar_close bars))
    by (apply Forall_map; exact HF).
  destruct (index_Forall _ (map bar_close bars) (-5) HF') as (z & Hz & Hz0);
    [lia | ].
  exact (proj1 (predict_price_unguarded self _ periods_ahead g1 Hl)
               z Hz Hz0).
Qed.

(** C6: the score's divisor [volatility + 0.01] is zero at a volatility of
    -0.01, and the call raises ZeroDivisionError whatever else the list
    holds. *)
Theorem optimize_allocation_zero_divisor (a : asset) (rest : list asset)
    (risk_tolerance : string) (g : rng) (v : float) :
  asset_volatility a = Some v -> v + 0.01 == 0 ->
  optimize_allocation (a :: rest) risk_tolerance g
  = Raise ZeroDivisionError.
Proof.
  intros Hv Hz. unfold optimize_allocation.
  apply bind_raise_M. simpl mapM. apply bind_raise_M. unfold weigh.
  erewrite bind_ret_M by apply random_uniform_eq.
  erewrite bind_ret_M by apply random_uniform_eq.
  apply bind_raise_M, lift_raise. rewrite Hv. simpl default.
  unfold raw_weight. now rewrite py_div_zero.
Qed.

Lemma optimize_allocation_zero_divisor_witness :
  asset_volatility degenerate_asset = Some (-0.01) /\ -0.01 + 0.01 == 0 /\
  optimize_allocation [degenerate_asset] "medium" fixed_rng
  = Raise ZeroDivisionError.
Proof.
  split; [reflexivity | ]. split; [reflexivity | ].
  exact (optimize_allocation_zero_divisor degenerate_asset [] "medium"
           fixed_rng (-0.01) eq_refl (Qeq_refl 0)).
Defined.

(** * Properties of the floating-point embedding *)

Section FloatFacts.
Context {R : IEEE.Rounding}.

Lemma xleb_trans (x y z : IEEE.xfloat) :
  IEEE.leb x y = true -> IEEE.leb y z = true -> IEEE.leb x z = true.
Proof.
  destruct x, y, z; simpl; try reflexivity; try discriminate.
  rewrite !Qle_bool_iff. apply Qle_trans.
Qed.

Lemma xleb_not_nan (x y : IEEE.xfloat) :
  IEEE.leb x y = true -> IEEE.is_nan x = false /\ IEEE.is_nan y = false.
Proof. destruct x, y; simpl; try discriminate; auto. Qed.

Lemma xeqb_leb (x y : IEEE.xfloat) :
  IEEE.eqb x y = true -> IEEE.leb x y = true /\ IEEE.leb y x = true.
Proof. unfold IEEE.eqb. apply andb_true_iff. Qed.

Lemma xltb_leb (x y : IEEE.xfloat) :
  IEEE.ltb x y = true -> IEEE.leb x y = true.
Proof. unfold IEEE.ltb. intros H. now apply andb_true_iff in H. Qed.

(** Of two numbers that are not equal, one is below the other. *)
Lemma xleb_neq_ltb (x y : IEEE.xfloat) :
  IEEE.leb x y = true -> IEEE.eqb y x = false -> IEEE.ltb x y = true.
Proof.
  unfold IEEE.eqb, IEEE.ltb. intros ->. simpl.
  now destruct (IEEE.leb y x).
Qed.

Lemma rnd_not_nan (q : Q) : IEEE.is_nan (IEEE.rnd q) = false.
Proof.
  pose proof (IEEE.rnd_mono q q (Qle_refl q)) as H.
  now apply xleb_not_nan in H.
Qed.

Lemma rnd_le_int (q : Q) (n : Z) :
  (Z.abs n <= 2 ^ 53)%Z -> q <= inject_Z n ->
  IEEE.leb (IEEE.rnd q) (IEEE.Fin (inject_Z n)) = true.
Proof.
  intros Hn Hq. destruct (xeqb_leb _ _ (IEEE.rnd_int n Hn)) as [H1 _].
  apply xleb_trans with (IEEE.rnd (inject_Z n)); [ | exact H1].
  now apply IEEE.rnd_mono.
Qed.

Lemma rnd_ge_int (q : Q) (n : Z) :
  (Z.abs n <= 2 ^ 53)%Z -> inject_Z n <= q ->
  IEEE.leb (IEEE.Fin (inject_Z n)) (IEEE.rnd q) = true.
Proof.
  intros Hn Hq. destruct (xeqb_leb _ _ (IEEE.rnd_int n Hn)) as [_ H2].
  apply xleb_trans with (IEEE.rnd (inject_Z n)); [exact H2 | ].
  now apply IEEE.rnd_mono.
Qed.

Lemma rnd_nonneg (q : Q) : 0 <= q -> IEEE.leb (IEEE.Fin 0) (IEEE.rnd q) = true.
Proof. intros H. apply (rnd_ge_int q 0); [simpl; lia | exact H]. Qed.

(** The rounding of a float is that float. *)
Lemma rnd_float_le (a q : Q) :
  IEEE.is_float (IEEE.Fin a) = true -> a <= q ->
  IEEE.leb (IEEE.Fin a) (IEEE.rnd q) = true.
Proof.
  intros Ha Hq. destruct (xeqb_leb _ _ Ha) as [_ H2].
  apply xleb_trans with (IEEE.rnd a); [exact H2 | ].
  now apply IEEE.rnd_mono.
Qed.

Lemma rnd_float_ge (a q : Q) :
  IEEE.is_float (IEEE.Fin a) = true -> q <= a ->
  IEEE.leb (IEEE.rnd q) (IEEE.Fin a) = true.
Proof.
  intros Ha Hq. destruct (xeqb_leb _ _ Ha) as [H1 _].
  apply xleb_trans with (IEEE.rnd a); [ | exact H1].
  now apply IEEE.rnd_mono.
Qed.

Lemma rnd_is_float (q : Q) : IEEE.is_float (IEEE.rnd q) = true.
Proof.
  unfold IEEE.is_float. destruct (IEEE.rnd q) as [y | | | ] eqn:E; trivial.
  exact (IEEE.rnd_idem q y E).
Qed.

(** A number that is at least 0 is a finite one or the positive
    infinity. *)
Lemma xnonneg_cases (x : IEEE.xfloat) :
  IEEE.leb (IEEE.Fin 0) x = true ->
  (exists q, x = IEEE.Fin q /\ 0 <= q) \/ x = IEEE.PInf.
Proof.
  destruct x as [q | | | ]; simpl; try discriminate; [ | auto].
  rewrite Qle_bool_iff. eauto.
Qed.

Lemma xpos_cases (x : IEEE.xfloat) :
  IEEE.ltb (IEEE.Fin 0) x = true ->
  (exists q, x = IEEE.Fin q /\ 0 < q) \/ x = IEEE.PInf.
Proof.
  unfold IEEE.ltb. destruct x as [q | | | ]; simpl; try discriminate;
    [ | auto].
  rewrite andb_true_iff, negb_true_iff, Qle_bool_iff.
  intros [H1 H2]. left. exists q. split; [reflexivity | ].
  apply Qnot_le_lt. intros H. apply Qle_bool_iff in H. congruence.
Qed.

End FloatFacts.

(** ** RSI over floats *)

Section FloatIndicators.
Context {R : IEEE.Rounding} {N : IEEE.Numpy}.

Lemma xbetween (a b : Q) (x : IEEE.xfloat) :
  IEEE.leb (IEEE.Fin a) x = true -> IEEE.leb x (IEEE.Fin b) = true ->
  exists q, x = IEEE.Fin q /\ a <= q /\ q <= b.
Proof.
  destruct x as [q | | | ]; simpl; try discriminate.
  rewrite !Qle_bool_iff. eauto.
Qed.

Lemma is_nan_true (x : IEEE.xfloat) : IEEE.is_nan x = true -> x = IEEE.NaN.
Proof. destruct x; simpl; congruence. Qed.

Lemma round_of_nan (n : nat) : IEEE.round IEEE.NaN n = IEEE.NaN.
Proof. apply is_nan_true. now rewrite IEEE.round_nan. Qed.

(** Rounding to decimals keeps a number between two small integers
    between them. *)
Lemma round_range (x : IEEE.xfloat) (lo hi : Z) (n : nat) :
  (Z.abs lo <= 1000000)%Z -> (Z.abs hi <= 1000000)%Z -> (n <= 4)%nat ->
  IEEE.leb (IEEE.Fin (inject_Z lo)) x = true ->
  IEEE.leb x (IEEE.Fin (inject_Z hi)) = true ->
  IEEE.leb (IEEE.Fin (inject_Z lo)) (IEEE.round x n) = true /\
  IEEE.leb (IEEE.round x n) (IEEE.Fin (inject_Z hi)) = true.
Proof.
  intros Hlo Hhi Hn H1 H2.
  destruct (xeqb_leb _ _ (IEEE.round_int lo n Hlo Hn)) as [_ L].
  destruct (xeqb_leb _ _ (IEEE.round_int hi n Hhi Hn)) as [U _].
  split.
  - eapply xleb_trans; [exact L | ]. now apply IEEE.round_mono.
  - eapply xleb_trans; [ | exact U]. now apply IEEE.round_mono.
Qed.

Lemma float_gain_nonneg (d : IEEE.xfloat) :
  IEEE.leb (IEEE.Fin 0) (IEEE.gain d) = true.
Proof.
  unfold IEEE.gain. destruct (IEEE.ltb (IEEE.Fin 0) d) eqn:E.
  - now apply xltb_leb.
  - reflexivity.
Qed.

Lemma float_loss_nonneg (d : IEEE.xfloat) :
  IEEE.leb (IEEE.Fin 0) (IEEE.loss d) = true.
Proof.
  unfold IEEE.loss. destruct (IEEE.ltb d (IEEE.Fin 0)) eqn:E;
    [ | reflexivity].
  apply xltb_leb in E. destruct d as [q | | | ]; simpl in *;
    try discriminate; try reflexivity.
  apply Qle_bool_iff in E. apply Qle_bool_iff. lra.
Qed.

Lemma float_mean_or_zero_nonneg (l : list IEEE.xfloat) :
  Forall (fun x => IEEE.leb (IEEE.Fin 0) x = true) l ->
  IEEE.leb (IEEE.Fin 0) (IEEE.mean_or_zero l) = true.
Proof.
  intros H. destruct l as [ | x t]; [reflexivity | ].
  apply IEEE.np_mean_nonneg; [discriminate | exact H].
Qed.

Lemma avg_gain_nonneg (prices : list IEEE.xfloat) (period : Z) :
  IEEE.leb (IEEE.Fin 0) (IEEE.avg_gain prices period) = true.
Proof. apply float_mean_or_zero_nonneg, Forall_map_all, float_gain_nonneg. Qed.

Lemma avg_loss_nonneg (prices : list IEEE.xfloat) (period : Z) :
  IEEE.leb (IEEE.Fin 0) (IEEE.avg_loss prices period) = true.
Proof. apply float_mean_or_zero_nonneg, Forall_map_all, float_loss_nonneg. Qed.

(** The quotient of a number that is at least 0 by a positive one: nan
    when both are infinite, and at least 0 otherwise. *)
Lemma np_div_nonneg (a b : IEEE.xfloat) :
  IEEE.leb (IEEE.Fin 0) a = true -> IEEE.ltb (IEEE.Fin 0) b = true ->
  (a = IEEE.PInf /\ b = IEEE.PInf /\ IEEE.np_div a b = IEEE.NaN) \/
  (~ (a = IEEE.PInf /\ b = IEEE.PInf) /\
   IEEE.leb (IEEE.Fin 0) (IEEE.np_div a b) = true).
Proof.
  intros Ha Hb.
  destruct (xnonneg_cases a Ha) as [(qa & -> & Hqa) | ->];
    destruct (xpos_cases b Hb) as [(qb & -> & Hqb) | ->].
  - right. split; [intros [? _]; discriminate | ]. simpl.
    replace (Qeq_bool qb 0) with false
      by (symmetry; apply Qeq_bool_false; lra).
    apply rnd_nonneg. apply Qle_shift_div_l; lra.
  - right. split; [intros [? _]; discriminate | reflexivity].
  - right. split; [intros [_ ?]; discriminate | ]. simpl.
    replace (Qle_bool 0 qb) with true
      by (symmetry; apply Qle_bool_iff; lra).
    reflexivity.
  - left. auto.
Qed.

(** [100 - 100 / (1 + rs)] for a ratio that is at least 0. *)
Lemma rsi_of_ratio (rs : IEEE.xfloat) :
  IEEE.leb (IEEE.Fin 0) rs = true ->
  let rsi := IEEE.sub (IEEE.Fin 100)
               (IEEE.np_div (IEEE.Fin 100) (IEEE.add (IEEE.Fin 1) rs)) in
  IEEE.leb (IEEE.Fin 0) rsi = true /\ IEEE.leb rsi (IEEE.Fin 100) = true.
Proof.
  intros Hrs.
  assert (Hq : exists u, IEEE.np_div (IEEE.Fin 100)
                           (IEEE.add (IEEE.Fin 1) rs) = IEEE.Fin u
                         /\ 0 <= u /\ u <= 100).
  { destruct (xnonneg_cases rs Hrs) as [(r & -> & Hr) | ->].
    - simpl IEEE.add.
      assert (H1 : IEEE.leb (IEEE.Fin 1) (IEEE.rnd (1 + r)) = true)
        by (apply (rnd_ge_int _ 1); [simpl; lia | change (inject_Z 1) with 1; lra]).
      destruct (IEEE.rnd (1 + r)) as [t | | | ] eqn:Et; simpl in H1;
        try discriminate.
      + apply Qle_bool_iff in H1. simpl.
        replace (Qeq_bool t 0) with false
          by (symmetry; apply Qeq_bool_false; lra).
        apply (xbetween 0 100).
        * apply rnd_nonneg. apply Qle_shift_div_l; lra.
        * apply (rnd_le_int _ 100); [simpl; lia | ].
          change (inject_Z 100) with 100. apply Qle_shift_div_r; lra.
      + exists 0. simpl. repeat split; lra.
    - exists 0. simpl. repeat split; lra. }
  destruct Hq as (u & -> & Hu0 & Hu1). cbv zeta. simpl. split.
  - apply rnd_nonneg. lra.
  - apply (rnd_le_int _ 100); [simpl; lia | ].
    change (inject_Z 100) with 100. lra.
Qed.

Lemma calculate_rsi_long (prices : list IEEE.xfloat) (period : Z) :
  (len prices <? period + 1)%Z = false ->
  let r := IEEE.calculate_rsi prices period in
  (r = IEEE.NaN <->
   IEEE.avg_gain prices period = IEEE.PInf /\
   IEEE.avg_loss prices period = IEEE.PInf) /\
  (r <> IEEE.NaN ->
   IEEE.leb (IEEE.Fin 0) r = true /\ IEEE.leb r (IEEE.Fin 100) = true).
Proof.
  intros Hlen. unfold IEEE.calculate_rsi. rewrite Hlen.
  pose proof (avg_gain_nonneg prices period) as Hg.
  pose proof (avg_loss_nonneg prices period) as Hl.
  set (ag := IEEE.avg_gain prices period) in *.
  set (al := IEEE.avg_loss prices period) in *.
  destruct (IEEE.eqb al (IEEE.Fin 0)) eqn:E0.
  { cbv zeta. split.
    - split; [discriminate | ]. intros [_ Hal]. rewrite Hal in E0.
      discriminate.
    - intros _. split; reflexivity. }
  assert (Hpos : IEEE.ltb (IEEE.Fin 0) al = true)
    by (apply xleb_neq_ltb; assumption).
  destruct (np_div_nonneg ag al Hg Hpos) as [(Ha & Hb & Hd) | [Hnot Hrs]].
  - cbv zeta. rewrite Hd. simpl. rewrite round_of_nan. split.
    + split; auto.
    + intros H. congruence.
  - destruct (rsi_of_ratio _ Hrs) as [H0 H100]. cbv zeta in *.
    destruct (round_range _ 0 100 2 ltac:(simpl; lia) ltac:(simpl; lia)
                ltac:(lia) H0 H100) as [R0 R100].
    change (inject_Z 0) with 0 in R0. change (inject_Z 100) with 100 in R100.
    split.
    + split; [ | tauto]. intros E. rewrite E in R0. discriminate.
    + intros _. split; assumption.
Qed.

Lemma sub_self_sign (c : IEEE.xfloat) :
  IEEE.ltb (IEEE.Fin 0) (IEEE.sub c c) = false /\
  IEEE.ltb (IEEE.sub c c) (IEEE.Fin 0) = false.
Proof.
  destruct c as [q | | | ]; try (split; reflexivity).
  unfold IEEE.sub. simpl.
  assert (H1 : IEEE.leb (IEEE.rnd (q + - q)) (IEEE.Fin 0) = true)
    by (apply (rnd_le_int _ 0); [simpl; lia | change (inject_Z 0) with 0; lra]).
  assert (H2 : IEEE.leb (IEEE.Fin 0) (IEEE.rnd (q + - q)) = true)
    by (apply rnd_nonneg; lra).
  unfold IEEE.ltb. rewrite H1, H2. split; reflexivity.
Qed.

Lemma deltas_of_flat (c : IEEE.xfloat) (n : nat) :
  Forall (fun d => d = IEEE.sub c c) (IEEE.deltas (replicate n c)).
Proof.
  induction n as [ | n IH]; [constructor | ].
  destruct n as [ | n]; [constructor | ].
  change (Forall (fun d => d = IEEE.sub c c)
            (IEEE.sub c c :: IEEE.deltas (replicate (S n) c))).
  constructor; [reflexivity | exact IH].
Qed.

Lemma calculate_rsi_of_flat (c : IEEE.xfloat) (n : nat) (period : Z) :
  IEEE.calculate_rsi (replicate n c) period
  = if (Z.of_nat n <? period + 1)%Z then IEEE.Fin 50 else IEEE.Fin 100.
Proof.
  unfold IEEE.calculate_rsi, len. rewrite length_replicate.
  destruct (Z.of_nat n <? period + 1)%Z; [reflexivity | ].
  assert (H : IEEE.eqb (IEEE.avg_loss (replicate n c) period) (IEEE.Fin 0)
              = true).
  { unfold IEEE.avg_loss.
    set (ds := slice_from (IEEE.deltas (replicate n c)) (- period)).
    assert (Hds : Forall (fun d => d = IEEE.sub c c) ds)
      by apply Forall_slice_from, deltas_of_flat.
    assert (Hl : Forall (fun x => IEEE.eqb x (IEEE.Fin 0) = true)
                   (map IEEE.loss ds)).
    { apply Forall_map. eapply Forall_impl; [exact Hds | ].
      intros d ->. simpl. unfold IEEE.loss.
      destruct (sub_self_sign c) as [_ ->]. reflexivity. }
    destruct (map IEEE.loss ds) as [ | x t] eqn:E; [reflexivity | ].
    apply IEEE.np_mean_zero; [discriminate | exact Hl]. }
  now rewrite H.
Qed.

End FloatIndicators.

(** C1 (as amended): over floats, infinities and nans included,
    [calculate_rsi] returns nan exactly when there are [period + 1] prices
    or more and the average gain and the average loss are both infinite,
    and a value in [0, 100] otherwise; on a flat list it returns 50 when
    the list has fewer than [period + 1] elements and 100 when it has
    more. *)
Theorem calculate_rsi_range_or_nan {R : IEEE.Rounding} {N : IEEE.Numpy}
    (prices : list IEEE.xfloat) (period : Z) :
  let r := IEEE.calculate_rsi prices period in
  (r = IEEE.NaN <->
   (period + 1 <= len prices)%Z /\
   IEEE.avg_gain prices period = IEEE.PInf /\
   IEEE.avg_loss prices period = IEEE.PInf) /\
  (r <> IEEE.NaN ->
   IEEE.leb (IEEE.Fin 0) r = true /\ IEEE.leb r (IEEE.Fin 100) = true) /\
  (forall (c : IEEE.xfloat) (n : nat),
     IEEE.calculate_rsi (replicate n c) period
     = if (Z.of_nat n <? period + 1)%Z then IEEE.Fin 50 else IEEE.Fin 100).
Proof.
  intros r. subst r.
  split; [ | split; [ | intros c n; apply calculate_rsi_of_flat]].
  - destruct (len prices <? period + 1)%Z eqn:E.
    + unfold IEEE.calculate_rsi. rewrite E. apply Z.ltb_lt in E.
      split; [discriminate | lia].
    + destruct (calculate_rsi_long prices period E) as [H _].
      apply Z.ltb_ge in E. cbv zeta in H. rewrite H. tauto.
  - destruct (len prices <? period + 1)%Z eqn:E.
    + unfold IEEE.calculate_rsi. rewrite E. intros _. split; reflexivity.
    + apply (calculate_rsi_long prices period E).
Qed.

(** ** Bollinger bands over floats *)

Section FloatBands.
Context {R : IEEE.Rounding} {N : IEEE.Numpy}.

Lemma add_not_nan (x y : IEEE.xfloat) :
  IEEE.is_nan (IEEE.add x y) = false ->
  IEEE.is_nan x = false /\ IEEE.is_nan y = false.
Proof. destruct x, y; simpl; auto; discriminate. Qed.

Lemma neg_not_nan (x : IEEE.xfloat) :
  IEEE.is_nan (IEEE.neg x) = IEEE.is_nan x.
Proof. now destruct x. Qed.

Lemma mul_not_nan (x y : IEEE.xfloat) :
  IEEE.is_nan (IEEE.mul x y) = false ->
  IEEE.is_nan x = false /\ IEEE.is_nan y = false.
Proof. destruct x, y; simpl; auto; discriminate. Qed.

(** Adding a number that is at least 0 to a float does not make it
    smaller. *)
Lemma add_nonneg_ge (x t : IEEE.xfloat) :
  IEEE.is_float x = true -> IEEE.leb (IEEE.Fin 0) t = true ->
  IEEE.is_nan (IEEE.add x t) = false ->
  IEEE.leb x (IEEE.add x t) = true.
Proof.
  intros Hx Ht Hn.
  destruct (xnonneg_cases t Ht) as [(b & -> & Hb) | ->];
    destruct x as [a | | | ]; simpl in *; try reflexivity; try discriminate.
  apply rnd_float_le; [exact Hx | lra].
Qed.

(** Subtracting one does not make it larger. *)
Lemma sub_nonneg_le (x t : IEEE.xfloat) :
  IEEE.is_float x = true -> IEEE.leb (IEEE.Fin 0) t = true ->
  IEEE.is_nan (IEEE.sub x t) = false ->
  IEEE.leb (IEEE.sub x t) x = true.
Proof.
  intros Hx Ht Hn. unfold IEEE.sub in *.
  destruct (xnonneg_cases t Ht) as [(b & -> & Hb) | ->];
    destruct x as [a | | | ]; simpl in *; try reflexivity; try discriminate.
  apply rnd_float_ge; [exact Hx | lra].
Qed.

Lemma mul_nonneg (x y : IEEE.xfloat) :
  IEEE.leb (IEEE.Fin 0) x = true -> IEEE.leb (IEEE.Fin 0) y = true ->
  IEEE.is_nan (IEEE.mul x y) = false ->
  IEEE.leb (IEEE.Fin 0) (IEEE.mul x y) = true.
Proof.
  intros Hx Hy Hn.
  destruct (xnonneg_cases x Hx) as [(a & -> & Ha) | ->];
    destruct (xnonneg_cases y Hy) as [(b & -> & Hb) | ->];
    simpl in *; try reflexivity.
  - apply rnd_nonneg. now apply Qmult_le_0_compat.
  - unfold IEEE.scale_inf in *. destruct (Qcompare_spec a 0);
      simpl in *; try reflexivity; try discriminate. lra.
  - unfold IEEE.scale_inf in *. destruct (Qcompare_spec b 0);
      simpl in *; try reflexivity; try discriminate. lra.
Qed.

Lemma mul_two (s : IEEE.xfloat) :
  IEEE.is_nan (IEEE.mul (IEEE.Fin 2) s) = IEEE.is_nan s.
Proof. destruct s; simpl; try reflexivity. apply rnd_not_nan. Qed.

Lemma add_fin_nan (a : Q) (y : IEEE.xfloat) :
  IEEE.is_nan (IEEE.add (IEEE.Fin a) y) = IEEE.is_nan y.
Proof. destruct y; simpl; try reflexivity. apply rnd_not_nan. Qed.

Lemma bands_of_window (w : list IEEE.xfloat) :
  let sma := IEEE.np_mean w in
  let std := IEEE.np_std w in
  let up := IEEE.round (IEEE.add sma (IEEE.mul (IEEE.Fin 2) std)) 2 in
  let mid := IEEE.round sma 2 in
  let lo := IEEE.round (IEEE.sub sma (IEEE.mul (IEEE.Fin 2) std)) 2 in
  (IEEE.is_nan up = false -> IEEE.is_nan lo = false ->
   IEEE.leb lo mid = true /\ IEEE.leb mid up = true) /\
  (forall a, sma = IEEE.Fin a -> IEEE.is_nan std = false ->
   IEEE.is_nan up = false /\ IEEE.is_nan mid = false /\
   IEEE.is_nan lo = false).
Proof.
  cbv zeta. split.
  - rewrite !IEEE.round_nan. intros Hu Hl.
    destruct (add_not_nan _ _ Hu) as [Hm Ht].
    rewrite mul_two in Ht.
    assert (H2 : IEEE.leb (IEEE.Fin 0) (IEEE.mul (IEEE.Fin 2) (IEEE.np_std w))
                 = true).
    { apply mul_nonneg; [reflexivity | | now rewrite mul_two].
      now apply IEEE.np_std_nonneg. }
    split; apply IEEE.round_mono.
    + apply sub_nonneg_le; [apply IEEE.np_mean_float | exact H2 | exact Hl].
    + apply add_nonneg_ge; [apply IEEE.np_mean_float | exact H2 | exact Hu].
  - intros a Ha Hs. rewrite !IEEE.round_nan, Ha. unfold IEEE.sub.
    rewrite !add_fin_nan, neg_not_nan, mul_two. auto.
Qed.

End FloatBands.

(** C8 (as amended): on a price list at least as long as the period the
    bands are returned, and they are ordered whenever the upper and the
    lower band are numbers; all three are numbers when the mean of the
    window is finite and its deviation is not nan. *)
Theorem bollinger_bands_ordered_or_nan {R : IEEE.Rounding} {N : IEEE.Numpy}
    (prices : list IEEE.xfloat) (period : Z) :
  (period <= len prices)%Z ->
  exists b,
    IEEE.calculate_bollinger_bands prices period = Ret b /\
    (IEEE.is_nan (IEEE.upper b) = false ->
     IEEE.is_nan (IEEE.lower b) = false ->
     IEEE.leb (IEEE.lower b) (IEEE.middle b) = true /\
     IEEE.leb (IEEE.middle b) (IEEE.upper b) = true) /\
    (forall a,
       IEEE.np_mean (slice_from prices (- period)) = IEEE.Fin a ->
       IEEE.is_nan (IEEE.np_std (slice_from prices (- period))) = false ->
       IEEE.is_nan (IEEE.upper b) = false /\
       IEEE.is_nan (IEEE.middle b) = false /\
       IEEE.is_nan (IEEE.lower b) = false).
Proof.
  intros Hlen. unfold IEEE.calculate_bollinger_bands.
  replace (len prices <? period)%Z with false
    by (symmetry; apply Z.ltb_ge; lia).
  eexists. split; [reflexivity | ]. simpl.
  apply (bands_of_window (slice_from prices (- period))).
Qed.

(** ** The model satisfies what is assumed of floats *)

Lemma float_max_pos : inject_Z (2 ^ 53) <= IEEE.float_max.
Proof. unfold IEEE.float_max. rewrite <- Zle_Qle. vm_compute. discriminate. Qed.

Lemma rnd_range_in (q : Q) :
  - IEEE.float_max <= q -> q <= IEEE.float_max ->
  IEEE.rnd_range q = IEEE.Fin q.
Proof.
  intros H1 H2. unfold IEEE.rnd_range.
  apply Qle_bool_iff in H1. apply Qle_bool_iff in H2. now rewrite H1, H2.
Qed.

Lemma rnd_range_mono (x y : Q) :
  x <= y -> IEEE.leb (IEEE.rnd_range x) (IEEE.rnd_range y) = true.
Proof.
  intros Hxy. unfold IEEE.rnd_range.
  destruct (Qle_bool x IEEE.float_max) eqn:X1;
    destruct (Qle_bool y IEEE.float_max) eqn:Y1;
    destruct (Qle_bool (- IEEE.float_max) x) eqn:X2;
    destruct (Qle_bool (- IEEE.float_max) y) eqn:Y2;
    simpl; try reflexivity;
    try (apply Qle_bool_iff; exact Hxy);
    exfalso;
    repeat match goal with
           | H : Qle_bool _ _ = true |- _ => apply Qle_bool_iff in H
           | H : Qle_bool _ _ = false |- _ =>
               apply not_true_iff_false in H; rewrite Qle_bool_iff in H
           end;
    pose proof float_max_pos;
    assert (0 <= inject_Z (2 ^ 53)) by (rewrite <- (Zle_Qle 0); lia);
    lra.
Qed.

Lemma rnd_range_idem (x y : Q) :
  IEEE.rnd_range x = IEEE.Fin y ->
  IEEE.eqb (IEEE.rnd_range y) (IEEE.Fin y) = true.
Proof.
  unfold IEEE.rnd_range.
  destruct (Qle_bool x IEEE.float_max) eqn:X1; [ | discriminate].
  destruct (Qle_bool (- IEEE.float_max) x) eqn:X2; [ | discriminate].
  intros [= <-]. rewrite X1, X2. unfold IEEE.eqb. simpl.
  assert (H : Qle_bool x x = true) by apply Qle_bool_iff, Qle_refl.
  now rewrite H.
Qed.

Lemma rnd_range_int (n : Z) :
  (Z.abs n <= 2 ^ 53)%Z ->
  IEEE.eqb (IEEE.rnd_range (inject_Z n)) (IEEE.Fin (inject_Z n)) = true.
Proof.
  intros Hn. rewrite rnd_range_in.
  - unfold IEEE.eqb. simpl.
    assert (H : Qle_bool (inject_Z n) (inject_Z n) = true)
      by apply Qle_bool_iff, Qle_refl.
    now rewrite H.
  - pose proof float_max_pos.
    assert (- inject_Z (2 ^ 53) <= inject_Z n)
      by (rewrite <- inject_Z_opp, <- Zle_Qle; lia).
    lra.
  - pose proof float_max_pos.
    assert (inject_Z n <= inject_Z (2 ^ 53)) by (rewrite <- Zle_Qle; lia).
    lra.
Qed.

(** The range of binary64, without its rounding. *)
Definition binary64_range : IEEE.Rounding :=
  {| IEEE.rnd := IEEE.rnd_range;
     IEEE.rnd_mono := rnd_range_mono;
     IEEE.rnd_idem := rnd_range_idem;
     IEEE.rnd_int := rnd_range_int |}.

Section SequentialFacts.
Context {FS : FloatSqrt} {R : IEEE.Rounding}.

Lemma rnd_eq_zero (q : Q) :
  q == 0 -> IEEE.eqb (IEEE.rnd q) (IEEE.Fin 0) = true.
Proof.
  intros Hq. unfold IEEE.eqb. apply andb_true_iff. split.
  - apply (rnd_le_int _ 0); [simpl; lia | change (inject_Z 0) with 0; lra].
  - apply rnd_nonneg. lra.
Qed.

Lemma xeqb_zero_cases (x : IEEE.xfloat) :
  IEEE.eqb x (IEEE.Fin 0) = true -> exists q, x = IEEE.Fin q /\ q == 0.
Proof.
  intros H. apply xeqb_leb in H. destruct H as [H1 H2].
  destruct (xbetween 0 0 x H2 H1) as (q & -> & Hq).
  exists q. split; [reflexivity | lra].
Qed.

Lemma seq_sum_nonneg (l : list IEEE.xfloat) (acc : IEEE.xfloat) :
  IEEE.leb (IEEE.Fin 0) acc = true ->
  Forall (fun x => IEEE.leb (IEEE.Fin 0) x = true) l ->
  IEEE.leb (IEEE.Fin 0) (fold_left IEEE.add l acc) = true.
Proof.
  revert acc. induction l as [ | x t IH]; intros acc Ha H; [exact Ha | ].
  inversion H as [ | ? ? Hx Ht]; subst. simpl. apply IH; [ | exact Ht].
  destruct (xnonneg_cases acc Ha) as [(a & -> & Hqa) | ->];
    destruct (xnonneg_cases x Hx) as [(b & -> & Hqb) | ->];
    simpl; try reflexivity.
  apply rnd_nonneg. lra.
Qed.

Lemma seq_sum_zero (l : list IEEE.xfloat) (acc : IEEE.xfloat) :
  IEEE.eqb acc (IEEE.Fin 0) = true ->
  Forall (fun x => IEEE.eqb x (IEEE.Fin 0) = true) l ->
  IEEE.eqb (fold_left IEEE.add l acc) (IEEE.Fin 0) = true.
Proof.
  revert acc. induction l as [ | x t IH]; intros acc Ha H; [exact Ha | ].
  inversion H as [ | ? ? Hx Ht]; subst. simpl. apply IH; [ | exact Ht].
  destruct (xeqb_zero_cases acc Ha) as (a & -> & Hqa).
  destruct (xeqb_zero_cases x Hx) as (b & -> & Hqb).
  simpl. apply rnd_eq_zero. lra.
Qed.

Lemma len_cons_pos {A : Type} (x : A) (t : list A) :
  0 < inject_Z (len (x :: t)).
Proof.
  unfold len. change 0 with (inject_Z 0). rewrite <- Zlt_Qlt. simpl. lia.
Qed.

Lemma np_div_is_float (x y : IEEE.xfloat) :
  IEEE.is_float (IEEE.np_div x y) = true.
Proof.
  destruct x as [a | | | ], y as [b | | | ]; simpl; try reflexivity.
  - destruct (Qeq_bool b 0).
    + unfold IEEE.scale_inf. destruct (Qcompare a 0); reflexivity.
    + apply rnd_is_float.
  - apply (IEEE.rnd_int 0). simpl. lia.
  - apply (IEEE.rnd_int 0). simpl. lia.
  - now destruct (Qle_bool 0 b).
  - now destruct (Qle_bool 0 b).
Qed.

Lemma seq_mean_float (l : list IEEE.xfloat) :
  IEEE.is_float (IEEE.seq_mean l) = true.
Proof.
  destruct l as [ | x t]; [reflexivity | ]. apply np_div_is_float.
Qed.

Lemma seq_mean_nonneg (l : list IEEE.xfloat) :
  l <> [] -> Forall (fun x => IEEE.leb (IEEE.Fin 0) x = true) l ->
  IEEE.leb (IEEE.Fin 0) (IEEE.seq_mean l) = true.
Proof.
  intros Hne H. destruct l as [ | x t]; [congruence | ].
  unfold IEEE.seq_mean, IEEE.seq_sum.
  pose proof (len_cons_pos x t) as Hn.
  set (n := inject_Z (len (x :: t))) in *.
  pose proof (seq_sum_nonneg (x :: t) (IEEE.Fin 0) eq_refl H) as Hs.
  destruct (xnonneg_cases _ Hs) as [(a & -> & Ha) | ->]; simpl.
  - replace (Qeq_bool n 0) with false
      by (symmetry; apply Qeq_bool_false; lra).
    apply rnd_nonneg. apply Qle_shift_div_l; lra.
  - replace (Qle_bool 0 n) with true
      by (symmetry; apply Qle_bool_iff; lra).
    reflexivity.
Qed.

Lemma seq_mean_zero (l : list IEEE.xfloat) :
  l <> [] -> Forall (fun x => IEEE.eqb x (IEEE.Fin 0) = true) l ->
  IEEE.eqb (IEEE.seq_mean l) (IEEE.Fin 0) = true.
Proof.
  intros Hne H. destruct l as [ | x t]; [congruence | ].
  unfold IEEE.seq_mean, IEEE.seq_sum.
  pose proof (len_cons_pos x t) as Hn.
  set (n := inject_Z (len (x :: t))) in *.
  pose proof (seq_sum_zero (x :: t) (IEEE.Fin 0) eq_refl H) as Hs.
  destruct (xeqb_zero_cases _ Hs) as (a & -> & Ha). simpl.
  replace (Qeq_bool n 0) with false
    by (symmetry; apply Qeq_bool_false; lra).
  apply rnd_eq_zero. rewrite Ha. field. lra.
Qed.

Lemma seq_std_nonneg (l : list IEEE.xfloat) :
  IEEE.is_nan (IEEE.seq_std l) = false ->
  IEEE.leb (IEEE.Fin 0) (IEEE.seq_std l) = true.
Proof.
  unfold IEEE.seq_std. destruct l as [ | x t]; [discriminate | ].
  destruct (IEEE.seq_mean (map _ (x :: t))) as [q | | | ]; simpl;
    try discriminate; try reflexivity.
  destruct (Qle_bool 0 q); [ | discriminate].
  intros _. apply rnd_nonneg, fsqrt_nonneg.
Qed.

Lemma xleb_pinf (x : IEEE.xfloat) :
  IEEE.is_nan x = false -> IEEE.leb x IEEE.PInf = true.
Proof. destruct x; simpl; congruence. Qed.

Lemma round_dec_mono (x y : IEEE.xfloat) (n : nat) :
  IEEE.leb x y = true ->
  IEEE.leb (IEEE.round_dec x n) (IEEE.round_dec y n) = true.
Proof.
  destruct x as [a | | | ], y as [b | | | ]; simpl; try discriminate;
    try reflexivity; intros H.
  - apply IEEE.rnd_mono, py_round_mono. now apply Qle_bool_iff.
  - apply xleb_pinf, rnd_not_nan.
  - pose proof (rnd_not_nan (py_round b n)) as Hn.
    now destruct (IEEE.rnd (py_round b n)).
Qed.

Lemma round_dec_nan (x : IEEE.xfloat) (n : nat) :
  IEEE.is_nan (IEEE.round_dec x n) = IEEE.is_nan x.
Proof. destruct x; simpl; try reflexivity. apply rnd_not_nan. Qed.

Lemma py_round_int (k : Z) (n : nat) : py_round (inject_Z k) n == inject_Z k.
Proof.
  rewrite py_round_value.
  set (m := (10 ^ Z.of_nat n)%Z).
  assert (Hm : (0 < m)%Z) by (subst m; apply Z.pow_pos_nonneg; lia).
  assert (E : round_half_even (inject_Z k * inject_Z m) = (k * m)%Z).
  { unfold round_half_even.
    assert (Hf : Qfloor (inject_Z k * inject_Z m) = (k * m)%Z).
    { rewrite <- inject_Z_mult. apply Qfloor_Z. }
    rewrite Hf.
    destruct (Qcompare_spec (inject_Z k * inject_Z m - inject_Z (k * m))
                            (1 # 2)) as [H | H | H];
      rewrite inject_Z_mult in H; try reflexivity; lra. }
  rewrite E, inject_Z_mult. field.
  change 0 with (inject_Z 0). rewrite inject_Z_injective. lia.
Qed.

Lemma round_dec_int (k : Z) (n : nat) :
  (Z.abs k <= 1000000)%Z -> (n <= 4)%nat ->
  IEEE.eqb (IEEE.round_dec (IEEE.Fin (inject_Z k)) n)
           (IEEE.Fin (inject_Z k)) = true.
Proof.
  intros Hk _. simpl. pose proof (py_round_int k n) as E.
  unfold IEEE.eqb. apply andb_true_iff. split.
  - apply rnd_le_int; [lia | lra].
  - apply rnd_ge_int; [lia | lra].
Qed.

(** numpy with sums taken from left to right. *)
Definition sequential_numpy : IEEE.Numpy :=
  {| IEEE.np_mean := IEEE.seq_mean;
     IEEE.np_mean_empty := eq_refl;
     IEEE.np_mean_float := seq_mean_float;
     IEEE.np_mean_nonneg := seq_mean_nonneg;
     IEEE.np_mean_zero := seq_mean_zero;
     IEEE.np_std := IEEE.seq_std;
     IEEE.np_std_empty := eq_refl;
     IEEE.np_std_nonneg := seq_std_nonneg;
     IEEE.round := IEEE.round_dec;
     IEEE.round_mono := round_dec_mono;
     IEEE.round_nan := round_dec_nan;
     IEEE.round_int := round_dec_int |}.

End SequentialFacts.

(** ** The forecast over floats *)

Section FloatForecast.
Context {FS : FloatSqrt} {R : IEEE.Rounding} {N : IEEE.Numpy}.











End FloatForecast.


(** ** The claims as stated, run on the model *)

(** numpy on the range of binary64. *)
Definition binary64_numpy : IEEE.Numpy (R := binary64_range) :=
  sequential_numpy (FS := sqrt6) (R := binary64_range).

(** C1 fails as stated: fifteen equal prices give 100, not 50; and on
    fifteen prices that alternate between 1 and 1e308 both averages
    overflow and the result is nan, which is not in [0, 100]. *)
Lemma calculate_rsi_claim_counterexample :
  IEEE.eqb (IEEE.calculate_rsi (N := binary64_numpy)
              (replicate 15 (IEEE.Fin 100)) 14) (IEEE.Fin 50) = false /\
  IEEE.leb (IEEE.Fin 0)
           (IEEE.calculate_rsi (N := binary64_numpy) alternating_prices 14)
  = false.
Proof. split; vm_compute; reflexivity. Qed.

(** C8 fails as stated: the empty list with period 0 has an empty window,
    whose mean is nan; and two prices of 1e308 have an infinite mean and
    deviation, so the lower band is nan. *)
Lemma bollinger_bands_claim_counterexample :
  (0 <= len (@nil IEEE.xfloat))%Z /\
  (exists b,
     IEEE.calculate_bollinger_bands (N := binary64_numpy) [] 0 = Ret b /\
     IEEE.leb (IEEE.middle b) (IEEE.upper b) = false) /\
  (2 <= len [huge; huge])%Z /\
  (exists b,
     IEEE.calculate_bollinger_bands (N := binary64_numpy) [huge; huge] 2
     = Ret b /\
     IEEE.leb (IEEE.lower b) (IEEE.middle b) = false).
Proof.
  split; [vm_compute; discriminate | ]. split.
  { eexists. split; [vm_compute; reflexivity | reflexivity]. }
  split; [vm_compute; discriminate | ].
  eexists. split; [vm_compute; reflexivity | reflexivity].
Qed.

Lemma bollinger_bands_ordered_or_nan_witness :
  (4 <= len four_float_prices)%Z /\
  exists b,
    IEEE.calculate_bollinger_bands (N := binary64_numpy) four_float_prices 4
    = Ret b /\
    (IEEE.is_nan (IEEE.upper b) = false ->
     IEEE.is_nan (IEEE.lower b) = false ->
     IEEE.leb (IEEE.lower b) (IEEE.middle b) = true /\
     IEEE.leb (IEEE.middle b) (IEEE.upper b) = true) /\
    (forall a,
       @IEEE.np_mean _ binary64_numpy (slice_from four_float_prices (- 4))
       = IEEE.Fin a ->
       IEEE.is_nan (@IEEE.np_std _ binary64_numpy
                      (slice_from four_float_prices (- 4))) = false ->
       IEEE.is_nan (IEEE.upper b) = false /\
       IEEE.is_nan (IEEE.middle b) = false /\
       IEEE.is_nan (IEEE.lower b) = false).
Proof.
  assert (H : (4 <= len four_float_prices)%Z)
    by (vm_compute; discriminate).
  split; [exact H | ].
  exact (bollinger_bands_ordered_or_nan (N := binary64_numpy)
           four_float_prices 4 H).
Defined.



(** ** The stochastic oscillator over floats *)

Lemma last_slice_from {A : Type} (l : list A) (n : Z) :
  (1 <= n)%Z -> last (slice_from l (- n)) = last l.
Proof.
  intros Hn. unfold slice_from, clamp_index, len.
  replace (- n <? 0)%Z with true by (symmetry; apply Z.ltb_lt; lia).
  destruct l as [ | a l]; [now rewrite skipn_nil | ].
  set (k := Z.to_nat (Z.max 0 (Z.of_nat (length (a :: l)) + - n))).
  assert (Hk : (k < length (a :: l))%nat) by (subst k; simpl length; lia).
  rewrite !last_lookup, lookup_drop, length_skipn.
  f_equal. lia.
Qed.

Lemma xleb_refl (x : IEEE.xfloat) :
  IEEE.is_nan x = false -> IEEE.leb x x = true.
Proof.
  destruct x; simpl; try reflexivity; try discriminate.
  intros _. apply Qle_bool_iff, Qle_refl.
Qed.

Section FloatStochastic.
Context {R : IEEE.Rounding} {N : IEEE.Numpy} {B : IEEE.Binary}.

Lemma xleb_total (x y : IEEE.xfloat) :
  IEEE.is_nan x = false -> IEEE.is_nan y = false ->
  IEEE.ltb y x = false -> IEEE.leb x y = true.
Proof.
  unfold IEEE.ltb.
  destruct x as [a | | | ], y as [b | | | ]; simpl; try discriminate;
    try reflexivity.
  intros _ _ H. destruct (Qle_bool a b) eqn:E; [reflexivity | ].
  destruct (Qle_bool b a) eqn:E'; [discriminate | ].
  apply not_true_iff_false in E, E'. rewrite Qle_bool_iff in E, E'.
  exfalso. lra.
Qed.

Lemma ltb_nan_r (x y : IEEE.xfloat) :
  IEEE.is_nan y = true -> IEEE.ltb x y = false.
Proof. destruct y; try discriminate. now destruct x. Qed.

Lemma ltb_nan_l (x y : IEEE.xfloat) :
  IEEE.is_nan x = true -> IEEE.ltb x y = false.
Proof. destruct x; try discriminate. now destruct y. Qed.

(** [min] of a list that starts with a number: a number that is one of the
    items and at most every item that is a number. *)
Lemma fold_min_spec (l : list IEEE.xfloat) (x : IEEE.xfloat) :
  IEEE.is_nan x = false ->
  let r := fold_left IEEE.py_min l x in
  IEEE.is_nan r = false /\ In r (x :: l) /\
  Forall (fun y => IEEE.is_nan y = false -> IEEE.leb r y = true) (x :: l).
Proof.
  revert x. induction l as [ | y t IH]; intros x Hx; cbv zeta;
    cbn [fold_left].
  - split; [exact Hx | ]. split; [now left | ].
    constructor; [ | constructor]. intros _. now apply xleb_refl.
  - destruct (IEEE.ltb y x) eqn:E.
    + replace (IEEE.py_min x y) with y
        by (unfold IEEE.py_min; now rewrite E).
      assert (Hy : IEEE.is_nan y = false)
        by (apply xltb_leb, xleb_not_nan in E; tauto).
      destruct (IH y Hy) as (H1 & H2 & H3).
      split; [exact H1 | ]. split; [right; exact H2 | ].
      inversion H3 as [ | ? ? Hry Ht]; subst.
      constructor; [ | now constructor].
      intros _. eapply xleb_trans; [now apply Hry | now apply xltb_leb].
    + replace (IEEE.py_min x y) with x
        by (unfold IEEE.py_min; now rewrite E).
      destruct (IH x Hx) as (H1 & H2 & H3).
      split; [exact H1 | ].
      split.
      { destruct H2 as [H2 | H2]; [left; exact H2 | right; right; exact H2]. }
      inversion H3 as [ | ? ? Hrx Ht]; subst.
      constructor; [exact Hrx | ]. constructor; [ | exact Ht].
      intros Hy. eapply xleb_trans; [now apply Hrx | ].
      now apply xleb_total.
Qed.

Lemma fold_min_nan (l : list IEEE.xfloat) (x : IEEE.xfloat) :
  IEEE.is_nan x = true -> fold_left IEEE.py_min l x = x.
Proof.
  intros Hx. induction l as [ | y t IH]; [reflexivity | ]. simpl.
  unfold IEEE.py_min at 2. now rewrite (ltb_nan_r y x Hx).
Qed.

Lemma fold_max_spec (l : list IEEE.xfloat) (x : IEEE.xfloat) :
  IEEE.is_nan x = false ->
  let r := fold_left IEEE.py_max l x in
  IEEE.is_nan r = false /\ In r (x :: l) /\
  Forall (fun y => IEEE.is_nan y = false -> IEEE.leb y r = true) (x :: l).
Proof.
  revert x. induction l as [ | y t IH]; intros x Hx; cbv zeta;
    cbn [fold_left].
  - split; [exact Hx | ]. split; [now left | ].
    constructor; [ | constructor]. intros _. now apply xleb_refl.
  - destruct (IEEE.ltb x y) eqn:E.
    + replace (IEEE.py_max x y) with y
        by (unfold IEEE.py_max; now rewrite E).
      assert (Hy : IEEE.is_nan y = false)
        by (apply xltb_leb, xleb_not_nan in E; tauto).
      destruct (IH y Hy) as (H1 & H2 & H3).
      split; [exact H1 | ]. split; [right; exact H2 | ].
      inversion H3 as [ | ? ? Hry Ht]; subst.
      constructor; [ | now constructor].
      intros _. apply (xleb_trans x y); [now apply xltb_leb | now apply Hry].
    + replace (IEEE.py_max x y) with x
        by (unfold IEEE.py_max; now rewrite E).
      destruct (IH x Hx) as (H1 & H2 & H3).
      split; [exact H1 | ].
      split.
      { destruct H2 as [H2 | H2]; [left; exact H2 | right; right; exact H2]. }
      inversion H3 as [ | ? ? Hrx Ht]; subst.
      constructor; [exact Hrx | ]. constructor; [ | exact Ht].
      intros Hy. eapply xleb_trans; [ | now apply Hrx].
      now apply xleb_total.
Qed.

Lemma fold_max_nan (l : list IEEE.xfloat) (x : IEEE.xfloat) :
  IEEE.is_nan x = true -> fold_left IEEE.py_max l x = x.
Proof.
  intros Hx. induction l as [ | y t IH]; [reflexivity | ]. simpl.
  unfold IEEE.py_max at 2. now rewrite (ltb_nan_l x y Hx).
Qed.

(** [min] of a window whose last item is a number. *)
Lemma list_min_of_window (w : list IEEE.xfloat) (l : IEEE.xfloat) :
  last w = Some l -> IEEE.is_nan l = false ->
  Forall (fun x => IEEE.is_float x = true) w ->
  exists m, IEEE.list_min w = Ret m /\ IEEE.is_float m = true /\
            (IEEE.is_nan m = false -> IEEE.leb m l = true).
Proof.
  intros Hl Hn Hf. destruct w as [ | x t]; [discriminate | ].
  exists (fold_left IEEE.py_min t x). split; [reflexivity | ].
  destruct (IEEE.is_nan x) eqn:Ex.
  - rewrite (fold_min_nan t x Ex). split.
    + now inversion Hf.
    + congruence.
  - destruct (fold_min_spec t x Ex) as (H1 & H2 & H3). split.
    + rewrite Forall_forall in Hf. apply Hf.
      apply list_elem_of_In. exact H2.
    + intros _. rewrite Forall_forall in H3. apply H3; [ | exact Hn].
      apply last_Some_elem_of. exact Hl.
Qed.

Lemma list_max_of_window (w : list IEEE.xfloat) (h : IEEE.xfloat) :
  last w = Some h -> IEEE.is_nan h = false ->
  Forall (fun x => IEEE.is_float x = true) w ->
  exists m, IEEE.list_max w = Ret m /\ IEEE.is_float m = true /\
            (IEEE.is_nan m = false -> IEEE.leb h m = true).
Proof.
  intros Hl Hn Hf. destruct w as [ | x t]; [discriminate | ].
  exists (fold_left IEEE.py_max t x). split; [reflexivity | ].
  destruct (IEEE.is_nan x) eqn:Ex.
  - rewrite (fold_max_nan t x Ex). split.
    + now inversion Hf.
    + congruence.
  - destruct (fold_max_spec t x Ex) as (H1 & H2 & H3). split.
    + rewrite Forall_forall in Hf. apply Hf.
      apply list_elem_of_In. exact H2.
    + intros _. rewrite Forall_forall in H3. apply H3; [ | exact Hn].
      apply last_Some_elem_of. exact Hl.
Qed.

(** The share of the range that lies below the close: a number from 0 to
    1, or nan when the range or the distance to the low overflows. *)
Lemma stochastic_ratio (ll hh c : IEEE.xfloat) :
  IEEE.is_float ll = true -> IEEE.is_float hh = true ->
  IEEE.leb ll c = true -> IEEE.leb c hh = true ->
  IEEE.eqb hh ll = false ->
  exists q,
    IEEE.py_div (IEEE.sub c ll) (IEEE.sub hh ll) = Ret q /\
    (IEEE.is_nan q = false ->
     IEEE.leb (IEEE.Fin 0) q = true /\ IEEE.leb q (IEEE.Fin 1) = true).
Proof.
  intros Fl Fh Hlc Hch Hne.
  destruct ll as [x | | | ], hh as [y | | | ], c as [z | | | ];
    simpl in Hlc, Hch, Hne; try discriminate;
    try (eexists; split; [reflexivity | simpl; intros; discriminate]).
  - (* all three are finite *)
    apply Qle_bool_iff in Hlc, Hch.
    assert (Hxy : ~ y == x).
    { intros E. unfold IEEE.eqb in Hne. simpl in Hne.
      assert (E1 : Qle_bool y x = true) by (apply Qle_bool_iff; lra).
      assert (E2 : Qle_bool x y = true) by (apply Qle_bool_iff; lra).
      rewrite E1, E2 in Hne. discriminate. }
    unfold IEEE.sub. simpl IEEE.neg. simpl IEEE.add.
    assert (Ha : IEEE.leb (IEEE.Fin 0) (IEEE.rnd (z + - x)) = true)
      by (apply rnd_nonneg; lra).
    assert (Hab : IEEE.leb (IEEE.rnd (z + - x)) (IEEE.rnd (y + - x)) = true)
      by (apply IEEE.rnd_mono; lra).
    assert (Hb : IEEE.eqb (IEEE.rnd (y + - x)) (IEEE.Fin 0) = false).
    { destruct (IEEE.eqb (IEEE.rnd (y + - x)) (IEEE.Fin 0)) eqn:E;
        [ | reflexivity].
      exfalso. apply Hxy. now apply (IEEE.sub_nonzero y x). }
    destruct (IEEE.rnd (z + - x)) as [u | | | ] eqn:Eu;
      simpl in Ha; try discriminate;
      destruct (IEEE.rnd (y + - x)) as [v | | | ] eqn:Ev;
      simpl in Hab; try discriminate;
      try (eexists; split; [reflexivity | simpl; intros; discriminate]).
    + apply Qle_bool_iff in Ha, Hab.
      assert (Hv : ~ v == 0).
      { intros E. unfold IEEE.eqb in Hb. simpl in Hb.
        assert (E1 : Qle_bool v 0 = true) by (apply Qle_bool_iff; lra).
        assert (E2 : Qle_bool 0 v = true) by (apply Qle_bool_iff; lra).
        rewrite E1, E2 in Hb. discriminate. }
      unfold IEEE.py_div. simpl IEEE.is_zero.
      replace (Qeq_bool v 0) with false
        by (symmetry; now apply Qeq_bool_false).
      eexists. split; [reflexivity | ]. intros _. simpl.
      replace (Qeq_bool v 0) with false
        by (symmetry; now apply Qeq_bool_false).
      assert (Hv0 : 0 < v) by lra.
      split.
      * apply rnd_nonneg. apply Qle_shift_div_l; lra.
      * apply (rnd_le_int _ 1); [simpl; lia | ].
        change (inject_Z 1) with 1. apply Qle_shift_div_r; lra.
    + eexists. split; [reflexivity | ]. intros _. split; reflexivity.
  - (* the high is infinite *)
    unfold IEEE.sub. simpl IEEE.neg. simpl IEEE.add.
    apply Qle_bool_iff in Hlc.
    assert (Ha : IEEE.leb (IEEE.Fin 0) (IEEE.rnd (z + - x)) = true)
      by (apply rnd_nonneg; lra).
    destruct (IEEE.rnd (z + - x)) as [u | | | ] eqn:Eu;
      simpl in Ha; try discriminate;
      try (eexists; split; [reflexivity | simpl; intros; discriminate]).
    eexists. split; [reflexivity | ]. intros _. split; reflexivity.
Qed.

Lemma percent_of_ratio (q : IEEE.xfloat) :
  IEEE.leb (IEEE.Fin 0) q = true -> IEEE.leb q (IEEE.Fin 1) = true ->
  IEEE.leb (IEEE.Fin 0) (IEEE.mul q (IEEE.Fin 100)) = true /\
  IEEE.leb (IEEE.mul q (IEEE.Fin 100)) (IEEE.Fin 100) = true.
Proof.
  intros H0 H1. destruct (xbetween 0 1 q H0 H1) as (u & -> & Hu0 & Hu1).
  simpl. split.
  - apply rnd_nonneg. nra.
  - apply (rnd_le_int _ 100); [simpl; lia | ].
    change (inject_Z 100) with 100. nra.
Qed.

Lemma calculate_stochastic_outcome (high low close : list IEEE.xfloat)
    (period : Z) (h l c : IEEE.xfloat) :
  (1 <= period)%Z -> (period <= len close)%Z ->
  Forall (fun x => IEEE.is_float x = true) high ->
  Forall (fun x => IEEE.is_float x = true) low ->
  last high = Some h -> last low = Some l -> last close = Some c ->
  IEEE.leb l c = true -> IEEE.leb c h = true ->
  exists r,
    IEEE.calculate_stochastic high low close period = Ret r /\
    IEEE.pct_d r = IEEE.pct_k r /\
    (IEEE.is_nan (IEEE.pct_k r) = false ->
     IEEE.leb (IEEE.Fin 0) (IEEE.pct_k r) = true /\
     IEEE.leb (IEEE.pct_k r) (IEEE.Fin 100) = true).
Proof.
  intros Hp Hlen Fh Fl Lh Ll Lc Hlc Hch. unfold IEEE.calculate_stochastic.
  replace (len close <? period)%Z with false
    by (symmetry; apply Z.ltb_ge; lia).
  destruct (xleb_not_nan _ _ Hlc) as [Nl Nc].
  destruct (xleb_not_nan _ _ Hch) as [_ Nh].
  destruct (list_min_of_window (slice_from low (- period)) l)
    as (ll & -> & Fll & Hll);
    [now rewrite last_slice_from | exact Nl
    | now apply Forall_slice_from | ].
  destruct (list_max_of_window (slice_from high (- period)) h)
    as (hh & -> & Fhh & Hhh);
    [now rewrite last_slice_from | exact Nh
    | now apply Forall_slice_from | ].
  cbn [mbind res_bind].
  assert (Hc : index close (-1) = Ret c) by now apply index_last.
  destruct (IEEE.eqb hh ll) eqn:E.
  - cbn [mbind res_bind]. eexists. split; [reflexivity | ].
    split; [reflexivity | ]. intros _. cbn [IEEE.pct_k].
    apply (round_range _ 0 100); try (simpl; lia); reflexivity.
  - rewrite Hc. cbn [mbind res_bind].
    destruct (IEEE.is_nan ll) eqn:Nll.
    { apply is_nan_true in Nll. subst ll.
      assert (E1 : IEEE.sub c IEEE.NaN = IEEE.NaN) by now destruct c.
      assert (E2 : IEEE.sub hh IEEE.NaN = IEEE.NaN) by now destruct hh.
      rewrite E1, E2. unfold IEEE.py_div. simpl.
      eexists. split; [reflexivity | ]. split; [reflexivity | ].
      cbn [IEEE.pct_k]. rewrite IEEE.round_nan. discriminate. }
    destruct (IEEE.is_nan hh) eqn:Nhh.
    { apply is_nan_true in Nhh. subst hh.
      unfold IEEE.py_div. simpl IEEE.sub. simpl IEEE.is_zero.
      cbn [mbind res_bind].
      assert (E1 : IEEE.np_div (IEEE.sub c ll) IEEE.NaN = IEEE.NaN)
        by now destruct (IEEE.sub c ll).
      rewrite E1. simpl IEEE.mul.
      eexists. split; [reflexivity | ]. split; [reflexivity | ].
      cbn [IEEE.pct_k]. rewrite IEEE.round_nan. discriminate. }
    destruct (stochastic_ratio ll hh c Fll Fhh) as (q & -> & Hq);
      [eapply xleb_trans; [now apply Hll | exact Hlc]
      | eapply xleb_trans; [exact Hch | now apply Hhh]
      | exact E | ].
    cbn [mbind res_bind]. eexists. split; [reflexivity | ].
    split; [reflexivity | ]. cbn [IEEE.pct_k]. rewrite IEEE.round_nan.
    intros Hk. apply mul_not_nan in Hk. destruct Hk as [Hk _].
    destruct (Hq Hk) as [Q0 Q1].
    destruct (percent_of_ratio q Q0 Q1) as [P0 P1].
    apply (round_range _ 0 100); try (simpl; lia); assumption.
Qed.

End FloatStochastic.

(** X9: over floats, with the last close between the last low and the last
    high, %K is returned with %D equal to it, and it lies in [0, 100]
    unless it is nan. *)
Theorem calculate_stochastic_range_or_nan
    {R : IEEE.Rounding} {N : IEEE.Numpy} {B : IEEE.Binary}
    (high low close : list IEEE.xfloat) (period : Z)
    (h l c : IEEE.xfloat) :
  (1 <= period)%Z -> (period <= len close)%Z ->
  Forall (fun x => IEEE.is_float x = true) high ->
  Forall (fun x => IEEE.is_float x = true) low ->
  last high = Some h -> last low = Some l -> last close = Some c ->
  IEEE.leb l c = true -> IEEE.leb c h = true ->
  exists r,
    IEEE.calculate_stochastic high low close period = Ret r /\
    IEEE.pct_d r = IEEE.pct_k r /\
    (IEEE.is_nan (IEEE.pct_k r) = false ->
     IEEE.leb (IEEE.Fin 0) (IEEE.pct_k r) = true /\
     IEEE.leb (IEEE.pct_k r) (IEEE.Fin 100) = true).
Proof. apply calculate_stochastic_outcome. Qed.

(** ** Value at risk over floats *)

Section FloatRisk.
Context {R : IEEE.Rounding} {N : IEEE.Numpy}.

Lemma insert_sorted_length (x : IEEE.xfloat) (l : list IEEE.xfloat) :
  length (IEEE.insert_sorted x l) = S (length l).
Proof.
  induction l as [ | y t IH]; [reflexivity | ]. simpl.
  destruct (IEEE.ltb x y); simpl; [reflexivity | now rewrite IH].
Qed.

Lemma insert_sorted_In (x z : IEEE.xfloat) (l : list IEEE.xfloat) :
  In z (IEEE.insert_sorted x l) <-> z = x \/ In z l.
Proof.
  induction l as [ | y t IH]; simpl.
  - split; intros [H | H]; auto; contradiction.
  - destruct (IEEE.ltb x y); simpl; [ | rewrite IH]; intuition congruence.
Qed.

Lemma sorted_acc (l acc : list IEEE.xfloat) :
  let s := fold_left (fun a x => IEEE.insert_sorted x a) l acc in
  length s = (length l + length acc)%nat /\
  (forall z, In z s <-> In z l \/ In z acc).
Proof.
  revert acc. induction l as [ | x t IH]; intros acc; cbv zeta;
    cbn [fold_left].
  - split; [reflexivity | ]. intros z. simpl. tauto.
  - destruct (IH (IEEE.insert_sorted x acc)) as [H1 H2]. split.
    + rewrite H1, insert_sorted_length. simpl. lia.
    + intros z. rewrite H2, insert_sorted_In. simpl. intuition congruence.
Qed.

Lemma sorted_length (l : list IEEE.xfloat) : len (IEEE.sorted l) = len l.
Proof.
  unfold len, IEEE.sorted. destruct (sorted_acc l []) as [H _].
  rewrite H. simpl. f_equal. lia.
Qed.

Lemma sorted_In (l : list IEEE.xfloat) (z : IEEE.xfloat) :
  In z (IEEE.sorted l) <-> In z l.
Proof.
  unfold IEEE.sorted. destruct (sorted_acc l []) as [_ H].
  rewrite H. simpl. tauto.
Qed.

Lemma insert_sorted_least (x : IEEE.xfloat) (l : list IEEE.xfloat) :
  IEEE.is_nan x = false -> Forall (fun z => IEEE.is_nan z = false) l ->
  least_first l -> least_first (IEEE.insert_sorted x l).
Proof.
  intros Hx Hl H. destruct l as [ | y t]; simpl.
  - constructor; [now apply xleb_refl | constructor].
  - simpl in H. destruct (IEEE.ltb x y) eqn:E; simpl.
    + constructor; [now apply xleb_refl | ].
      eapply Forall_impl; [exact H | ]. intros z Hz. simpl in Hz.
      apply (xleb_trans x y); [now apply xltb_leb | exact Hz].
    + inversion H as [ | ? ? Hyy Ht]; subst.
      constructor; [exact Hyy | ].
      apply Forall_forall. intros z Hz. apply list_elem_of_In in Hz.
      apply insert_sorted_In in Hz. destruct Hz as [-> | Hz].
      * inversion Hl; subst. now apply xleb_total.
      * rewrite Forall_forall in Ht. apply Ht. now apply list_elem_of_In.
Qed.

Lemma insert_sorted_not_nan (x : IEEE.xfloat) (l : list IEEE.xfloat) :
  IEEE.is_nan x = false -> Forall (fun z => IEEE.is_nan z = false) l ->
  Forall (fun z => IEEE.is_nan z = false) (IEEE.insert_sorted x l).
Proof.
  intros Hx Hl. apply Forall_forall. intros z Hz.
  apply list_elem_of_In, insert_sorted_In in Hz. destruct Hz as [-> | Hz].
  - exact Hx.
  - rewrite Forall_forall in Hl. apply Hl. now apply list_elem_of_In.
Qed.

Lemma sorted_least_acc (l acc : list IEEE.xfloat) :
  Forall (fun z => IEEE.is_nan z = false) l ->
  Forall (fun z => IEEE.is_nan z = false) acc -> least_first acc ->
  least_first (fold_left (fun a x => IEEE.insert_sorted x a) l acc).
Proof.
  revert acc. induction l as [ | x t IH]; intros acc Hl Ha H;
    cbn [fold_left]; [exact H | ].
  inversion Hl; subst. apply IH; [assumption | | ].
  - now apply insert_sorted_not_nan.
  - now apply insert_sorted_least.
Qed.

(** Sorting a list without nan puts a least item first. *)
Lemma sorted_least (l : list IEEE.xfloat) (r : IEEE.xfloat) :
  Forall (fun z => IEEE.is_nan z = false) l ->
  index (IEEE.sorted l) 0 = Ret r ->
  Forall (fun z => IEEE.leb r z = true) l.
Proof.
  intros Hl Hr.
  assert (H : least_first (IEEE.sorted l))
    by (apply sorted_least_acc; [exact Hl | constructor | exact I]).
  assert (Hs : exists t, IEEE.sorted l = r :: t).
  { unfold index in Hr. simpl in Hr.
    destruct (IEEE.sorted l) as [ | y t]; [discriminate | ].
    destruct (0 <? len (y :: t))%Z; [ | discriminate].
    injection Hr as ->. now exists t. }
  destruct Hs as [t Hs]. rewrite Hs in H. simpl in H.
  apply Forall_forall. intros z Hz. apply list_elem_of_In in Hz.
  apply (proj2 (sorted_In _ _)) in Hz. rewrite Hs in Hz.
  rewrite Forall_forall in H. apply H. now apply list_elem_of_In.
Qed.

Lemma of_int_exact (n : Z) :
  (Z.abs n <= 2 ^ 53)%Z ->
  exists q, IEEE.of_int n = Ret (IEEE.Fin q) /\ q == inject_Z n.
Proof.
  intros Hn. unfold IEEE.of_int.
  destruct (xeqb_leb _ _ (IEEE.rnd_int n Hn)) as [H1 H2].
  destruct (xbetween _ _ _ H2 H1) as (q & -> & Hq).
  exists q. split; [reflexivity | lra].
Qed.

Lemma abs_nonneg (r : IEEE.xfloat) :
  IEEE.is_nan r = false -> IEEE.leb (IEEE.Fin 0) (IEEE.abs r) = true.
Proof.
  destruct r as [q | | | ]; simpl; try reflexivity; try discriminate.
  intros _. apply Qle_bool_iff, Qabs_nonneg.
Qed.

(** [round(abs(r) * 100, 2)] is never negative. *)
Lemma var_of_return_nonneg (r : IEEE.xfloat) :
  IEEE.is_nan r = false ->
  IEEE.leb (IEEE.Fin 0)
           (IEEE.round (IEEE.mul (IEEE.abs r) (IEEE.Fin 100)) 2) = true.
Proof.
  intros Hr.
  assert (H : IEEE.leb (IEEE.Fin 0) (IEEE.mul (IEEE.abs r) (IEEE.Fin 100))
              = true).
  { destruct (xnonneg_cases _ (abs_nonneg r Hr)) as [(q & -> & Hq) | ->].
    - simpl. apply rnd_nonneg. nra.
    - reflexivity. }
  destruct (xeqb_leb _ _ (IEEE.round_int 0 2 ltac:(simpl; lia) ltac:(lia)))
    as [_ L].
  eapply xleb_trans; [exact L | ]. now apply IEEE.round_mono.
Qed.

Lemma Qfloor_below (m : Q) (n : Z) :
  m < inject_Z n -> (Qfloor m < n)%Z.
Proof.
  intros H. pose proof (Qfloor_le m) as Hf. rewrite Zlt_Qlt. lra.
Qed.

Lemma Qfloor_above (m : Q) (n : Z) :
  inject_Z n <= m -> (n <= Qfloor m)%Z.
Proof.
  intros H. rewrite <- (Qfloor_Z n). now apply Qfloor_resp_le.
Qed.

Lemma calculate_var_low_confidence (returns : list IEEE.xfloat)
    (confidence : IEEE.xfloat) :
  (10 <= len returns <= 2 ^ 53)%Z ->
  IEEE.leb confidence (IEEE.Fin 0) = true ->
  IEEE.calculate_var returns confidence = Raise IndexError \/
  IEEE.calculate_var returns confidence = Raise OverflowError.
Proof.
  intros Hlen Hc. unfold IEEE.calculate_var. cbv zeta.
  replace (len returns <? 10)%Z with false
    by (symmetry; apply Z.ltb_ge; lia).
  rewrite sorted_length.
  destruct (of_int_exact (len returns)) as (nq & -> & Hnq); [lia | ].
  cbn [mbind res_bind].
  assert (Hn : inject_Z 10 <= nq) by (rewrite Hnq, <- Zle_Qle; lia).
  change (inject_Z 10) with 10 in Hn.
  assert (Hinf : IEEE.mul IEEE.PInf (IEEE.Fin nq) = IEEE.PInf).
  { simpl. unfold IEEE.scale_inf.
    destruct (Qcompare_spec nq 0) as [E | E | E]; try lra. reflexivity. }
  assert (Hx : IEEE.leb (IEEE.Fin 1) (IEEE.sub (IEEE.Fin 1) confidence)
               = true).
  { destruct confidence as [c | | | ]; simpl in Hc; try discriminate.
    - apply Qle_bool_iff in Hc. unfold IEEE.sub. simpl.
      apply (rnd_ge_int _ 1); [simpl; lia | ].
      change (inject_Z 1) with 1. lra.
    - reflexivity. }
  destruct (IEEE.sub (IEEE.Fin 1) confidence) as [x | | | ];
    simpl in Hx; try discriminate.
  - apply Qle_bool_iff in Hx. simpl IEEE.mul.
    assert (Hm : IEEE.leb (IEEE.Fin (inject_Z (len returns)))
                          (IEEE.rnd (x * nq)) = true).
    { apply rnd_ge_int; [lia | ]. rewrite <- Hnq. nra. }
    destruct (IEEE.rnd (x * nq)) as [m | | | ]; simpl in Hm;
      try discriminate.
    + apply Qle_bool_iff in Hm. left. simpl IEEE.py_int.
      assert (H0 : Qle_bool 0 m = true).
      { apply Qle_bool_iff. rewrite Hnq in Hn. lra. }
      rewrite H0. cbn [mbind res_bind].
      rewrite index_out_of_range; [reflexivity | ].
      rewrite sorted_length. now apply Qfloor_above.
    + right. reflexivity.
  - right. rewrite Hinf. reflexivity.
Qed.

End FloatRisk.

Section FloatRiskBinary.
Context {R : IEEE.Rounding} {N : IEEE.Numpy} {B : IEEE.Binary}.

Lemma rnd_le_half (q : Q) (n : Z) :
  (Z.abs n <= 2 ^ 53)%Z -> q <= inject_Z n / 2 ->
  IEEE.leb (IEEE.rnd q) (IEEE.Fin (inject_Z n / 2)) = true.
Proof.
  intros Hn Hq. destruct (xeqb_leb _ _ (IEEE.rnd_half n Hn)) as [H _].
  eapply xleb_trans; [ | exact H]. now apply IEEE.rnd_mono.
Qed.

Lemma calculate_var_outcome (returns : list IEEE.xfloat)
    (confidence : IEEE.xfloat) :
  (10 <= len returns <= 2 ^ 53)%Z ->
  Forall (fun r => IEEE.is_nan r = false) returns ->
  IEEE.leb (IEEE.Fin (1 # 2)) confidence = true ->
  IEEE.leb confidence (IEEE.Fin 1) = true ->
  exists r,
    In r returns /\
    IEEE.calculate_var returns confidence
    = Ret (IEEE.round (IEEE.mul (IEEE.abs r) (IEEE.Fin 100)) 2) /\
    IEEE.leb (IEEE.Fin 0)
             (IEEE.round (IEEE.mul (IEEE.abs r) (IEEE.Fin 100)) 2) = true /\
    (IEEE.eqb confidence (IEEE.Fin 1) = true ->
     Forall (fun x => IEEE.leb r x = true) returns).
Proof.
  intros Hlen Hnan Hc1 Hc2. unfold IEEE.calculate_var. cbv zeta.
  replace (len returns <? 10)%Z with false
    by (symmetry; apply Z.ltb_ge; lia).
  rewrite sorted_length.
  destruct (of_int_exact (len returns)) as (nq & -> & Hnq); [lia | ].
  cbn [mbind res_bind].
  assert (Hn : 10 <= inject_Z (len returns))
    by (change 10 with (inject_Z 10); rewrite <- Zle_Qle; lia).
  destruct (xbetween _ _ _ Hc1 Hc2) as (c & -> & Hc & Hc').
  unfold IEEE.sub. simpl IEEE.neg. simpl IEEE.add.
  assert (X0 : IEEE.leb (IEEE.Fin 0) (IEEE.rnd (1 + - c)) = true)
    by (apply rnd_nonneg; lra).
  assert (X1 : IEEE.leb (IEEE.rnd (1 + - c)) (IEEE.Fin (inject_Z 1 / 2))
               = true).
  { apply rnd_le_half; [simpl; lia | ].
    change (inject_Z 1 / 2) with (1 # 2). lra. }
  destruct (xbetween _ _ _ X0 X1) as (x & Ex & Hx0 & Hx1).
  change (inject_Z 1 / 2) with (1 # 2) in Hx1.
  rewrite Ex. simpl IEEE.mul.
  assert (M0 : IEEE.leb (IEEE.Fin 0) (IEEE.rnd (x * nq)) = true)
    by (apply rnd_nonneg; nra).
  assert (M1 : IEEE.leb (IEEE.rnd (x * nq))
                        (IEEE.Fin (inject_Z (len returns) / 2)) = true).
  { apply rnd_le_half; [lia | ].
    assert (Hd : inject_Z (len returns) / 2
                 == (1 # 2) * inject_Z (len returns)) by field.
    rewrite Hd, Hnq. nra. }
  destruct (xbetween _ _ _ M0 M1) as (m & Em & Hm0 & Hm1).
  rewrite Em. simpl IEEE.py_int.
  replace (Qle_bool 0 m) with true by (symmetry; now apply Qle_bool_iff).
  cbn [mbind res_bind].
  assert (Hi : (0 <= Qfloor m < len returns)%Z).
  { split.
    - now apply (Qfloor_above m 0).
    - apply Qfloor_below.
      assert (Hd : inject_Z (len returns) / 2
                   == (1 # 2) * inject_Z (len returns)) by field.
      rewrite Hd in Hm1. lra. }
  destruct (index_Forall (fun r => In r (IEEE.sorted returns))
              (IEEE.sorted returns) (Qfloor m)) as (r & Hr & Hin).
  { apply Forall_forall. intros z Hz. now apply list_elem_of_In. }
  { rewrite sorted_length. lia. }
  exists r. rewrite Hr. cbn [mbind res_bind].
  apply (proj1 (sorted_In _ _)) in Hin.
  assert (Hrn : IEEE.is_nan r = false).
  { apply (proj1 (Forall_forall _ _) Hnan). now apply list_elem_of_In. }
  split; [exact Hin | ]. split; [reflexivity | ].
  split; [now apply var_of_return_nonneg | ].
  intros E1. apply sorted_least; [exact Hnan | ].
  assert (Hc1' : c == 1).
  { apply xeqb_leb in E1. destruct E1 as [A1 A2]. simpl in A1, A2.
    apply Qle_bool_iff in A1, A2. lra. }
  assert (Hx' : x == 0).
  { assert (E0 : IEEE.eqb (IEEE.rnd (1 + - c)) (IEEE.Fin 0) = true)
      by (apply rnd_eq_zero; lra).
    rewrite Ex in E0. apply xeqb_zero_cases in E0.
    destruct E0 as (q & [= <-] & Hq). exact Hq. }
  assert (Hm' : m == 0).
  { assert (E0 : IEEE.eqb (IEEE.rnd (x * nq)) (IEEE.Fin 0) = true)
      by (apply rnd_eq_zero; rewrite Hx'; ring).
    rewrite Em in E0. apply xeqb_zero_cases in E0.
    destruct E0 as (q & [= <-] & Hq). exact Hq. }
  assert (Hf : Qfloor m = 0%Z).
  { rewrite (Qfloor_comp m 0 Hm'). reflexivity. }
  rewrite Hf in Hr. exact Hr.
Qed.

End FloatRiskBinary.

(** X10: over floats, on ten returns or more without a nan and a
    confidence from 0.5 to 1, the value at risk is
    [round(abs(r) * 100, 2)] for one of the returns [r] and is never
    negative; at a confidence of 1 that return is a least one. *)
Theorem calculate_var_value
    {R : IEEE.Rounding} {N : IEEE.Numpy} {B : IEEE.Binary}
    (returns : list IEEE.xfloat) (confidence : IEEE.xfloat) :
  (10 <= len returns <= 2 ^ 53)%Z ->
  Forall (fun r => IEEE.is_nan r = false) returns ->
  IEEE.leb (IEEE.Fin (1 # 2)) confidence = true ->
  IEEE.leb confidence (IEEE.Fin 1) = true ->
  exists r,
    In r returns /\
    IEEE.calculate_var returns confidence
    = Ret (IEEE.round (IEEE.mul (IEEE.abs r) (IEEE.Fin 100)) 2) /\
    IEEE.leb (IEEE.Fin 0)
             (IEEE.round (IEEE.mul (IEEE.abs r) (IEEE.Fin 100)) 2) = true /\
    (IEEE.eqb confidence (IEEE.Fin 1) = true ->
     Forall (fun x => IEEE.leb r x = true) returns).
Proof. apply calculate_var_outcome. Qed.

(** X11: over floats, on ten returns or more a confidence of 0 or less
    makes [calculate_var] raise: IndexError, the index being at or past
    the end of the sorted list, or OverflowError when the product it is
    taken from is infinite. *)
Theorem calculate_var_confidence_too_low
    {R : IEEE.Rounding} {N : IEEE.Numpy}
    (returns : list IEEE.xfloat) (confidence : IEEE.xfloat) :
  (10 <= len returns <= 2 ^ 53)%Z ->
  IEEE.leb confidence (IEEE.Fin 0) = true ->
  IEEE.calculate_var returns confidence = Raise IndexError \/
  IEEE.calculate_var returns confidence = Raise OverflowError.
Proof. apply calculate_var_low_confidence. Qed.

(** ** The oscillator and the value at risk, run on the model *)

Lemma rnd_range_half (n : Z) :
  (Z.abs n <= 2 ^ 53)%Z ->
  IEEE.eqb (IEEE.rnd_range (inject_Z n / 2)) (IEEE.Fin (inject_Z n / 2))
  = true.
Proof.
  intros Hn.
  assert (Hd : inject_Z n / 2 == (1 # 2) * inject_Z n) by field.
  pose proof float_max_pos as Hmax.
  assert (H1 : - inject_Z (2 ^ 53) <= inject_Z n)
    by (rewrite <- inject_Z_opp, <- Zle_Qle; lia).
  assert (H2 : inject_Z n <= inject_Z (2 ^ 53)) by (rewrite <- Zle_Qle; lia).
  assert (H3 : 0 <= inject_Z (2 ^ 53)) by (rewrite <- (Zle_Qle 0); lia).
  rewrite rnd_range_in; [ | rewrite Hd; lra | rewrite Hd; lra].
  unfold IEEE.eqb. simpl.
  assert (H : Qle_bool (inject_Z n / 2) (inject_Z n / 2) = true)
    by apply Qle_bool_iff, Qle_refl.
  now rewrite H.
Qed.

Lemma rnd_range_sub_nonzero (a b : Q) :
  IEEE.eqb (IEEE.rnd_range a) (IEEE.Fin a) = true ->
  IEEE.eqb (IEEE.rnd_range b) (IEEE.Fin b) = true ->
  IEEE.eqb (IEEE.rnd_range (a - b)) (IEEE.Fin 0) = true -> a == b.
Proof.
  intros _ _ H. apply xeqb_leb in H. destruct H as [H1 H2].
  unfold IEEE.rnd_range in H1, H2.
  destruct (Qle_bool (a - b) IEEE.float_max); [ | discriminate].
  destruct (Qle_bool (- IEEE.float_max) (a - b)); [ | discriminate].
  simpl in H1, H2. apply Qle_bool_iff in H1, H2. lra.
Qed.

Definition binary64_binary : IEEE.Binary (R := binary64_range) :=
  @IEEE.Build_Binary binary64_range rnd_range_half rnd_range_sub_nonzero.

Lemma calculate_stochastic_range_or_nan_witness :
  (1 <= 2)%Z /\ (2 <= len two_closes)%Z /\
  Forall (fun x => IEEE.is_float (R := binary64_range) x = true) two_highs /\
  Forall (fun x => IEEE.is_float (R := binary64_range) x = true) two_lows /\
  last two_highs = Some (IEEE.Fin 13) /\
  last two_lows = Some (IEEE.Fin 10) /\
  last two_closes = Some (IEEE.Fin 12) /\
  IEEE.leb (IEEE.Fin 10) (IEEE.Fin 12) = true /\
  IEEE.leb (IEEE.Fin 12) (IEEE.Fin 13) = true /\
  exists r,
    IEEE.calculate_stochastic (N := binary64_numpy) two_highs two_lows
      two_closes 2 = Ret r /\
    IEEE.pct_d r = IEEE.pct_k r /\
    (IEEE.is_nan (IEEE.pct_k r) = false ->
     IEEE.leb (IEEE.Fin 0) (IEEE.pct_k r) = true /\
     IEEE.leb (IEEE.pct_k r) (IEEE.Fin 100) = true).
Proof.
  assert (H1 : (1 <= 2)%Z) by lia.
  assert (H2 : (2 <= len two_closes)%Z) by (vm_compute; discriminate).
  assert (H3 : Forall (fun x => IEEE.is_float (R := binary64_range) x = true)
                 two_highs)
    by (repeat (constructor; [vm_compute; reflexivity | ]); constructor).
  assert (H4 : Forall (fun x => IEEE.is_float (R := binary64_range) x = true)
                 two_lows)
    by (repeat (constructor; [vm_compute; reflexivity | ]); constructor).
  assert (H5 : last two_highs = Some (IEEE.Fin 13)) by reflexivity.
  assert (H6 : last two_lows = Some (IEEE.Fin 10)) by reflexivity.
  assert (H7 : last two_closes = Some (IEEE.Fin 12)) by reflexivity.
  assert (H8 : IEEE.leb (IEEE.Fin 10) (IEEE.Fin 12) = true) by reflexivity.
  assert (H9 : IEEE.leb (IEEE.Fin 12) (IEEE.Fin 13) = true) by reflexivity.
  repeat (split; [assumption | ]).
  exact (calculate_stochastic_range_or_nan (N := binary64_numpy)
           (B := binary64_binary) two_highs two_lows two_closes 2
           (IEEE.Fin 13) (IEEE.Fin 10) (IEEE.Fin 12)
           H1 H2 H3 H4 H5 H6 H7 H8 H9).
Defined.

Lemma calculate_var_value_witness :
  (10 <= len ten_returns <= 2 ^ 53)%Z /\
  Forall (fun r => IEEE.is_nan r = false) ten_returns /\
  IEEE.leb (IEEE.Fin (1 # 2)) (IEEE.Fin 0.95) = true /\
  IEEE.leb (IEEE.Fin 0.95) (IEEE.Fin 1) = true /\
  exists r,
    In r ten_returns /\
    IEEE.calculate_var (N := binary64_numpy) ten_returns (IEEE.Fin 0.95)
    = Ret (@IEEE.round _ binary64_numpy
             (IEEE.mul (R := binary64_range) (IEEE.abs r) (IEEE.Fin 100)) 2)
    /\
    IEEE.leb (IEEE.Fin 0)
             (@IEEE.round _ binary64_numpy
                (IEEE.mul (R := binary64_range) (IEEE.abs r) (IEEE.Fin 100))
                2) = true /\
    (IEEE.eqb (IEEE.Fin 0.95) (IEEE.Fin 1) = true ->
     Forall (fun x => IEEE.leb r x = true) ten_returns).
Proof.
  assert (H1 : (10 <= len ten_returns <= 2 ^ 53)%Z)
    by (split; vm_compute; discriminate).
  assert (H2 : Forall (fun r => IEEE.is_nan r = false) ten_returns)
    by (repeat constructor).
  assert (H3 : IEEE.leb (IEEE.Fin (1 # 2)) (IEEE.Fin 0.95) = true)
    by reflexivity.
  assert (H4 : IEEE.leb (IEEE.Fin 0.95) (IEEE.Fin 1) = true) by reflexivity.
  repeat (split; [assumption | ]).
  exact (calculate_var_value (N := binary64_numpy) (B := binary64_binary)
           ten_returns (IEEE.Fin 0.95) H1 H2 H3 H4).
Defined.

Lemma calculate_var_confidence_too_low_witness :
  (10 <= len ten_returns <= 2 ^ 53)%Z /\
  IEEE.leb (IEEE.Fin 0) (IEEE.Fin 0) = true /\
  (IEEE.calculate_var (N := binary64_numpy) ten_returns (IEEE.Fin 0)
   = Raise IndexError \/
   IEEE.calculate_var (N := binary64_numpy) ten_returns (IEEE.Fin 0)
   = Raise OverflowError).
Proof.
  assert (H1 : (10 <= len ten_returns <= 2 ^ 53)%Z)
    by (split; vm_compute; discriminate).
  assert (H2 : IEEE.leb (IEEE.Fin 0) (IEEE.Fin 0) = true) by reflexivity.
  repeat (split; [assumption | ]).
  exact (calculate_var_confidence_too_low (N := binary64_numpy) ten_returns
           (IEEE.Fin 0) H1 H2).
Defined.
